(** * vidybot: download orchestration, retry executor, rate admission

    A shallow embedding of the Go sources

      - internal/utils/retry.go            (RetryWithContext,
                                            RetryWithContextAndResult)
      - the rate limiter of package utils  (Allow, allowRedis, allowMemory,
                                            CleanupExpiredCounters)
      - the dependency checker of utils    (CheckDependencies, checkDependency)
      - internal/downloader/downloader.go  (Download and its stages,
                                            CleanupDownloads)
      - internal/utils/command.go          (isValidURL)

    Go functions become Rocq functions over an explicit state: everything
    the program asks of its environment (clock, file system, external
    processes, Redis) is an operation of a type class over an abstract
    system state, and the calls that matter for the statements below are
    recorded in a trace next to that state. *)

From Stdlib Require Import ZArith String List Lia Bool DecimalString SpecFloat.
From Stdlib Require Import QArith Qminmax Qpower Lqa.
From Stdlib Require DecimalZ DecimalPos.
From stdpp Require Import base tactics option list gmap strings.
Import ListNotations.

Local Open Scope string_scope.
Local Open Scope list_scope.
Local Open Scope Z_scope.

Set Warnings "-register-all".

(** ** Go values *)

(** [error]: values built by errors.New, fmt.Errorf and errors.Join, and
    the sentinels the code compares against or receives from a context.
    A [fmt_Errorf] keeps its format string and arguments instead of the
    rendered text. *)
Inductive error : Type :=
| errors_New (text : string)
| fmt_Errorf (format : string) (args : list fmt_arg)
| errors_Join (errs : list error)
| io_EOF
| context_Canceled
| context_DeadlineExceeded
with fmt_arg : Type :=
| ArgInt (n : Z)
| ArgStr (s : string)
| ArgDur (d : Z)
| ArgErr (e : error).

(** A Go result pair [(T, error)] whose value is only used when the error
    is nil. *)
Inductive result (A : Type) : Type :=
| Ok (a : A)
| Err (e : error).
Arguments Ok {A} a.
Arguments Err {A} e.

Definition is_nil {A : Type} (o : option A) : bool :=
  match o with None => true | Some _ => false end.

(** int64 and time.Duration (an int64 count of nanoseconds). *)
Definition minInt64 : Z := -9223372036854775808.
Definition maxInt64 : Z := 9223372036854775807.

(** Arithmetic on int64 wraps around modulo 2^64. *)
Definition wrap64 (z : Z) : Z := (z - minInt64) mod 18446744073709551616 + minInt64.

Definition Nanosecond : Z := 1.
Definition Second : Z := 1000000000.
Definition Minute : Z := 60 * Second.
Definition Hour : Z := 60 * Minute.

(** float64 is IEEE 754 binary64, taken from the Standard Library's
    executable specification of floating-point numbers. *)
Definition float64 : Type := spec_float.

Definition float64_of_int (x : Z) : float64 := binary_normalize 53 1024 x 0 false.
Definition float64_mul : float64 -> float64 -> float64 := SFmul 53 1024.
Definition float64_add : float64 -> float64 -> float64 := SFadd 53 1024.
Definition float64_div : float64 -> float64 -> float64 := SFdiv 53 1024.

(** Conversion of a float64 to int64 truncates toward zero.  For a value
    outside int64 (or a NaN or an infinity) Go leaves the result to the
    implementation; amd64 yields the smallest int64, which is what is
    modelled here. *)
Definition int64_of_float64 (f : float64) : Z :=
  match f with
  | S754_zero _ => 0
  | S754_finite s m e =>
      let mag := Z.shiftl (Zpos m) e in
      let v := if s then - mag else mag in
      if (minInt64 <=? v) && (v <=? maxInt64) then v else minInt64
  | _ => minInt64
  end.

(** fmt.Sprintf("%d", n) *)
Definition Sprintf_d (n : Z) : string := NilZero.string_of_int (Z.to_int n).

(** ** Logging and the trace

    Every call of an EnhancedLogger method is recorded as a [EvLog] entry
    with its level, format string and arguments.  The other events record
    calls that leave the process. *)
Inductive LogLevel := LogLevelDebug | LogLevelInfo | LogLevelWarn | LogLevelError.

Inductive Event : Type :=
| EvLog (level : LogLevel) (format : string) (args : list fmt_arg)
| EvExec (path : string) (args : list string) (err : option error)
| EvRemoveAll (path : string) (err : option error)
| EvRedis (op : string) (key : string) (err : option error).

(** *EnhancedLogger: the value is a handle; what it writes is the trace. *)
Record EnhancedLogger := { logger_id : string }.

(** context.Context: [ctx_done_at] is the instant (in clock nanoseconds)
    at which the Done channel is closed, if it ever is, and [ctx_err] is
    what Err() returns from then on. *)
Record Context := {
  ctx_done_at : option Z;
  ctx_err : error
}.

Definition context_Background : Context :=
  {| ctx_done_at := None; ctx_err := context_Canceled |}.

Definition ctx_Done (ctx : Context) (now : Z) : bool :=
  match ctx_done_at ctx with
  | Some c => c <=? now
  | None => false
  end.

(** What a goroutine needs from the state it runs in: the clock, the
    passage of time while it is blocked, the choice [select] makes when
    both of its cases are ready, and the sink of the logger.  Writing a
    log entry does not move the clock. *)
Class Runtime (S : Type) := {
  time_Now : S -> Z;
  time_elapse : Z -> S -> S;
  select_pick_done : S -> bool;
  emit : Event -> S -> S;
  time_Now_emit : forall ev s, time_Now (emit ev s) = time_Now s
}.

(** A closure that assigns to a captured variable of type [A] runs in a
    state that carries this variable next to the rest. *)
#[global] Instance Runtime_captured (A S : Type) `{Runtime S} : Runtime (A * S) := {
  time_Now s := time_Now (snd s);
  time_elapse d s := (fst s, time_elapse d (snd s));
  select_pick_done s := select_pick_done (snd s);
  emit ev s := (fst s, emit ev (snd s));
  time_Now_emit ev s := time_Now_emit ev (snd s)
}.

(** The state of a run: the abstract system state [sys] (clock, file
    system, processes, Redis) and the [trace] of recorded calls. *)
Record World (σ : Type) := mkWorld {
  sys : σ;
  trace : list Event
}.
Arguments mkWorld {σ} sys trace.
Arguments sys {σ} w.
Arguments trace {σ} w.

(** The wall clock of the system in nanoseconds, how the system state
    moves while a goroutine is blocked for a duration, and the scheduler's
    choice between two ready [select] cases. *)
Class Clock (σ : Type) := {
  clock_now : σ -> Z;
  clock_elapse : Z -> σ -> σ;
  sched_pick_done : σ -> bool
}.

Definition record {σ : Type} (ev : Event) (w : World σ) : World σ :=
  mkWorld (sys w) (trace w ++ [ev]).

#[global] Instance Runtime_World (σ : Type) `{Clock σ} : Runtime (World σ) := {
  time_Now w := clock_now (sys w);
  time_elapse d w := mkWorld (clock_elapse d (sys w)) (trace w);
  select_pick_done w := sched_pick_done (sys w);
  emit ev w := record ev w;
  time_Now_emit _ _ := eq_refl
}.

(** ** internal/utils/retry.go *)
Module Retry.

Record RetryOptions := {
  MaxRetries : Z;
  InitialWait : Z;
  MaxWait : Z;
  Multiplier : float64;
  Logger : option EnhancedLogger
}.

(** 2.0 as a binary64 number: mantissa 2^52, exponent -51. *)
Definition float64_two : float64 := S754_finite false 4503599627370496 (-51).

Definition DefaultRetryOptions : RetryOptions :=
  {| MaxRetries := 3;
     InitialWait := 1 * Second;
     MaxWait := 30 * Second;
     Multiplier := float64_two;
     Logger := None |}.

Definition WithLogger (o : RetryOptions) (logger : option EnhancedLogger) : RetryOptions :=
  {| MaxRetries := MaxRetries o; InitialWait := InitialWait o; MaxWait := MaxWait o;
     Multiplier := Multiplier o; Logger := logger |}.

Definition WithMaxRetries (o : RetryOptions) (maxRetries : Z) : RetryOptions :=
  {| MaxRetries := maxRetries; InitialWait := InitialWait o; MaxWait := MaxWait o;
     Multiplier := Multiplier o; Logger := Logger o |}.

(** One executed round of the loop, kept for the statements only: the
    loop index, what [fn] returned, and the duration handed to time.After
    when the round went on to wait. *)
Record Attempt := {
  att_index : Z;
  att_err : option error;
  att_wait : option Z
}.

(** Line 106: [time.Duration(float64(wait) * options.Multiplier)]. *)
Definition scaled_wait (options : RetryOptions) (wait : Z) : Z :=
  int64_of_float64 (float64_mul (float64_of_int wait) (Multiplier options)).

(** Lines 106-109: the next wait. *)
Definition next_wait (options : RetryOptions) (wait : Z) : Z :=
  let wait' := scaled_wait options wait in
  if MaxWait options <? wait' then MaxWait options else wait'.

Section WithState.
Context {S : Type} `{Runtime S}.

(** RetryFunc: [func() error], run in state [S]. *)
Definition RetryFunc : Type := S -> option error * S.

(** options.Logger.X(...) under [if options.Logger != nil]. *)
Definition log_if (options : RetryOptions) (level : LogLevel) (format : string)
    (args : list fmt_arg) (s : S) : S :=
  match Logger options with
  | Some _ => emit (EvLog level format args) s
  | None => s
  end.

(** Lines 103-115: [select] between time.After(wait) and ctx.Done().
    The timer fires [max 0 wait] after the select starts.  [true] means
    the Done case ran. *)
Definition select_wait (ctx : Context) (wait : Z) (s : S) : bool * S :=
  let t := time_Now s in
  let fire := t + Z.max 0 wait in
  match ctx_done_at ctx with
  | None => (false, time_elapse (fire - t) s)
  | Some c =>
      if c <? fire then (true, time_elapse (Z.max 0 (c - t)) s)
      else if (c =? fire) && select_pick_done s then (true, time_elapse (fire - t) s)
      else (false, time_elapse (fire - t) s)
  end.

(** Lines 70-116, the loop body iterated.  [remaining] counts the
    iterations left before [attempt <= options.MaxRetries] becomes
    false; the triple returned is the error, the rounds executed and the
    final state. *)
Fixpoint retry_loop (ctx : Context) (fn : RetryFunc) (options : RetryOptions)
    (remaining : nat) (attempt wait : Z) (err : option error) (s : S)
    : option error * list Attempt * S :=
  match remaining with
  | O => (err, [], s)
  | Datatypes.S remaining' =>
      let '(err, s) := fn s in
      match err with
      | None => (None, [{| att_index := attempt; att_err := None; att_wait := None |}], s)
      | Some e =>
          if attempt =? MaxRetries options then
            let s := log_if options LogLevelError "Max retries reached (%d): %v"
                       [ArgInt (MaxRetries options); ArgErr e] s in
            (Some (fmt_Errorf "max retries reached (%d): %w"
                     [ArgInt (MaxRetries options); ArgErr e]),
             [{| att_index := attempt; att_err := Some e; att_wait := None |}], s)
          else if ctx_Done ctx (time_Now s) then
            let s := log_if options LogLevelError "Context cancelled during retry: %v"
                       [ArgErr (ctx_err ctx)] s in
            (Some (fmt_Errorf "context cancelled during retry: %w" [ArgErr (ctx_err ctx)]),
             [{| att_index := attempt; att_err := Some e; att_wait := None |}], s)
          else
            let s := log_if options LogLevelWarn
                       "Retry attempt %d/%d after error: %v (waiting %v before next attempt)"
                       [ArgInt (attempt + 1); ArgInt (MaxRetries options); ArgErr e; ArgDur wait] s in
            let this := {| att_index := attempt; att_err := Some e; att_wait := Some wait |} in
            let '(cancelled, s) := select_wait ctx wait s in
            if cancelled then
              let s := log_if options LogLevelError "Context cancelled during retry wait: %v"
                         [ArgErr (ctx_err ctx)] s in
              (Some (fmt_Errorf "context cancelled during retry wait: %w" [ArgErr (ctx_err ctx)]),
               [this], s)
            else
              let '(r, rounds, s) :=
                retry_loop ctx fn options remaining' (attempt + 1) (next_wait options wait)
                  (Some e) s in
              (r, this :: rounds, s)
      end
  end.

(** Lines 62-120.  A nil [options] is replaced by the defaults. *)
Definition retry_run (ctx : Context) (fn : RetryFunc) (options : option RetryOptions) (s : S)
    : option error * list Attempt * S :=
  let options := match options with Some o => o | None => DefaultRetryOptions end in
  retry_loop ctx fn options (Z.to_nat (MaxRetries options + 1)) 0 (InitialWait options) None s.

Definition RetryWithContext (ctx : Context) (fn : RetryFunc) (options : option RetryOptions)
    (s : S) : option error * S :=
  let '(r, _, s) := retry_run ctx fn options s in (r, s).

End WithState.

(** The waits of a run, in order. *)
Definition waits_of (rounds : list Attempt) : list Z :=
  omap att_wait rounds.

(** The schedule the loop follows: the first wait is [InitialWait], each
    later one is [next_wait] of its predecessor. *)
Fixpoint backoff_schedule (options : RetryOptions) (wait : Z) (n : nat) : list Z :=
  match n with
  | O => []
  | Datatypes.S n' => wait :: backoff_schedule options (next_wait options wait) n'
  end.

End Retry.

(** ** The rate limiter of package utils *)
Module RateLimiter.

(** *redis.Client: a handle; the server is part of the system state. *)
Record RedisClient := { redis_addr : string }.

(** The four commands allowRedis issues.  Each takes the context and
    returns the command's error ([.Err()]), ZCard its count as well
    ([.Result()]). *)
Class Redis (σ : Type) := {
  redis_ZRemRangeByScore : Context -> string -> string -> string -> σ -> option error * σ;
  redis_ZCard : Context -> string -> σ -> (Z * option error) * σ;
  redis_ZAdd : Context -> string -> float64 -> string -> σ -> option error * σ;
  redis_Expire : Context -> string -> Z -> σ -> option error * σ
}.

Record counter := {
  count : Z;
  timestamp : Z
}.

(** The logger of a limiter is taken to be non-nil, as the one main
    passes to NewRateLimiter. *)
Record RateLimiter := {
  enabled : bool;
  requestsMax : Z;
  timeWindow : Z;
  userLimit : bool;
  redisClient : option RedisClient;
  logger : EnhancedLogger;
  counters : gmap string counter
}.

Definition NewRateLimiter (enabled : bool) (requestsMax timeWindow : Z) (userLimit : bool)
    (redisClient : option RedisClient) (logger : EnhancedLogger) : RateLimiter :=
  {| enabled := enabled;
     requestsMax := requestsMax;
     timeWindow := wrap64 (timeWindow * Second);
     userLimit := userLimit;
     redisClient := redisClient;
     logger := logger;
     counters := ∅ |}.

Definition set_counters (rl : RateLimiter) (m : gmap string counter) : RateLimiter :=
  {| enabled := enabled rl; requestsMax := requestsMax rl; timeWindow := timeWindow rl;
     userLimit := userLimit rl; redisClient := redisClient rl; logger := logger rl;
     counters := m |}.

(** time.Duration.Seconds *)
Definition Duration_Seconds (d : Z) : float64 :=
  let sec := Z.quot d Second in
  let nsec := Z.rem d Second in
  float64_add (float64_of_int sec) (float64_div (float64_of_int nsec) (float64_of_int 1000000000)).

(** time.Time.Sub: the difference, saturated to the range of Duration. *)
Definition Time_Sub (t u : Z) : Z := Z.max minInt64 (Z.min maxInt64 (t - u)).

(** time.Time.Unix: whole seconds since the epoch. *)
Definition Time_Unix (t : Z) : Z := t / Second.

Section WithSystem.
Context {σ : Type} `{Clock σ} `{Redis σ}.

Definition ZRemRangeByScore (ctx : Context) (key min max : string) (w : World σ)
    : option error * World σ :=
  let '(err, s) := redis_ZRemRangeByScore ctx key min max (sys w) in
  (err, record (EvRedis "ZRemRangeByScore" key err) (mkWorld s (trace w))).

Definition ZCard (ctx : Context) (key : string) (w : World σ) : (Z * option error) * World σ :=
  let '((n, err), s) := redis_ZCard ctx key (sys w) in
  ((n, err), record (EvRedis "ZCard" key err) (mkWorld s (trace w))).

Definition ZAdd (ctx : Context) (key : string) (score : float64) (member : string) (w : World σ)
    : option error * World σ :=
  let '(err, s) := redis_ZAdd ctx key score member (sys w) in
  (err, record (EvRedis "ZAdd" key err) (mkWorld s (trace w))).

Definition Expire (ctx : Context) (key : string) (expiration : Z) (w : World σ)
    : option error * World σ :=
  let '(err, s) := redis_Expire ctx key expiration (sys w) in
  (err, record (EvRedis "Expire" key err) (mkWorld s (trace w))).

(** allowRedis, lines 518-554. *)
Definition allowRedis (rl : RateLimiter) (ctx : Context) (identifier : string) (w : World σ)
    : (bool * option error) * World σ :=
  let key := "rate_limit:" +:+ identifier in
  let now := Time_Unix (time_Now w) in
  let windowStart := wrap64 (now - int64_of_float64 (Duration_Seconds (timeWindow rl))) in
  let '(err, w) := ZRemRangeByScore ctx key "0" (Sprintf_d windowStart) w in
  match err with
  | Some e =>
      let w := record (EvLog LogLevelError "Failed to remove old rate limit counts: %v" [ArgErr e]) w in
      ((true, Some e), w)
  | None =>
      let '((count, err), w) := ZCard ctx key w in
      match err with
      | Some e =>
          let w := record (EvLog LogLevelError "Failed to count rate limit requests: %v" [ArgErr e]) w in
          ((true, Some e), w)
      | None =>
          if requestsMax rl <=? count then
            let w := record (EvLog LogLevelWarn "Rate limit exceeded for %s: %d requests in %v"
                               [ArgStr identifier; ArgInt count; ArgDur (timeWindow rl)]) w in
            ((false, None), w)
          else
            let '(err, w) := ZAdd ctx key (float64_of_int now) (Sprintf_d now) w in
            match err with
            | Some e =>
                let w := record (EvLog LogLevelError "Failed to add rate limit request: %v" [ArgErr e]) w in
                ((true, Some e), w)
            | None =>
                let '(err, w) := Expire ctx key (timeWindow rl) w in
                let w := match err with
                         | Some e => record (EvLog LogLevelError
                                       "Failed to set rate limit expiration: %v" [ArgErr e]) w
                         | None => w
                         end in
                ((true, None), w)
            end
      end
  end.

(** allowMemory, lines 557-583.  The mutex makes the body atomic; the
    updated limiter is returned next to the answer. *)
Definition allowMemory (rl : RateLimiter) (identifier : string) (w : World σ)
    : bool * RateLimiter * World σ :=
  let now := time_Now w in
  match counters rl !! identifier with
  | None =>
      (true, set_counters rl (<[identifier := {| count := 1; timestamp := now |}]> (counters rl)), w)
  | Some c =>
      if timeWindow rl <? Time_Sub now (timestamp c) then
        (true, set_counters rl (<[identifier := {| count := 1; timestamp := now |}]> (counters rl)), w)
      else if requestsMax rl <=? count c then
        let w := record (EvLog LogLevelWarn "Rate limit exceeded for %s: %d requests in %v"
                           [ArgStr identifier; ArgInt (count c); ArgDur (timeWindow rl)]) w in
        (false, rl, w)
      else
        let c := {| count := wrap64 (count c + 1); timestamp := timestamp c |} in
        (true, set_counters rl (<[identifier := c]> (counters rl)), w)
  end.

(** Allow, lines 498-515. *)
Definition Allow (rl : RateLimiter) (ctx : Context) (identifier : string) (w : World σ)
    : (bool * option error) * RateLimiter * World σ :=
  if negb (enabled rl) then ((true, None), rl, w)
  else
    let identifier := if negb (userLimit rl) then "global" else identifier in
    match redisClient rl with
    | Some _ =>
        let '(r, w) := allowRedis rl ctx identifier w in (r, rl, w)
    | None =>
        let '(ok, rl, w) := allowMemory rl identifier w in ((ok, None), rl, w)
    end.

End WithSystem.

End RateLimiter.

(** ** internal/downloader/downloader.go *)
Module Downloader.
Import Retry.

(** os.FileInfo and os.DirEntry, as far as the code reads them.  [Info]
    is what entry.Info() returns for this entry. *)
Record FileInfo := {
  Size : Z;
  ModTime : Z
}.

Record DirEntry := {
  Name : string;
  IsDir : bool;
  Info : result FileInfo
}.

(** The operating system as the downloader uses it.  Queries read the
    system state, the other operations also change it.  [os_Getwd] has no
    error: getCookiePath panics on one, and a run is taken to have a
    readable working directory.  [Sscanf_float] is fmt.Sscanf with the
    verb %f, a function of the text alone. *)
Class OS (σ : Type) := {
  os_MkdirAll : string -> σ -> option error * σ;
  os_Stat : string -> σ -> result FileInfo;
  os_Rename : string -> string -> σ -> option error * σ;
  os_Remove : string -> σ -> option error * σ;
  os_RemoveAll : string -> σ -> option error * σ;
  os_Getenv : string -> σ -> string;
  os_Getwd : σ -> string;
  os_ReadDir : string -> σ -> list DirEntry * option error;
  os_Open : string -> σ -> option error;
  file_Readdirnames : string -> Z -> σ -> list string * option error;
  filepath_Glob : string -> σ -> list string * option error;
  exec_CombinedOutput : option Context -> string -> list string -> σ -> (string * option error) * σ;
  Sscanf_float : string -> result float64
}.

(** strings.Contains *)
Fixpoint strings_Contains (s substr : string) : bool :=
  String.prefix substr s ||
  match s with
  | EmptyString => false
  | String _ s' => strings_Contains s' substr
  end.

(** strings.TrimSpace, for the white space of ASCII. *)
Definition is_space (c : Ascii.ascii) : bool :=
  let n := Ascii.nat_of_ascii c in
  ((9 <=? n) && (n <=? 13))%nat || (n =? 32)%nat.

Fixpoint trim_left (s : string) : string :=
  match s with
  | String c s' => if is_space c then trim_left s' else s
  | EmptyString => EmptyString
  end.

Fixpoint trim_right (s : string) : string :=
  match s with
  | EmptyString => EmptyString
  | String c s' =>
      match trim_right s' with
      | EmptyString => if is_space c then EmptyString else String c EmptyString
      | t => String c t
      end
  end.

Definition strings_TrimSpace (s : string) : string := trim_right (trim_left s).

(** filepath.Join: the non-empty elements separated by a slash.  The
    final Clean is not modelled; the elements the code joins are a
    directory and plain file names. *)
Definition filepath_Join (elem : list string) : string :=
  String.concat "/" (filter (fun s => negb (s =? "")%string) elem).

(** The logger of a downloader is taken to be non-nil, and [retryOpts]
    is the record NewVideoDownloader builds (never nil). *)
Record VideoDownloader := {
  downloadDir : string;
  logger : EnhancedLogger;
  retryOpts : RetryOptions;
  dependencyPaths : gmap string string
}.

Record DownloadResult := {
  VideoPath : string;
  VideoWithSubPath : string;
  AudioPath : string;
  SubtitlePath : string;
  HasSubtitle : bool;
  FileSize : Z;
  Duration : Z;
  Error : option error;
  ThumbnailPath : string
}.

(** &DownloadResult{} *)
Definition DownloadResult_zero : DownloadResult :=
  {| VideoPath := ""; VideoWithSubPath := ""; AudioPath := ""; SubtitlePath := "";
     HasSubtitle := false; FileSize := 0; Duration := 0; Error := None; ThumbnailPath := "" |}.

Definition set_VideoPath (r : DownloadResult) (v : string) : DownloadResult :=
  {| VideoPath := v; VideoWithSubPath := VideoWithSubPath r; AudioPath := AudioPath r;
     SubtitlePath := SubtitlePath r; HasSubtitle := HasSubtitle r; FileSize := FileSize r;
     Duration := Duration r; Error := Error r; ThumbnailPath := ThumbnailPath r |}.

Definition set_VideoWithSubPath (r : DownloadResult) (v : string) : DownloadResult :=
  {| VideoPath := VideoPath r; VideoWithSubPath := v; AudioPath := AudioPath r;
     SubtitlePath := SubtitlePath r; HasSubtitle := HasSubtitle r; FileSize := FileSize r;
     Duration := Duration r; Error := Error r; ThumbnailPath := ThumbnailPath r |}.

Definition set_AudioPath (r : DownloadResult) (v : string) : DownloadResult :=
  {| VideoPath := VideoPath r; VideoWithSubPath := VideoWithSubPath r; AudioPath := v;
     SubtitlePath := SubtitlePath r; HasSubtitle := HasSubtitle r; FileSize := FileSize r;
     Duration := Duration r; Error := Error r; ThumbnailPath := ThumbnailPath r |}.

Definition set_Subtitle (r : DownloadResult) (v : string) : DownloadResult :=
  {| VideoPath := VideoPath r; VideoWithSubPath := VideoWithSubPath r; AudioPath := AudioPath r;
     SubtitlePath := v; HasSubtitle := true; FileSize := FileSize r;
     Duration := Duration r; Error := Error r; ThumbnailPath := ThumbnailPath r |}.

Definition set_FileSize (r : DownloadResult) (v : Z) : DownloadResult :=
  {| VideoPath := VideoPath r; VideoWithSubPath := VideoWithSubPath r; AudioPath := AudioPath r;
     SubtitlePath := SubtitlePath r; HasSubtitle := HasSubtitle r; FileSize := v;
     Duration := Duration r; Error := Error r; ThumbnailPath := ThumbnailPath r |}.

Definition set_Duration (r : DownloadResult) (v : Z) : DownloadResult :=
  {| VideoPath := VideoPath r; VideoWithSubPath := VideoWithSubPath r; AudioPath := AudioPath r;
     SubtitlePath := SubtitlePath r; HasSubtitle := HasSubtitle r; FileSize := FileSize r;
     Duration := v; Error := Error r; ThumbnailPath := ThumbnailPath r |}.

Definition set_ThumbnailPath (r : DownloadResult) (v : string) : DownloadResult :=
  {| VideoPath := VideoPath r; VideoWithSubPath := VideoWithSubPath r; AudioPath := AudioPath r;
     SubtitlePath := SubtitlePath r; HasSubtitle := HasSubtitle r; FileSize := FileSize r;
     Duration := Duration r; Error := Error r; ThumbnailPath := v |}.

(** d.dependencyPaths[name]: the empty string for a missing key. *)
Definition dependencyPath (d : VideoDownloader) (name : string) : string :=
  default "" (dependencyPaths d !! name).

(** The literal of getCookiesArgs.  Go ranges over a map in an order of
    its choosing; the order of the literal is the one used here. *)
Definition domainCookies : list (string * string) :=
  [("tiktok.com", "tiktok"); ("twitter.com", "twitter"); ("x.com", "twitter");
   ("youtube.com", "youtube"); ("instagram.com", "instagramreels");
   ("facebook.com", "facebook"); ("pinterest.com", "pinterest")].

Definition default_user_agent : string :=
  "Mozilla/5.0 (Linux; Android 10; K) AppleWebKit/537.36 (KHTML, like Gecko) Chrome/135.0.0.0 Mobile Safari/537.36".

(** The marks the embedding stage leaves in a trace: the log entry
    written before embedSubtitle is called, and an ffmpeg command that
    burns subtitles in, whose third argument is "-vf" (as built by
    embedSubtitle; no other command of the downloader has it there). *)
Definition embed_args (args : list string) : bool :=
  match args with
  | _ :: _ :: third :: _ => (third =? "-vf")%string
  | _ => false
  end.

Definition is_embed_event (ev : Event) : bool :=
  match ev with
  | EvExec _ args _ => embed_args args
  | EvLog _ format _ => (format =? "Embedding subtitle into video")%string
  | _ => false
  end.

(** The arguments of getCookiesArgs start with the four of the literal,
    so that their third is "--user-agent". *)
Definition cookie_args (args : list string) : Prop :=
  exists a b rest, args = a :: b :: "--user-agent" :: rest.

(** Events among which the embedding stage left no mark, and a trace
    that grew by such events only. *)
Definition quiet (new : list Event) : Prop :=
  Forall (fun ev => is_embed_event ev = false) new.

Definition extends_quietly (t t' : list Event) : Prop :=
  exists new, t' = t ++ new /\ quiet new.

Section WithSystem.
Context {σ : Type} `{Clock σ} `{OS σ}.

(** Computations of the downloader: functions of the world. *)
Definition M (A : Type) : Type := World σ -> A * World σ.

Definition ret {A : Type} (a : A) : M A := fun w => (a, w).

Definition bind {A B : Type} (m : M A) (k : A -> M B) : M B :=
  fun w => let '(a, w) := m w in k a w.

Notation "'do' x <- m ; k" := (bind m (fun x => k))
  (at level 10, x pattern, m at level 100, k at level 200).
Notation "m ;; k" := (bind m (fun _ => k))
  (at level 100, k at level 200, right associativity).

(** d.logger.Info / Warn / Error / Debug *)
Definition logf (level : LogLevel) (format : string) (args : list fmt_arg) : M unit :=
  fun w => (tt, record (EvLog level format args) w).

(** A query of the system state. *)
Definition query {A : Type} (q : σ -> A) : M A := fun w => (q (sys w), w).

(** An operation that changes the system state. *)
Definition perform {A : Type} (op : σ -> A * σ) : M A :=
  fun w => let '(a, s) := op (sys w) in (a, mkWorld s (trace w)).

(** exec.CommandContext(ctx, path, args...).CombinedOutput(), or
    exec.Command for [ctx = None]. *)
Definition CombinedOutput (ctx : option Context) (path : string) (args : list string)
    : M (string * option error) :=
  do (output, err) <- perform (exec_CombinedOutput ctx path args);
  fun w => ((output, err), record (EvExec path args err) w).

Definition RemoveAll (path : string) : M (option error) :=
  do err <- perform (os_RemoveAll path);
  fun w => (err, record (EvRemoveAll path err) w).

(** fileExists, lines 107-110. *)
Definition fileExists (path : string) : M bool :=
  do st <- query (os_Stat path);
  ret (match st with Ok _ => true | Err _ => false end).

(** getCookiePath, lines 40-46. *)
Definition getCookiePath (domain : string) : M string :=
  do cwd <- query os_Getwd;
  ret (filepath_Join [cwd; "app"; "config"; domain +:+ "_cookies.txt"]).

(** The range loop of getCookiesArgs, lines 88-101: the first matching
    domain decides, then the loop breaks. *)
Fixpoint cookies_loop (url : string) (domains : list (string * string)) (args : list string)
    : M (list string) :=
  match domains with
  | [] => ret args
  | (domain, cookieName) :: rest =>
      if strings_Contains url domain then
        do cookiePath <- getCookiePath cookieName;
        logf LogLevelInfo "Matched domain: %s, looking for cookie file: %s"
          [ArgStr domain; ArgStr cookiePath];;
        do st <- query (os_Stat cookiePath);
        match st with
        | Ok _ =>
            logf LogLevelInfo "Cookie file found: %s" [ArgStr cookiePath];;
            ret (args ++ ["--cookies"; cookiePath])
        | Err _ =>
            logf LogLevelWarn "Expected cookie file not found for domain %s: %s"
              [ArgStr domain; ArgStr cookiePath];;
            ret args
        end
      else cookies_loop url rest args
  end.

(** getCookiesArgs, lines 63-104. *)
Definition getCookiesArgs (d : VideoDownloader) (url : string) : M (list string) :=
  do userAgent <- query (os_Getenv "USER_AGENT");
  do userAgent <-
    (if (userAgent =? "")%string then
       logf LogLevelInfo "USER_AGENT env not set, using default mobile UA: %s"
         [ArgStr default_user_agent];;
       ret default_user_agent
     else
       logf LogLevelInfo "Using USER_AGENT from env: %s" [ArgStr userAgent];;
       ret userAgent);
  cookies_loop url domainCookies ["--geo-bypass-country"; "US"; "--user-agent"; userAgent].

(** Lines 264-277 of downloadThumbnail: the largest file that can be
    stat'ed. *)
Fixpoint largest_file (s : σ) (files : list string) (largestThumbnail : string) (largestSize : Z)
    : string :=
  match files with
  | [] => largestThumbnail
  | file :: rest =>
      match os_Stat file s with
      | Err _ => largest_file s rest largestThumbnail largestSize
      | Ok info =>
          if largestSize <? Size info
          then largest_file s rest file (Size info)
          else largest_file s rest largestThumbnail largestSize
      end
  end.

(** Lines 291-295: the other thumbnails are removed, errors ignored. *)
Fixpoint remove_others (files : list string) (largestThumbnail newPath : string) : M unit :=
  match files with
  | [] => ret tt
  | file :: rest =>
      (if negb (file =? largestThumbnail)%string && negb (file =? newPath)%string
       then (do _ <- perform (os_Remove file); ret tt)
       else ret tt);;
      remove_others rest largestThumbnail newPath
  end.

(** downloadThumbnail, lines 231-299. *)
Definition downloadThumbnail (d : VideoDownloader) (ctx : Context) (url downloadPath : string)
    : M (option error) :=
  let ytDlpPath := dependencyPath d "yt-dlp" in
  if (ytDlpPath =? "")%string then ret (Some (errors_New "yt-dlp executable path not found"))
  else
    do args <- getCookiesArgs d url;
    let args := args ++ ["--skip-download"; "--write-thumbnail"; "--convert-thumbnails"; "png";
                         "--write-all-thumbnails"; "-v"; "--print-traffic";
                         "-o"; filepath_Join [downloadPath; "thumbnail"]; url] in
    do (output, err) <- CombinedOutput (Some ctx) ytDlpPath args;
    match err with
    | Some e =>
        logf LogLevelError "Thumbnail download failed: %v, output: %s" [ArgErr e; ArgStr output];;
        ret (Some (fmt_Errorf "thumbnail download failed: %w" [ArgErr e]))
    | None =>
        do (files, err) <- query (filepath_Glob (filepath_Join [downloadPath; "thumbnail*.png"]));
        if negb (is_nil err) || (Z.of_nat (length files) =? 0) then
          ret (Some (fmt_Errorf "no thumbnail found after download" []))
        else
          do largestThumbnail <- query (fun s => largest_file s files "" 0);
          (if negb (largestThumbnail =? "")%string then
             let newPath := filepath_Join [downloadPath; "thumbnail.png"] in
             (if negb (largestThumbnail =? newPath)%string then
                do err <- perform (os_Rename largestThumbnail newPath);
                match err with
                | Some e => logf LogLevelWarn "Failed to rename thumbnail: %v" [ArgErr e]
                | None => ret tt
                end
              else ret tt);;
             remove_others files largestThumbnail newPath
           else ret tt);;
          ret None
    end.

(** extractThumbnail, lines 302-328. *)
Definition extractThumbnail (d : VideoDownloader) (ctx : Context) (videoPath downloadPath : string)
    : M (option error) :=
  let ffmpegPath := dependencyPath d "ffmpeg" in
  if (ffmpegPath =? "")%string then ret (Some (errors_New "ffmpeg executable path not found"))
  else
    let thumbnailPath := filepath_Join [downloadPath; "thumbnail.png"] in
    let args := ["-i"; videoPath; "-ss"; "00:00:01"; "-vframes"; "1"; "-q:v"; "1";
                 "-vf"; "scale=1920:-1"; thumbnailPath] in
    do (output, err) <- CombinedOutput (Some ctx) ffmpegPath args;
    match err with
    | Some e =>
        logf LogLevelError "Thumbnail extraction failed: %v, output: %s" [ArgErr e; ArgStr output];;
        ret (Some (fmt_Errorf "thumbnail extraction failed: %w" [ArgErr e]))
    | None => ret None
    end.

Definition video_format : string := "bv*[vcodec^=avc]+ba/best[ext=mp4][vcodec^=avc]".

(** downloadPrimaryVideo, lines 331-373: the transfer through aria2c and,
    when it fails, one direct transfer. *)
Definition downloadPrimaryVideo (d : VideoDownloader) (ctx : Context) (url downloadPath : string)
    : M (option error) :=
  let ytDlpPath := dependencyPath d "yt-dlp" in
  let aria2cPath := dependencyPath d "aria2c" in
  if (ytDlpPath =? "")%string || (aria2cPath =? "")%string then
    ret (Some (errors_New "yt-dlp or aria2c executable path not found"))
  else
    do args <- getCookiesArgs d url;
    let args := args ++ ["-f"; video_format; "--merge-output-format"; "mp4";
                         "--external-downloader"; aria2cPath;
                         "--external-downloader-args";
                         "-x 16 -s 16 -k 1M --async-dns=false --async-dns-server=8.8.8.8,1.1.1.1";
                         "-o"; filepath_Join [downloadPath; "video_base.mp4"]; url] in
    do (output, err) <- CombinedOutput (Some ctx) ytDlpPath args;
    match err with
    | None => ret None
    | Some e =>
        logf LogLevelWarn "aria2c download failed, trying direct download: %v, output: %s"
          [ArgErr e; ArgStr output];;
        do directArgs <- getCookiesArgs d url;
        let directArgs := directArgs ++ ["-f"; video_format; "--merge-output-format"; "mp4";
                                         "-o"; filepath_Join [downloadPath; "video_base.mp4"]; url] in
        do (directOutput, directErr) <- CombinedOutput (Some ctx) ytDlpPath directArgs;
        match directErr with
        | Some e' =>
            logf LogLevelError "Direct download also failed: %v, output: %s"
              [ArgErr e'; ArgStr directOutput];;
            ret (Some (fmt_Errorf
                         "video download failed with both aria2c and direct methods: %w"
                         [ArgErr e']))
        | None => ret None
        end
    end.

(** listAvailableSubtitles, lines 458-477. *)
Definition listAvailableSubtitles (d : VideoDownloader) (ctx : Context) (url : string)
    : M (string * option error) :=
  let ytDlpPath := dependencyPath d "yt-dlp" in
  if (ytDlpPath =? "")%string then ret ("", Some (errors_New "yt-dlp executable path not found"))
  else
    do (output, err) <- CombinedOutput (Some ctx) ytDlpPath ["--list-subs"; url];
    match err with
    | Some e => ret ("", Some (fmt_Errorf "failed to list subtitles: %w" [ArgErr e]))
    | None => ret (output, None)
    end.

(** Lines 439-444 of downloadSubtitle: the first pattern that exists. *)
Fixpoint first_existing (patterns : list string) : M (option string) :=
  match patterns with
  | [] => ret None
  | pattern :: rest =>
      do found <- fileExists pattern;
      if found then
        logf LogLevelInfo "Successfully found subtitle at %s" [ArgStr pattern];;
        ret (Some pattern)
      else first_existing rest
  end.

(** downloadSubtitle, lines 376-455. *)
Definition downloadSubtitle (d : VideoDownloader) (ctx : Context) (url lang downloadPath : string)
    : M (string * option error) :=
  let ytDlpPath := dependencyPath d "yt-dlp" in
  if (ytDlpPath =? "")%string then ret ("", Some (errors_New "yt-dlp executable path not found"))
  else
    do (availableSubs, err) <- listAvailableSubtitles d ctx url;
    match err with
    | Some e => logf LogLevelWarn "Failed to list available subtitles: %v" [ArgErr e]
    | None => logf LogLevelInfo "Available subtitles: %s" [ArgStr availableSubs]
    end;;
    do args <- getCookiesArgs d url;
    let args := args ++ ["--skip-download"; "--write-subs"; "--write-auto-sub";
                         "--sub-lang"; lang; "--sub-format"; "srt/vtt";
                         "-o"; filepath_Join [downloadPath; "subtitle.%(language)s.%(ext)s"]; url] in
    do (output, err) <- CombinedOutput (Some ctx) ytDlpPath args;
    match err with
    | Some e =>
        logf LogLevelError "Subtitle download failed: %v, output: %s" [ArgErr e; ArgStr output];;
        ret ("", Some (fmt_Errorf "subtitle download failed: %w" [ArgErr e]))
    | None =>
        if strings_Contains output "There are no subtitles"
           || strings_Contains output "Subtitle not available" then
          logf LogLevelInfo "No subtitles available in language %s" [ArgStr lang];;
          ret ("", None)
        else
          let subtitlePatterns :=
            [filepath_Join [downloadPath; "subtitle." +:+ lang +:+ ".srt"];
             filepath_Join [downloadPath; "subtitle." +:+ lang +:+ ".vtt"];
             filepath_Join [downloadPath; "subtitle.srt"];
             filepath_Join [downloadPath; "subtitle.vtt"]] in
          let autoSubPatterns :=
            [filepath_Join [downloadPath; "subtitle." +:+ lang +:+ ".auto.srt"];
             filepath_Join [downloadPath; "subtitle." +:+ lang +:+ ".auto.vtt"]] in
          let allPatterns := subtitlePatterns ++ autoSubPatterns in
          do found <- first_existing allPatterns;
          match found with
          | Some pattern => ret (pattern, None)
          | None =>
              do (files, err) <- query (filepath_Glob (filepath_Join [downloadPath; "subtitle.*"]));
              match err, files with
              | None, file0 :: _ =>
                  logf LogLevelInfo "Found subtitle using glob search: %s" [ArgStr file0];;
                  ret (file0, None)
              | _, _ =>
                  logf LogLevelWarn "Subtitle file not found despite successful download" [];;
                  ret ("", Some (fmt_Errorf "subtitle file not found" []))
              end
          end
    end.

(** embedSubtitle, lines 480-505. *)
Definition embedSubtitle (d : VideoDownloader) (ctx : Context)
    (videoPath subtitlePath downloadPath : string) : M (option error) :=
  let ffmpegPath := dependencyPath d "ffmpeg" in
  if (ffmpegPath =? "")%string then ret (Some (errors_New "ffmpeg executable path not found"))
  else
    let outputPath := filepath_Join [downloadPath; "video_final.mp4"] in
    let args := ["-i"; videoPath; "-vf"; "subtitles=" +:+ subtitlePath; "-c:a"; "copy"; outputPath] in
    do (output, err) <- CombinedOutput (Some ctx) ffmpegPath args;
    match err with
    | Some e =>
        logf LogLevelError "Subtitle embedding failed: %v, output: %s" [ArgErr e; ArgStr output];;
        ret (Some (fmt_Errorf "subtitle embedding failed: %w" [ArgErr e]))
    | None =>
        logf LogLevelInfo "Successfully embedded subtitle into video at %s" [ArgStr outputPath];;
        ret None
    end.

(** extractAudio, lines 508-533. *)
Definition extractAudio (d : VideoDownloader) (ctx : Context) (url downloadPath : string)
    : M (option error) :=
  let ytDlpPath := dependencyPath d "yt-dlp" in
  if (ytDlpPath =? "")%string then ret (Some (errors_New "yt-dlp executable path not found"))
  else
    do args <- getCookiesArgs d url;
    let args := args ++ ["-f"; "ba"; "--extract-audio"; "--audio-format"; "mp3";
                         "-o"; filepath_Join [downloadPath; "audio.%(ext)s"]; url] in
    do (output, err) <- CombinedOutput (Some ctx) ytDlpPath args;
    match err with
    | Some e =>
        logf LogLevelError "Audio extraction failed: %v, output: %s" [ArgErr e; ArgStr output];;
        ret (Some (fmt_Errorf "audio extraction failed: %w" [ArgErr e]))
    | None =>
        logf LogLevelInfo "Successfully extracted audio to %s"
          [ArgStr (filepath_Join [downloadPath; "audio.mp3"])];;
        ret None
    end.

(** getVideoDuration, lines 536-568. *)
Definition getVideoDuration (d : VideoDownloader) (videoPath : string) : M Z :=
  let ffprobePath := dependencyPath d "ffprobe" in
  if (ffprobePath =? "")%string then
    logf LogLevelWarn "ffprobe executable path not found, cannot get video duration." [];;
    ret 0
  else
    let args := ["-v"; "error"; "-show_entries"; "format=duration";
                 "-of"; "default=noprint_wrappers=1:nokey=1"; videoPath] in
    do (output, err) <- CombinedOutput None ffprobePath args;
    match err with
    | Some e =>
        logf LogLevelWarn "Failed to get video duration: %v" [ArgErr e];;
        ret 0
    | None =>
        let durationStr := strings_TrimSpace output in
        match Sscanf_float durationStr with
        | Err e =>
            logf LogLevelWarn "Failed to parse video duration: %v" [ArgErr e];;
            ret 0
        | Ok duration => ret (int64_of_float64 duration)
        end
    end.

(** Lines 131-146 of Download: the thumbnail stage. *)
Definition thumbnail_stage (d : VideoDownloader) (ctx : Context) (url downloadPath : string)
    (result : DownloadResult) : M DownloadResult :=
  logf LogLevelInfo "Downloading high-resolution PNG thumbnail from %s" [ArgStr url];;
  do err <- RetryWithContext ctx (downloadThumbnail d ctx url downloadPath) (Some (retryOpts d));
  match err with
  | Some e =>
      logf LogLevelWarn "Failed to download thumbnail: %v" [ArgErr e];;
      ret result
  | None =>
      let thumbnailPath := filepath_Join [downloadPath; "thumbnail.png"] in
      do found <- fileExists thumbnailPath;
      if found then
        logf LogLevelInfo "Successfully downloaded high-resolution PNG thumbnail to %s"
          [ArgStr thumbnailPath];;
        ret (set_ThumbnailPath result thumbnailPath)
      else ret result
  end.

(** Lines 148-152: the primary video stage, downloadPrimaryVideo under
    RetryWithContext. *)
Definition primary_stage (d : VideoDownloader) (ctx : Context) (url downloadPath : string)
    : M (option error) :=
  logf LogLevelInfo "Downloading primary video from %s" [ArgStr url];;
  RetryWithContext ctx (downloadPrimaryVideo d ctx url downloadPath) (Some (retryOpts d)).

(** Lines 114-156 of Download: the run directory, the thumbnail stage and
    the primary video stage.  [Err] is the early [return nil, err];
    otherwise the run directory and the result built so far go on. *)
Definition Download_critical (d : VideoDownloader) (ctx : Context) (url captionLang : string)
    : M (result (string * DownloadResult)) :=
  do now <- (fun w => (time_Now w, w));
  let downloadID := Sprintf_d now in
  let downloadPath := filepath_Join [downloadDir d; downloadID] in
  do err <- perform (os_MkdirAll downloadPath);
  match err with
  | Some e => ret (Err (fmt_Errorf "failed to create download directory: %w" [ArgErr e]))
  | None =>
      do result <- thumbnail_stage d ctx url downloadPath DownloadResult_zero;
      do err <- primary_stage d ctx url downloadPath;
      match err with
      | Some e =>
          ret (Err (fmt_Errorf "failed to download primary video after %d retries: %w"
                      [ArgInt (MaxRetries (retryOpts d)); ArgErr e]))
      | None => ret (Ok (downloadPath, result))
      end
  end.

(** Lines 167-173: downloadSubtitle under RetryWithContext.  The closure
    assigns the captured [subtitlePath], which starts empty. *)
Definition subtitle_fetch (d : VideoDownloader) (ctx : Context)
    (url captionLang downloadPath : string) : M (option error * string) :=
  logf LogLevelInfo "Downloading subtitle in language %s from %s" [ArgStr captionLang; ArgStr url];;
  fun w =>
    let fn : RetryFunc (S := string * World σ) :=
      fun s =>
        let '((subtitlePath, err), w) := downloadSubtitle d ctx url captionLang downloadPath (snd s) in
        (err, (subtitlePath, w)) in
    let '(err, s) := RetryWithContext ctx fn (Some (retryOpts d)) ("", w) in
    ((err, fst s), snd s).

(** Lines 166-194: the subtitle stage and, after it, the embedding. *)
Definition subtitle_stage (d : VideoDownloader) (ctx : Context)
    (url captionLang downloadPath : string) (result : DownloadResult) : M DownloadResult :=
  do (err, subtitlePath) <- subtitle_fetch d ctx url captionLang downloadPath;
  match err with
  | Some e =>
      logf LogLevelWarn "Failed to download subtitle after %d retries: %v"
        [ArgInt (MaxRetries (retryOpts d)); ArgErr e];;
      ret result
  | None =>
      if negb (subtitlePath =? "")%string then
        let result := set_Subtitle result subtitlePath in
        logf LogLevelInfo "Embedding subtitle into video" [];;
        do err <- RetryWithContext ctx
                    (embedSubtitle d ctx (VideoPath result) subtitlePath downloadPath)
                    (Some (retryOpts d));
        match err with
        | Some e =>
            logf LogLevelWarn "Failed to embed subtitle after %d retries: %v"
              [ArgInt (MaxRetries (retryOpts d)); ArgErr e];;
            ret result
        | None => ret (set_VideoWithSubPath result (filepath_Join [downloadPath; "video_final.mp4"]))
        end
      else ret result
  end.

(** Lines 196-207: the audio stage. *)
Definition audio_stage (d : VideoDownloader) (ctx : Context) (url downloadPath : string)
    (result : DownloadResult) : M DownloadResult :=
  logf LogLevelInfo "Extracting audio from %s" [ArgStr url];;
  do err <- RetryWithContext ctx (extractAudio d ctx url downloadPath) (Some (retryOpts d));
  match err with
  | Some e =>
      logf LogLevelWarn "Failed to extract audio after %d retries: %v"
        [ArgInt (MaxRetries (retryOpts d)); ArgErr e];;
      ret result
  | None => ret (set_AudioPath result (filepath_Join [downloadPath; "audio.mp3"]))
  end.

(** Lines 212-225: the thumbnail taken from the video when none was
    downloaded. *)
Definition thumbnail_fallback (d : VideoDownloader) (ctx : Context) (downloadPath : string)
    (result : DownloadResult) : M DownloadResult :=
  if (ThumbnailPath result =? "")%string && negb (VideoPath result =? "")%string then
    logf LogLevelInfo "Extracting high-resolution PNG thumbnail from video" [];;
    do err <- extractThumbnail d ctx (VideoPath result) downloadPath;
    match err with
    | Some e =>
        logf LogLevelWarn "Failed to extract thumbnail from video: %v" [ArgErr e];;
        ret result
    | None =>
        let thumbnailPath := filepath_Join [downloadPath; "thumbnail.png"] in
        do found <- fileExists thumbnailPath;
        if found then
          logf LogLevelInfo "Successfully extracted high-resolution PNG thumbnail from video to %s"
            [ArgStr thumbnailPath];;
          ret (set_ThumbnailPath result thumbnailPath)
        else ret result
    end
  else ret result.

(** Lines 158-227 of Download: everything after the primary video. *)
Definition Download_artifacts (d : VideoDownloader) (ctx : Context)
    (url captionLang downloadPath : string) (result : DownloadResult) : M DownloadResult :=
  let result := set_VideoPath result (filepath_Join [downloadPath; "video_base.mp4"]) in
  do fileInfo <- query (os_Stat (VideoPath result));
  let result := match fileInfo with
                | Ok info => set_FileSize result (Size info)
                | Err _ => result
                end in
  do result <- subtitle_stage d ctx url captionLang downloadPath result;
  do result <- audio_stage d ctx url downloadPath result;
  do duration <- getVideoDuration d (VideoPath result);
  let result := set_Duration result duration in
  thumbnail_fallback d ctx downloadPath result.

(** Download, lines 113-228: the returned pair, a result that may be nil
    and an error that may be nil. *)
Definition Download (d : VideoDownloader) (ctx : Context) (url captionLang : string)
    : M (option DownloadResult * option error) :=
  do r <- Download_critical d ctx url captionLang;
  match r with
  | Err e => ret (None, Some e)
  | Ok (downloadPath, result) =>
      do result <- Download_artifacts d ctx url captionLang downloadPath result;
      ret (Some result, None)
  end.

(** isDirEmpty, lines 614-626. *)
Definition isDirEmpty (dirPath : string) (s : σ) : bool * option error :=
  match os_Open dirPath s with
  | Some err => (false, Some err)
  | None =>
      let '(_, err) := file_Readdirnames dirPath 1 s in
      match err with
      | Some io_EOF => (true, None)
      | _ => (false, err)
      end
  end.

(** Lines 579-605 of CleanupDownloads: the loop over the entries, with
    the errors collected so far. *)
Fixpoint sweep (d : VideoDownloader) (cutoffTime : Z) (entries : list DirEntry)
    (cleanupErrors : list error) : M (list error) :=
  match entries with
  | [] => ret cleanupErrors
  | entry :: rest =>
      if negb (IsDir entry) then sweep d cutoffTime rest cleanupErrors
      else
        let dirPath := filepath_Join [downloadDir d; Name entry] in
        match Info entry with
        | Err err =>
            sweep d cutoffTime rest
              (cleanupErrors ++ [fmt_Errorf "failed to get info for %s: %w" [ArgStr dirPath; ArgErr err]])
        | Ok dirInfo =>
            if ModTime dirInfo <? cutoffTime then
              do check <- query (isDirEmpty dirPath);
              match check with
              | (true, None) =>
                  do err <- RemoveAll dirPath;
                  match err with
                  | Some e =>
                      logf LogLevelError "Failed to remove old download directory %s: %v"
                        [ArgStr dirPath; ArgErr e];;
                      sweep d cutoffTime rest
                        (cleanupErrors ++ [fmt_Errorf "failed to remove %s: %w" [ArgStr dirPath; ArgErr e]])
                  | None =>
                      logf LogLevelDebug "Removed old download directory %s" [ArgStr dirPath];;
                      sweep d cutoffTime rest cleanupErrors
                  end
              | (_, Some err) =>
                  sweep d cutoffTime rest
                    (cleanupErrors ++ [fmt_Errorf "failed to check if %s is empty: %w"
                                         [ArgStr dirPath; ArgErr err]])
              | (false, None) => sweep d cutoffTime rest cleanupErrors
              end
            else sweep d cutoffTime rest cleanupErrors
        end
  end.

(** CleanupDownloads, lines 570-611.  [maxAge] is a time.Duration, an
    int64: its negation at line 577 wraps at the smallest int64.
    Time.Add moves the instant by that duration without wrapping. *)
Definition CleanupDownloads (d : VideoDownloader) (maxAge : Z) : M (option error) :=
  do (entries, err) <- query (os_ReadDir (downloadDir d));
  match err with
  | Some e => ret (Some (fmt_Errorf "failed to read download directory: %w" [ArgErr e]))
  | None =>
      do now <- (fun w => (time_Now w, w));
      let cutoffTime := now + wrap64 (- maxAge) in
      do cleanupErrors <- sweep d cutoffTime entries [];
      if 0 <? Z.of_nat (length cleanupErrors) then
        ret (Some (fmt_Errorf "encountered %d errors during cleanup: %v"
                     [ArgInt (Z.of_nat (length cleanupErrors)); ArgErr (errors_Join cleanupErrors)]))
      else ret None
  end.

(** A computation during which the embedding stage leaves no mark. *)
Definition quietly {A : Type} (m : M A) : Prop :=
  forall w, extends_quietly (trace w) (trace (snd (m w))).

End WithSystem.

(** NewVideoDownloader, lines 50-61. *)
Definition NewVideoDownloader (downloadDir : string) (logger : EnhancedLogger) (maxRetries : Z)
    (dependencyPaths : gmap string string) : VideoDownloader :=
  {| downloadDir := downloadDir;
     logger := logger;
     retryOpts := WithLogger (WithMaxRetries DefaultRetryOptions maxRetries) (Some logger);
     dependencyPaths := dependencyPaths |}.

(** The paths on which RemoveAll was called, in order. *)
Definition removeall_calls (t : list Event) : list string :=
  omap (fun ev => match ev with EvRemoveAll p _ => Some p | _ => None end) t.

(** The transfers of downloadPrimaryVideo in a trace: the commands that
    pass --merge-output-format, each with whether it went through the
    external downloader and with its error. *)
Definition is_video_transfer (args : list string) : bool :=
  existsb (String.eqb "--merge-output-format") args.

Definition video_transfers (t : list Event) : list (bool * option error) :=
  omap (fun ev => match ev with
                  | EvExec _ args err =>
                      if is_video_transfer args
                      then Some (existsb (String.eqb "--external-downloader") args, err)
                      else None
                  | _ => None
                  end) t.

End Downloader.

(** ** A scripted system

    A small system on which the functions above can be run: a clock, a
    script of outcomes for the external commands in the order in which
    they are started, and tables for the file system and for Redis. *)
Module Sim.
Import Retry RateLimiter Downloader.

Record System := {
  now : Z;
  exec_script : list (string * option error);
  mkdir_err : option error;
  stat : string -> result FileInfo;
  listing : list DirEntry * option error;
  open_err : string -> option error;
  names : string -> list string * option error;
  removeall_err : string -> option error;
  redis_err : string -> option error;
  redis_card : Z
}.

Definition set_now (s : System) (t : Z) : System :=
  {| now := t; exec_script := exec_script s; mkdir_err := mkdir_err s; stat := stat s;
     listing := listing s; open_err := open_err s; names := names s;
     removeall_err := removeall_err s; redis_err := redis_err s; redis_card := redis_card s |}.

Definition set_exec_script (s : System) (l : list (string * option error)) : System :=
  {| now := now s; exec_script := l; mkdir_err := mkdir_err s; stat := stat s;
     listing := listing s; open_err := open_err s; names := names s;
     removeall_err := removeall_err s; redis_err := redis_err s; redis_card := redis_card s |}.

(** The next outcome of the script; a command started after the script
    has run out succeeds with no output. *)
Definition run_command (s : System) : (string * option error) * System :=
  match exec_script s with
  | [] => (("", None), s)
  | r :: rest => (r, set_exec_script s rest)
  end.

#[global] Instance System_Clock : Clock System := {
  clock_now := now;
  clock_elapse d s := set_now s (now s + d);
  sched_pick_done _ := false
}.

#[global] Instance System_OS : OS System := {
  os_MkdirAll _ s := (mkdir_err s, s);
  os_Stat p s := stat s p;
  os_Rename _ _ s := (None, s);
  os_Remove _ s := (None, s);
  os_RemoveAll p s := (removeall_err s p, s);
  os_Getenv _ _ := "";
  os_Getwd _ := "/srv/bot";
  os_ReadDir _ s := listing s;
  os_Open p s := open_err s p;
  file_Readdirnames p _ s := names s p;
  filepath_Glob _ _ := ([], None);
  exec_CombinedOutput _ _ _ s := run_command s;
  Sscanf_float _ := Err (errors_New "unexpected EOF")
}.

#[global] Instance System_Redis : Redis System := {
  redis_ZRemRangeByScore _ _ _ _ s := (redis_err s "ZRemRangeByScore", s);
  redis_ZCard _ _ s := ((redis_card s, redis_err s "ZCard"), s);
  redis_ZAdd _ _ _ _ s := (redis_err s "ZAdd", s);
  redis_Expire _ _ _ s := (redis_err s "Expire", s)
}.

Definition no_file (p : string) : result FileInfo := Err (errors_New "no such file or directory").

(** A quiet machine at time [t]: no files, every operation succeeds. *)
Definition idle (t : Z) : System :=
  {| now := t; exec_script := []; mkdir_err := None; stat := no_file;
     listing := ([], None); open_err := fun _ => None; names := fun _ => ([], Some io_EOF);
     removeall_err := fun _ => None; redis_err := fun _ => None; redis_card := 0 |}.

Definition boot (s : System) : World System := mkWorld s [].

(** An operation that fails every time it is called. *)
Definition always_fails : RetryFunc (S := World System) :=
  fun w => (Some (errors_New "exit status 1"), w).


(** The same machine with a Redis server whose Expire command fails. *)
Definition expire_down (t : Z) : System :=
  {| now := t; exec_script := []; mkdir_err := None; stat := no_file;
     listing := ([], None); open_err := fun _ => None; names := fun _ => ([], Some io_EOF);
     removeall_err := fun _ => None;
     redis_err := fun op => if (op =? "Expire")%string
                            then Some (errors_New "connection refused") else None;
     redis_card := 0 |}.

(** A machine on which the two thumbnail commands of a downloader with
    one retry run, then the transfer through aria2c and the direct
    transfer fail, and every later command succeeds. *)
Definition first_pair_fails (t : Z) : System :=
  set_exec_script (idle t)
    [("", None); ("", None);
     ("", Some (errors_New "exit status 1")); ("", Some (errors_New "exit status 1"))].


(** The download root at instant 3 h: a run directory touched 10 minutes
    ago and one touched 2 hours ago, both holding a video. *)
Definition run_recent : DirEntry :=
  {| Name := "1700000000000000002"; IsDir := true;
     Info := Ok {| Size := 4096; ModTime := 3 * Hour - 10 * Minute |} |}.

Definition run_old : DirEntry :=
  {| Name := "1700000000000000001"; IsDir := true;
     Info := Ok {| Size := 4096; ModTime := 3 * Hour - 2 * Hour |} |}.

Definition full_directories : System :=
  {| now := 3 * Hour; exec_script := []; mkdir_err := None; stat := no_file;
     listing := ([run_old; run_recent], None); open_err := fun _ => None;
     names := fun _ => (["video_base.mp4"], None);
     removeall_err := fun _ => None; redis_err := fun _ => None; redis_card := 0 |}.

(** The same root with both directories empty. *)
Definition empty_directories : System :=
  {| now := 3 * Hour; exec_script := []; mkdir_err := None; stat := no_file;
     listing := ([run_old; run_recent], None); open_err := fun _ => None;
     names := fun _ => ([], Some io_EOF);
     removeall_err := fun _ => None; redis_err := fun _ => None; redis_card := 0 |}.

(** A machine on which the subtitle file of the run started at instant 5
    is found in English. *)
Definition with_subtitle : System :=
  {| now := 5; exec_script := []; mkdir_err := None;
     stat := fun p => if (p =? "/tmp/downloads/5/subtitle.en.srt")%string
                      then Ok {| Size := 2048; ModTime := 5 |} else no_file p;
     listing := ([], None); open_err := fun _ => None; names := fun _ => ([], Some io_EOF);
     removeall_err := fun _ => None; redis_err := fun _ => None; redis_card := 0 |}.

(** A context cancelled at instant [t]. *)
Definition cancelled_at (t : Z) : Context :=
  {| ctx_done_at := Some t; ctx_err := context_Canceled |}.

Definition a_logger : EnhancedLogger := {| logger_id := "bot" |}.

Definition a_downloader (maxRetries : Z) : VideoDownloader :=
  NewVideoDownloader "/tmp/downloads" {| logger_id := "bot" |} maxRetries
    (<["yt-dlp" := "/usr/bin/yt-dlp"]> (<["aria2c" := "/usr/bin/aria2c"]>
    (<["ffmpeg" := "/usr/bin/ffmpeg"]> (<["ffprobe" := "/usr/bin/ffprobe"]> ∅)))).

End Sim.

(** ** More of the sources

    The functions of the same files that the statements above did not
    need: RetryWithContextAndResult, CleanupExpiredCounters, and the URL
    test with which handleText decides to start a download. *)
Module RetryResult.
Import Retry.

Section WithState.
Context {S T : Type} `{Runtime S}.

(** [func() (T, error)], run in state [S]. *)
Definition ResultFunc : Type := S -> (T * option error) * S.

(** Lines 132-178 of RetryWithContextAndResult: the loop of
    RetryWithContext with the value [fn] returned kept next to the
    error. *)
Fixpoint result_loop (ctx : Context) (fn : ResultFunc) (options : RetryOptions)
    (remaining : nat) (attempt wait : Z) (result : T) (err : option error) (s : S)
    : (T * option error) * list Attempt * S :=
  match remaining with
  | O => ((result, err), [], s)
  | Datatypes.S remaining' =>
      let '((result, err), s) := fn s in
      match err with
      | None =>
          ((result, None), [{| att_index := attempt; att_err := None; att_wait := None |}], s)
      | Some e =>
          if attempt =? MaxRetries options then
            let s := log_if options LogLevelError "Max retries reached (%d): %v"
                       [ArgInt (MaxRetries options); ArgErr e] s in
            ((result, Some (fmt_Errorf "max retries reached (%d): %w"
                              [ArgInt (MaxRetries options); ArgErr e])),
             [{| att_index := attempt; att_err := Some e; att_wait := None |}], s)
          else if ctx_Done ctx (time_Now s) then
            let s := log_if options LogLevelError "Context cancelled during retry: %v"
                       [ArgErr (ctx_err ctx)] s in
            ((result, Some (fmt_Errorf "context cancelled during retry: %w" [ArgErr (ctx_err ctx)])),
             [{| att_index := attempt; att_err := Some e; att_wait := None |}], s)
          else
            let s := log_if options LogLevelWarn
                       "Retry attempt %d/%d after error: %v (waiting %v before next attempt)"
                       [ArgInt (attempt + 1); ArgInt (MaxRetries options); ArgErr e; ArgDur wait] s in
            let this := {| att_index := attempt; att_err := Some e; att_wait := Some wait |} in
            let '(cancelled, s) := select_wait ctx wait s in
            if cancelled then
              let s := log_if options LogLevelError "Context cancelled during retry wait: %v"
                         [ArgErr (ctx_err ctx)] s in
              ((result, Some (fmt_Errorf "context cancelled during retry wait: %w"
                                [ArgErr (ctx_err ctx)])),
               [this], s)
            else
              let '(r, rounds, s) :=
                result_loop ctx fn options remaining' (attempt + 1) (next_wait options wait)
                  result (Some e) s in
              (r, this :: rounds, s)
      end
  end.

(** RetryWithContextAndResult, lines 123-182.  [zero] is the zero value
    of [T], with which [var result T] starts. *)
Definition result_run (ctx : Context) (fn : ResultFunc) (options : option RetryOptions)
    (zero : T) (s : S) : (T * option error) * list Attempt * S :=
  let options := match options with Some o => o | None => DefaultRetryOptions end in
  result_loop ctx fn options (Z.to_nat (MaxRetries options + 1)) 0 (InitialWait options)
    zero None s.

Definition RetryWithContextAndResult (ctx : Context) (fn : ResultFunc)
    (options : option RetryOptions) (zero : T) (s : S) : (T * option error) * S :=
  let '(r, _, s) := result_run ctx fn options zero s in (r, s).

(** The operation with its value dropped: the [RetryFunc] that returns
    the error of [fn]. *)
Definition error_of (fn : ResultFunc) : RetryFunc (S := S) :=
  fun s => let '((_, err), s) := fn s in (err, s).

End WithState.

End RetryResult.

Module RateLimiterSweep.
Import RateLimiter.

(** The condition of lines 565 and 592: the window of the counter has
    elapsed at instant [now]. *)
Definition expired (rl : RateLimiter) (now : Z) (c : counter) : bool :=
  timeWindow rl <? Time_Sub now (timestamp c).

(** Every counter holds at least one request and no more than the limit
    allows (one, when the limit is below one). *)
Definition counts_bounded (rl : RateLimiter) : Prop :=
  forall (id : string) (c : counter),
    counters rl !! id = Some c -> 1 <= count c <= Z.max 1 (requestsMax rl).

(** The Redis commands recorded in a trace, with their keys. *)
Definition redis_commands (t : list Event) : list (string * string) :=
  omap (fun ev => match ev with EvRedis op key _ => Some (op, key) | _ => None end) t.

Section WithSystem.
Context {σ : Type} `{Clock σ} `{Redis σ}.

(** CleanupExpiredCounters, lines 586-596.  The range loop deletes the
    entries it visits; every entry present at the start is visited once,
    so the map that remains is the one without the expired counters. *)
Definition CleanupExpiredCounters (rl : RateLimiter) (w : World σ) : RateLimiter :=
  let now := time_Now w in
  set_counters rl (filter (fun kv => expired rl now kv.2 = false) (counters rl)).

(** Calls of Allow for one identifier, one after the other, the k-th of
    them made in the k-th world of the list. *)
Fixpoint Allow_each (rl : RateLimiter) (ctx : Context) (identifier : string)
    (ws : list (World σ)) : list (bool * option error) * RateLimiter :=
  match ws with
  | [] => ([], rl)
  | w :: rest =>
      let '(r, rl, _) := Allow rl ctx identifier w in
      let '(rs, rl) := Allow_each rl ctx identifier rest in
      (r :: rs, rl)
  end.

End WithSystem.

End RateLimiterSweep.

Module Handlers.

(** [text[:n]]: the first [n] bytes, or a run-time panic ([None]) when
    the string is shorter. *)
Fixpoint slice_to (text : string) (n : nat) : option string :=
  match n, text with
  | O, _ => Some EmptyString
  | Datatypes.S n', String c rest =>
      match slice_to rest n' with
      | Some p => Some (String c p)
      | None => None
      end
  | Datatypes.S _, EmptyString => None
  end.

(** isValidURL, command.go lines 1168-1171.  [&&] and [||] evaluate their
    right operand only when the left one does not decide; [None] is a
    panic of one of the two slice expressions. *)
Definition isValidURL (text : string) : option bool :=
  if (8 <? String.length text)%nat then
    match slice_to text 7 with
    | None => None
    | Some p7 =>
        if (p7 =? "http://")%string then Some true
        else match slice_to text 8 with
             | None => None
             | Some p8 => Some (p8 =? "https://")%string
             end
    end
  else Some false.

End Handlers.

(** The events of a trace that are external commands, with their
    errors. *)
Definition exec_results (t : list Event) : list (option error) :=
  omap (fun ev => match ev with EvExec _ _ err => Some err | _ => None end) t.

(** The commands of a trace, by the path of their executable. *)
Definition exec_commands (t : list Event) : list string :=
  omap (fun ev => match ev with EvExec path _ _ => Some path | _ => None end) t.

(** The trace [t'] extends [t] by events whose commands are all among
    [allowed]. *)
Definition runs_only (allowed : list string) (t t' : list Event) : Prop :=
  exists new, t' = t ++ new /\ Forall (fun p => In p allowed) (exec_commands new).

(** A path the sweep of CleanupDownloads may pass to RemoveAll: that of
    a directory entry of the listing whose modification time is known
    and older than the cutoff, and which isDirEmpty has found empty. *)
Definition removable {σ : Type} `{Downloader.OS σ} (d : Downloader.VideoDownloader)
    (cutoffTime : Z) (entries : list Downloader.DirEntry) (path : string) : Prop :=
  exists entry info s,
    In entry entries
    /\ Downloader.IsDir entry = true
    /\ Downloader.Info entry = Ok info
    /\ Downloader.ModTime info < cutoffTime
    /\ path = Downloader.filepath_Join [Downloader.downloadDir d; Downloader.Name entry]
    /\ Downloader.isDirEmpty path s = (true, None).

(** ** The dependency checker of package utils *)
Module Dependencies.
Import Downloader.

(** What the checker asks of the host besides the operations of
    [OS]: the operating system the program was built for
    (runtime.GOOS), os.Setenv, the standard output of a command
    (exec.Command(...).Output()) and exec.LookPath. *)
Class Host (σ : Type) := {
  runtime_GOOS : σ -> string;
  os_Setenv : string -> string -> σ -> σ;
  exec_Output : string -> list string -> σ -> (string * option error) * σ;
  exec_LookPath : string -> σ -> result string
}.

(** The keys of [dependencies] are kept in the order of the literal of
    NewDependencyChecker; Go ranges over the map in an order of its
    choosing. *)
Record DependencyChecker := {
  dependencies : list (string * list string);
  DependencyPaths : gmap string string
}.

(** NewDependencyChecker, lines 21-31. *)
Definition NewDependencyChecker : DependencyChecker :=
  {| dependencies := [("yt-dlp", ["yt-dlp"; "--version"]);
                      ("aria2c", ["aria2c"; "--version"]);
                      ("ffmpeg", ["ffmpeg"; "-version"]);
                      ("ffprobe", ["ffprobe"; "-version"])];
     DependencyPaths := ∅ |}.

(** GetDependencyPaths, lines 68-70. *)
Definition GetDependencyPaths (dc : DependencyChecker) : gmap string string :=
  DependencyPaths dc.

(** strings.Split(path, "\n")[0]: the text before the first line feed. *)
Fixpoint first_line (s : string) : string :=
  match s with
  | EmptyString => EmptyString
  | String c s' => if (Ascii.nat_of_ascii c =? 10)%nat then EmptyString else String c (first_line s')
  end.

Section WithSystem.
Context {σ : Type} `{Clock σ} `{OS σ} `{Host σ}.

Notation "'do' x <- m ; k" := (bind m (fun x => k))
  (at level 10, x pattern, m at level 100, k at level 200).
Notation "m ;; k" := (bind m (fun _ => k))
  (at level 100, k at level 200, right associativity).

(** exec.Command(name, args...).Output() *)
Definition Output (name : string) (args : list string) : M (string * option error) :=
  do (out, err) <- perform (exec_Output name args);
  fun w => ((out, err), record (EvExec name args err) w).

(** isTermux, lines 425-428. *)
Definition isTermux : M bool :=
  do prefix <- query (os_Getenv "PREFIX");
  ret (strings_Contains prefix "com.termux").

(** Lines 82-106 of checkDependency: the path found through which (or
    where), empty when there is none. *)
Definition locate (binary : string) : M string :=
  do goos <- query runtime_GOOS;
  do (out, err) <- Output (if (goos =? "windows")%string then "where" else "which") [binary];
  match err with
  | Some _ => ret ""
  | None =>
      let path := strings_TrimSpace out in
      if negb (path =? "")%string then
        let path := if (goos =? "windows")%string
                    then strings_TrimSpace (first_line path) else path in
        do st <- query (os_Stat path);
        ret (match st with Ok _ => path | Err _ => "" end)
      else ret ""
  end.

(** checkDependency, lines 74-129. *)
Definition checkDependency (args : list string) : M (bool * string * option error) :=
  match args with
  | [] => ret (false, "", Some (errors_New "no command specified"))
  | binary :: version_args =>
      do foundPath <- locate binary;
      do looked <-
        (if (foundPath =? "")%string then query (exec_LookPath binary)
         else ret (Ok foundPath));
      match looked with
      | Err _ =>
          ret (false, "", Some (fmt_Errorf "binary %s not found in PATH" [ArgStr binary]))
      | Ok foundPath =>
          do now <- (fun w => (time_Now w, w));
          let ctx := {| ctx_done_at := Some (now + 5 * Second);
                        ctx_err := context_DeadlineExceeded |} in
          do (output, err) <- CombinedOutput (Some ctx) foundPath version_args;
          match err with
          | Some e =>
              ret (false, "",
                   Some (fmt_Errorf "command failed: %w, output: %s" [ArgErr e; ArgStr output]))
          | None => ret (true, foundPath, None)
          end
      end
  end.

(** Lines 48-57 of CheckDependencies: the loop over the dependencies,
    with the results, the paths and the missing names so far. *)
Fixpoint check_loop (deps : list (string * list string)) (results : gmap string bool)
    (paths : gmap string string) (missing : list string)
    : M (gmap string bool * gmap string string * list string) :=
  match deps with
  | [] => ret (results, paths, missing)
  | (dep, args) :: rest =>
      do (ok, path, err) <- checkDependency args;
      let results := <[dep := ok]> results in
      let paths := if ok then <[dep := path]> paths else paths in
      let missing := if (match err with Some _ => true | None => false end) || negb ok
                     then missing ++ [dep] else missing in
      check_loop rest results paths missing
  end.

(** Lines 39-46: pip's directory is added to PATH under Termux. *)
Definition termux_path : M unit :=
  do goos <- query runtime_GOOS;
  if (goos =? "android")%string then
    do termux <- isTermux;
    if termux then
      do home <- query (os_Getenv "HOME");
      let localBin := home +:+ "/.local/bin" in
      do path <- query (os_Getenv "PATH");
      if negb (strings_Contains path localBin) then
        perform (fun s => (tt, os_Setenv "PATH" (path +:+ ":" +:+ localBin) s))
      else ret tt
    else ret tt
  else ret tt.

(** CheckDependencies, lines 35-64: the results, the error, and the
    checker with the paths it has stored. *)
Definition CheckDependencies (dc : DependencyChecker)
    : M ((gmap string bool * option error) * DependencyChecker) :=
  termux_path;;
  do (results, paths, missing) <- check_loop (dependencies dc) ∅ (DependencyPaths dc) [];
  let dc := {| dependencies := dependencies dc; DependencyPaths := paths |} in
  if (0 <? Z.of_nat (length missing)) then
    ret ((results, Some (fmt_Errorf "missing dependencies: %s"
                           [ArgStr (String.concat ", " missing)])), dc)
  else ret ((results, None), dc).

End WithSystem.

End Dependencies.

(** The Redis commands of a trace with their keys and their errors. *)
Definition redis_calls (t : list Event) : list (string * string * option error) :=
  omap (fun ev => match ev with EvRedis op key err => Some (op, key, err) | _ => None end) t.



(** ** Observing the calls of a retried operation *)
Module RetryObserved.
Import Retry.

(** One invocation of the operation, as the operation itself sees it:
    the clock when it is entered, the error it returns, the clock when
    it returns. *)
Record Call := {
  call_start : Z;
  call_err : option error;
  call_end : Z
}.

Section WithState.
Context {S : Type} `{Runtime S}.

(** The operation [fn] with a call log of its own: a variable that the
    closure captures and appends to on every invocation, and that
    RetryWithContext has no access to. *)
Definition observed (fn : RetryFunc (S := S)) : RetryFunc (S := list Call * S) :=
  fun cs =>
    let '(err, s') := fn (snd cs) in
    (err, (fst cs ++ [{| call_start := time_Now (snd cs); call_err := err;
                         call_end := time_Now s' |}], s')).

End WithState.

(** The time between the return of a call and the start of the next
    one. *)
Fixpoint gaps (calls : list Call) : list Z :=
  match calls with
  | c :: rest =>
      match rest with
      | c' :: _ => (call_start c' - call_end c) :: gaps rest
      | [] => []
      end
  | [] => []
  end.

End RetryObserved.

(** ** More scripted machines and values *)
Module Scenes.
Import Retry RateLimiter Downloader Dependencies.

(** A Linux host on which which finds nothing of its own and every
    binary is found on PATH under /usr/bin. *)
#[global] Instance System_Host : Host Sim.System := {
  runtime_GOOS _ := "linux";
  os_Setenv _ _ s := s;
  exec_Output _ _ s := Sim.run_command s;
  exec_LookPath binary _ := Ok ("/usr/bin/" +:+ binary)
}.

(** A per-user limiter of [requestsMax] requests a minute, in process. *)
Definition a_limiter (requestsMax : Z) : RateLimiter :=
  NewRateLimiter true requestsMax 60 true None Sim.a_logger.

(** The same limiter of one request a minute after a request of alice
    at instant 0. *)
Definition used_up : RateLimiter :=
  set_counters (a_limiter 1) {[ "alice" := {| count := 1; timestamp := 0 |} ]}.

(** A limiter that counts in Redis. *)
Definition a_redis_limiter : RateLimiter :=
  NewRateLimiter true 3 60 true (Some {| redis_addr := "localhost:6379" |}) Sim.a_logger.





(** An operation that takes two seconds to fail. *)
Definition slow_fails : RetryFunc (S := World Sim.System) :=
  fun w => (Some (errors_New "exit status 1"), time_elapse (2 * Second) w).

(** A machine on which the first six commands fail: the two thumbnail
    commands and the two pairs of transfers of a downloader with one
    retry. *)
Definition outage (t : Z) : Sim.System :=
  Sim.set_exec_script (Sim.idle t) (replicate 6 ("", Some (errors_New "exit status 1"))).

(** The download root at instant 3 h: an old run directory that cannot
    be opened, listed before an old empty one and a recent one. *)
Definition run_blocked : DirEntry :=
  {| Name := "1700000000000000000"; IsDir := true;
     Info := Ok {| Size := 4096; ModTime := 3 * Hour - 2 * Hour |} |}.

Definition blocked_directory : Sim.System :=
  {| Sim.now := 3 * Hour; Sim.exec_script := []; Sim.mkdir_err := None; Sim.stat := Sim.no_file;
     Sim.listing := ([run_blocked; Sim.run_old; Sim.run_recent], None);
     Sim.open_err := fun p => if (p =? "/tmp/downloads/1700000000000000000")%string
                              then Some (errors_New "permission denied") else None;
     Sim.names := fun _ => ([], Some io_EOF);
     Sim.removeall_err := fun _ => None; Sim.redis_err := fun _ => None; Sim.redis_card := 0 |}.

(** Instants one second apart after a first request at instant 0. *)
Definition a_burst : list (World Sim.System) :=
  [Sim.boot (Sim.idle (1 * Second)); Sim.boot (Sim.idle (2 * Second));
   Sim.boot (Sim.idle (3 * Second))].

End Scenes.

(** * Properties *)

(** ** The retry executor *)
Section RetryFacts.
Import Retry.
Context {S : Type} `{Runtime S}.
Implicit Types (ctx : Context) (fn : RetryFunc (S := S)) (options : RetryOptions) (s : S).

Lemma retry_loop_done ctx fn options attempt wait err s :
  retry_loop ctx fn options 0 attempt wait err s = (err, [], s).
Proof. reflexivity. Qed.

Lemma retry_loop_step ctx fn options (remaining : nat) attempt wait err s :
  retry_loop ctx fn options (Datatypes.S remaining) attempt wait err s =
  let '(err, s) := fn s in
  match err with
  | None => (None, [{| att_index := attempt; att_err := None; att_wait := None |}], s)
  | Some e =>
      if attempt =? MaxRetries options then
        (Some (fmt_Errorf "max retries reached (%d): %w" [ArgInt (MaxRetries options); ArgErr e]),
         [{| att_index := attempt; att_err := Some e; att_wait := None |}],
         log_if options LogLevelError "Max retries reached (%d): %v"
           [ArgInt (MaxRetries options); ArgErr e] s)
      else if ctx_Done ctx (time_Now s) then
        (Some (fmt_Errorf "context cancelled during retry: %w" [ArgErr (ctx_err ctx)]),
         [{| att_index := attempt; att_err := Some e; att_wait := None |}],
         log_if options LogLevelError "Context cancelled during retry: %v" [ArgErr (ctx_err ctx)] s)
      else
        let '(cancelled, s) :=
          select_wait ctx wait
            (log_if options LogLevelWarn
               "Retry attempt %d/%d after error: %v (waiting %v before next attempt)"
               [ArgInt (attempt + 1); ArgInt (MaxRetries options); ArgErr e; ArgDur wait] s) in
        if cancelled then
          (Some (fmt_Errorf "context cancelled during retry wait: %w" [ArgErr (ctx_err ctx)]),
           [{| att_index := attempt; att_err := Some e; att_wait := Some wait |}],
           log_if options LogLevelError "Context cancelled during retry wait: %v"
             [ArgErr (ctx_err ctx)] s)
        else
          let '(r, rounds, s) :=
            retry_loop ctx fn options remaining (attempt + 1) (next_wait options wait) (Some e) s in
          (r, {| att_index := attempt; att_err := Some e; att_wait := Some wait |} :: rounds, s)
  end.
Proof. reflexivity. Qed.

Lemma log_if_time options level format args s :
  time_Now (log_if options level format args s) = time_Now s.
Proof. unfold log_if. destruct (Logger options); [apply time_Now_emit|reflexivity]. Qed.

Lemma select_wait_background ctx wait s :
  ctx_done_at ctx = None ->
  fst (select_wait ctx wait s) = false.
Proof. intros Hctx. unfold select_wait. now rewrite Hctx. Qed.

(** With a context that is never done and an operation that never
    succeeds, the loop runs all the rounds it has and ends on the
    max-retries error of the last one. *)
Lemma retry_loop_exhausts ctx fn options :
  ctx_done_at ctx = None ->
  (forall s, fst (fn s) <> None) ->
  forall (remaining : nat) attempt wait err s,
    attempt + Z.of_nat remaining = MaxRetries options ->
    exists rounds e s',
      retry_loop ctx fn options (Datatypes.S remaining) attempt wait err s
      = (Some (fmt_Errorf "max retries reached (%d): %w" [ArgInt (MaxRetries options); ArgErr e]),
         rounds, s')
      /\ length rounds = Datatypes.S remaining
      /\ last rounds = Some {| att_index := MaxRetries options; att_err := Some e; att_wait := None |}
      /\ Forall (fun a => att_err a <> None) rounds.
Proof.
  intros Hctx Hfail. induction remaining as [|remaining IH]; intros attempt wait err s Hn.
  - rewrite retry_loop_step. destruct (fn s) as [[e|] s1] eqn:Efn.
    2:{ specialize (Hfail s). rewrite Efn in Hfail. now contradiction Hfail. }
    replace (attempt =? MaxRetries options) with true by (symmetry; apply Z.eqb_eq; lia).
    exists [{| att_index := attempt; att_err := Some e; att_wait := None |}], e.
    eexists. split; [reflexivity|]. split; [reflexivity|]. split.
    + cbn. do 2 f_equal. lia.
    + repeat constructor. discriminate.
  - rewrite retry_loop_step. destruct (fn s) as [[e|] s1] eqn:Efn.
    2:{ specialize (Hfail s). rewrite Efn in Hfail. now contradiction Hfail. }
    replace (attempt =? MaxRetries options) with false by (symmetry; apply Z.eqb_neq; lia).
    unfold ctx_Done. rewrite Hctx.
    pose proof (select_wait_background ctx wait
                  (log_if options LogLevelWarn
                     "Retry attempt %d/%d after error: %v (waiting %v before next attempt)"
                     [ArgInt (attempt + 1); ArgInt (MaxRetries options); ArgErr e; ArgDur wait] s1) Hctx)
      as Hsel.
    destruct (select_wait ctx wait _) as [cancelled s2]. cbn in Hsel. subst cancelled.
    destruct (IH (attempt + 1) (next_wait options wait) (Some e) s2 ltac:(lia))
      as (rounds & e' & s' & -> & Hlen & Hlast & Hall).
    eexists _, e', s'. split; [reflexivity|]. split; [cbn; now rewrite Hlen|]. split.
    + destruct rounds as [|a rounds]; [discriminate Hlen|]. exact Hlast.
    + constructor; [discriminate|assumption].
Qed.


End RetryFacts.

Section RetryClaims.
Import Retry.
Context {S : Type} `{Runtime S}.
Implicit Types (ctx : Context) (fn : RetryFunc (S := S)) (options : RetryOptions) (s : S).

(** C10.  With a negative [MaxRetries] the loop body never runs:
    RetryWithContext returns nil, the operation is not called (no round
    is executed) and the state is left as it was. *)
Theorem retry_negative_budget_returns_nil ctx fn options s :
  MaxRetries options < 0 ->
  retry_run ctx fn (Some options) s = (None, [], s)
  /\ RetryWithContext ctx fn (Some options) s = (None, s).
Proof.
  intros Hneg. unfold RetryWithContext, retry_run.
  replace (Z.to_nat (MaxRetries options + 1)) with 0%nat by lia.
  now rewrite retry_loop_done.
Qed.

End RetryClaims.

Section RetryExamples.
Import Retry.

Example default_backoff_schedule :
  backoff_schedule DefaultRetryOptions (InitialWait DefaultRetryOptions) 6
  = [1 * Second; 2 * Second; 4 * Second; 8 * Second; 16 * Second; 30 * Second].
Proof. vm_compute. reflexivity. Qed.

Example default_run_waits :
  waits_of (snd (fst (retry_run context_Background Sim.always_fails (Some DefaultRetryOptions)
                        (Sim.boot (Sim.idle 0)))))
  = [1 * Second; 2 * Second; 4 * Second]
  /\ time_Now (snd (RetryWithContext context_Background Sim.always_fails
                      (Some DefaultRetryOptions) (Sim.boot (Sim.idle 0)))) = 7 * Second.
Proof. split; vm_compute; reflexivity. Qed.

(** C6 as stated fails when no retry is left: with [MaxRetries = 0] and a
    context cancelled before the call, the failed attempt returns the
    max-retries error. *)
Lemma cancelled_context_with_no_retry_left :
  ctx_Done (Sim.cancelled_at 0) (time_Now (Sim.boot (Sim.idle 5))) = true
  /\ RetryWithContext (Sim.cancelled_at 0) Sim.always_fails
       (Some (WithMaxRetries DefaultRetryOptions 0)) (Sim.boot (Sim.idle 5))
     = (Some (fmt_Errorf "max retries reached (%d): %w"
                [ArgInt 0; ArgErr (errors_New "exit status 1")]),
        Sim.boot (Sim.idle 5)).
Proof. split; vm_compute; reflexivity. Qed.

Lemma retry_negative_budget_returns_nil_witness :
  retry_run context_Background Sim.always_fails (Some (WithMaxRetries DefaultRetryOptions (-1)))
    (Sim.boot (Sim.idle 0))
  = (None, [], Sim.boot (Sim.idle 0))
  /\ RetryWithContext context_Background Sim.always_fails
       (Some (WithMaxRetries DefaultRetryOptions (-1))) (Sim.boot (Sim.idle 0))
     = (None, Sim.boot (Sim.idle 0)).
Proof.
  apply (retry_negative_budget_returns_nil context_Background Sim.always_fails
           (WithMaxRetries DefaultRetryOptions (-1)) (Sim.boot (Sim.idle 0))).
  vm_compute. reflexivity.
Defined.

End RetryExamples.

(** ** Rate admission *)
Section RateLimiterClaims.
Import RateLimiter.
Context {σ : Type} `{Clock σ} `{Redis σ}.

Lemma Time_Sub_within (now t window : Z) :
  now - t <= window -> minInt64 <= window <= maxInt64 -> (window <? Time_Sub now t) = false.
Proof. intros Hd Hw. apply Z.ltb_ge. unfold Time_Sub, minInt64, maxInt64 in *. lia. Qed.

(** One admitted call of allowMemory inside the window: the counter goes
    from [n] to [n + 1]. *)
Lemma allowMemory_counts (rl : RateLimiter) (id : string) (w : World σ) (n t0 : Z) :
  timeWindow rl = 60 * Second ->
  counters rl !! id = Some {| count := n; timestamp := t0 |} ->
  time_Now w - t0 <= 60 * Second ->
  0 <= n < requestsMax rl ->
  requestsMax rl <= maxInt64 ->
  allowMemory rl id w
  = (true, set_counters rl (<[id := {| count := n + 1; timestamp := t0 |}]> (counters rl)), w).
Proof.
  intros Hwin Hc Ht Hn Hmax. unfold allowMemory. rewrite Hc. cbn [timestamp count].
  rewrite Hwin, Time_Sub_within by (try assumption; vm_compute; split; discriminate).
  replace (requestsMax rl <=? n) with false by (symmetry; apply Z.leb_gt; lia).
  do 6 f_equal. unfold wrap64, maxInt64, minInt64 in *. rewrite Z.mod_small; lia.
Qed.

(** C7.  A limiter that is enabled, has no Redis client and allows 3
    requests per 60 seconds, at a moment when no request of the
    identifier is counted in a running window (no counter yet, as in a
    new limiter, or one whose window has elapsed): four calls of Allow
    for one identifier, the last three no later than 60 seconds after the
    first, answer true, true, true, false, each with a nil error. *)
Theorem four_calls_within_window (rl0 : RateLimiter) (ctx : Context) (id : string)
    (w1 w2 w3 w4 : World σ) :
  enabled rl0 = true ->
  redisClient rl0 = None ->
  requestsMax rl0 = 3 ->
  timeWindow rl0 = 60 * Second ->
  match counters rl0 !! (if userLimit rl0 then id else "global") with
  | None => True
  | Some c => 60 * Second < Time_Sub (time_Now w1) (timestamp c)
  end ->
  time_Now w2 - time_Now w1 <= 60 * Second ->
  time_Now w3 - time_Now w1 <= 60 * Second ->
  time_Now w4 - time_Now w1 <= 60 * Second ->
  exists rl1 rl2 rl3 rl4 w1' w2' w3' w4',
    Allow rl0 ctx id w1 = ((true, None), rl1, w1')
    /\ Allow rl1 ctx id w2 = ((true, None), rl2, w2')
    /\ Allow rl2 ctx id w3 = ((true, None), rl3, w3')
    /\ Allow rl3 ctx id w4 = ((false, None), rl4, w4').
Proof.
  intros Hen Hredis Hmax Hwin Hfresh H2 H3 H4.
  set (key := if userLimit rl0 then id else "global") in *.
  set (c1 := {| count := 1; timestamp := time_Now w1 |}).
  set (rl1 := set_counters rl0 (<[key := c1]> (counters rl0))).
  set (c2 := {| count := 1 + 1; timestamp := time_Now w1 |}).
  set (rl2 := set_counters rl1 (<[key := c2]> (counters rl1))).
  set (c3 := {| count := 1 + 1 + 1; timestamp := time_Now w1 |}).
  set (rl3 := set_counters rl2 (<[key := c3]> (counters rl2))).
  assert (Hkey : forall rl, userLimit rl = userLimit rl0 ->
            (if negb (userLimit rl) then "global" else id) = key).
  { intros rl ->. subst key. now destruct (userLimit rl0). }
  exists rl1, rl2, rl3, rl3, w1, w2, w3.
  eexists. repeat split.
  - unfold Allow. rewrite Hen, Hredis, Hkey by reflexivity. cbn [negb].
    unfold allowMemory. destruct (counters rl0 !! key) as [c|]; [|reflexivity].
    rewrite Hwin. now replace (60 * Second <? Time_Sub (time_Now w1) (timestamp c)) with true
      by (symmetry; now apply Z.ltb_lt).
  - unfold Allow. cbn [rl1 set_counters enabled redisClient userLimit].
    rewrite Hen, Hredis, Hkey by reflexivity. cbn [negb].
    rewrite (allowMemory_counts rl1 key w2 1 (time_Now w1)); try reflexivity; try assumption.
    + cbn. apply lookup_insert_eq.
    + cbn. lia.
    + cbn. rewrite Hmax. vm_compute. discriminate.
  - unfold Allow. cbn [rl2 rl1 set_counters enabled redisClient userLimit].
    rewrite Hen, Hredis, Hkey by reflexivity. cbn [negb].
    rewrite (allowMemory_counts rl2 key w3 (1 + 1) (time_Now w1)); try reflexivity; try assumption.
    + cbn. apply lookup_insert_eq.
    + cbn. lia.
    + cbn. rewrite Hmax. vm_compute. discriminate.
  - unfold Allow. cbn [rl3 rl2 rl1 set_counters enabled redisClient userLimit].
    rewrite Hen, Hredis, Hkey by reflexivity. cbn [negb].
    unfold allowMemory. subst rl3. cbn [counters set_counters timeWindow requestsMax].
    rewrite lookup_insert_eq. subst c3. cbn [timestamp count].
    change (timeWindow rl2) with (timeWindow rl0). change (requestsMax rl2) with (requestsMax rl0).
    rewrite Hwin, Time_Sub_within by (try assumption; vm_compute; split; discriminate).
    rewrite Hmax. reflexivity.
Qed.

Lemma trace_record (ev : Event) (w : World σ) : trace (record ev w) = trace w ++ [ev].
Proof. reflexivity. Qed.

(** C8, amended.  In distributed mode, when ZRemRangeByScore, ZCard or
    ZAdd fails during a call, Allow returns true together with that
    error; when Expire fails, Allow returns true with a nil error and the
    failure is written to the log only.  No failed command makes Allow
    return false. *)
Theorem redis_failure_fails_open (rl : RateLimiter) (ctx : Context) (id : string) (w : World σ)
    (client : RedisClient) :
  enabled rl = true ->
  redisClient rl = Some client ->
  exists ok err rl' w' new,
    Allow rl ctx id w = ((ok, err), rl', w')
    /\ trace w' = trace w ++ new
    /\ forall op key e, In (EvRedis op key (Some e)) new ->
         ok = true
         /\ (op <> "Expire" -> err = Some e)
         /\ (op = "Expire" ->
             err = None
             /\ In (EvLog LogLevelError "Failed to set rate limit expiration: %v" [ArgErr e]) new).
Proof.
  intros Hen Hredis. unfold Allow. rewrite Hen, Hredis. cbn [negb].
  set (key := if negb (userLimit rl) then "global" else id). clearbody key.
  unfold allowRedis, ZRemRangeByScore, ZCard, ZAdd, Expire.
  destruct (redis_ZRemRangeByScore ctx _ _ _ (sys w)) as [[e1|] s1].
  { eexists _, _, _, _, _. split; [reflexivity|]. split.
    - cbn. rewrite <- !app_assoc. reflexivity.
    - cbn. intros op k e [Hin|[Hin|[]]]; inversion Hin; subst. repeat split; [|discriminate]. done. }
  cbn [sys trace record].
  destruct (redis_ZCard ctx _ s1) as [[n [e2|]] s2].
  { eexists _, _, _, _, _. split; [reflexivity|]. split.
    - cbn. rewrite <- !app_assoc. reflexivity.
    - cbn. intros op k e [Hin|[Hin|[Hin|[]]]]; inversion Hin; subst.
      repeat split; [|discriminate]. done. }
  cbn [sys trace record].
  destruct (requestsMax rl <=? n).
  { eexists _, _, _, _, _. split; [reflexivity|]. split.
    - cbn. rewrite <- !app_assoc. reflexivity.
    - cbn. intros op k e [Hin|[Hin|[Hin|[]]]]; inversion Hin. }
  destruct (redis_ZAdd ctx _ _ _ s2) as [[e3|] s3].
  { eexists _, _, _, _, _. split; [reflexivity|]. split.
    - cbn. rewrite <- !app_assoc. reflexivity.
    - cbn. intros op k e [Hin|[Hin|[Hin|[Hin|[]]]]]; inversion Hin; subst.
      repeat split; [|discriminate]. done. }
  cbn [sys trace record].
  destruct (redis_Expire ctx _ _ s3) as [[e4|] s4].
  - eexists _, _, _, _, _. split; [reflexivity|]. split.
    + cbn. rewrite <- !app_assoc. reflexivity.
    + cbn. intros op k e [Hin|[Hin|[Hin|[Hin|[Hin|[]]]]]]; inversion Hin; subst.
      repeat split; [congruence|]. tauto.
  - eexists _, _, _, _, _. split; [reflexivity|]. split.
    + cbn. rewrite <- !app_assoc. reflexivity.
    + cbn. intros op k e [Hin|[Hin|[Hin|[Hin|[]]]]]; inversion Hin.
Qed.

End RateLimiterClaims.

Section RateLimiterExamples.
Import RateLimiter.

Lemma four_calls_within_window_witness :
  exists rl1 rl2 rl3 rl4 w1' w2' w3' w4',
    Allow (NewRateLimiter true 3 60 true None Sim.a_logger) context_Background "alice"
      (Sim.boot (Sim.idle 0)) = ((true, None), rl1, w1')
    /\ Allow rl1 context_Background "alice" (Sim.boot (Sim.idle (10 * Second))) = ((true, None), rl2, w2')
    /\ Allow rl2 context_Background "alice" (Sim.boot (Sim.idle (20 * Second))) = ((true, None), rl3, w3')
    /\ Allow rl3 context_Background "alice" (Sim.boot (Sim.idle (60 * Second))) = ((false, None), rl4, w4').
Proof.
  apply (four_calls_within_window (NewRateLimiter true 3 60 true None Sim.a_logger)
           context_Background "alice"
           (Sim.boot (Sim.idle 0)) (Sim.boot (Sim.idle (10 * Second)))
           (Sim.boot (Sim.idle (20 * Second))) (Sim.boot (Sim.idle (60 * Second))));
    try reflexivity; vm_compute; discriminate.
Defined.

(** C8 as stated fails for Expire: the command fails, and Allow returns
    true with a nil error. *)
Lemma expire_failure_is_not_returned :
  exists rl' w',
    Allow (NewRateLimiter true 3 60 true (Some {| redis_addr := "localhost:6379" |}) Sim.a_logger)
      context_Background "alice" (Sim.boot (Sim.expire_down 0))
    = ((true, None), rl', w')
    /\ In (EvRedis "Expire" "rate_limit:alice" (Some (errors_New "connection refused"))) (trace w').
Proof. eexists _, _. split; [vm_compute; reflexivity|]. cbn. tauto. Qed.

Lemma redis_failure_fails_open_witness :
  exists ok err rl' w' new,
    Allow (NewRateLimiter true 3 60 true (Some {| redis_addr := "localhost:6379" |}) Sim.a_logger)
      context_Background "alice" (Sim.boot (Sim.expire_down 0))
    = ((ok, err), rl', w')
    /\ trace w' = trace (Sim.boot (Sim.expire_down 0)) ++ new
    /\ forall op key e, In (EvRedis op key (Some e)) new ->
         ok = true
         /\ (op <> "Expire" -> err = Some e)
         /\ (op = "Expire" ->
             err = None
             /\ In (EvLog LogLevelError "Failed to set rate limit expiration: %v" [ArgErr e]) new).
Proof.
  apply (redis_failure_fails_open
           (NewRateLimiter true 3 60 true (Some {| redis_addr := "localhost:6379" |}) Sim.a_logger)
           context_Background "alice" (Sim.boot (Sim.expire_down 0))
           {| redis_addr := "localhost:6379" |}); reflexivity.
Defined.

End RateLimiterExamples.

(** ** The retention sweep *)
Section SweepFacts.
Import Retry Downloader.
Context {σ : Type} `{Clock σ} `{OS σ}.

Lemma append_cancel (p a b : string) : p +:+ a = p +:+ b -> a = b.
Proof. induction p as [|c p IH]; cbn; [trivial|]. intros Heq. inversion Heq. auto. Qed.

Lemma append_length (a b : string) :
  String.length (a +:+ b) = (String.length a + String.length b)%nat.
Proof. induction a as [|c a IH]; [reflexivity|]. simpl. f_equal. exact IH. Qed.

Lemma filepath_Join_dir (dir name : string) :
  filepath_Join [dir; name] =
  if (dir =? "")%string then name
  else if (name =? "")%string then dir
  else dir +:+ "/" +:+ name.
Proof.
  unfold filepath_Join. cbn.
  destruct dir as [|c dir]; destruct name as [|c' name]; reflexivity.
Qed.

(** Two entries of one directory with different names have different
    paths. *)
Lemma filepath_Join_inj (dir a b : string) :
  filepath_Join [dir; a] = filepath_Join [dir; b] -> a = b.
Proof.
  rewrite !filepath_Join_dir. destruct (String.eqb_spec dir "") as [|Hdir]; [trivial|].
  destruct (String.eqb_spec a "") as [->|Ha], (String.eqb_spec b "") as [->|Hb]; try trivial.
  - intros Heq. apply (f_equal String.length) in Heq. rewrite !append_length in Heq. cbn in Heq. lia.
  - intros Heq. apply (f_equal String.length) in Heq. rewrite !append_length in Heq. cbn in Heq. lia.
  - intros Heq. apply append_cancel in Heq. now inversion Heq.
Qed.

Lemma removeall_calls_app (t u : list Event) :
  removeall_calls (t ++ u) = removeall_calls t ++ removeall_calls u.
Proof. apply omap_app. Qed.

(** A directory that is not older than the cutoff is passed over. *)
Lemma sweep_recent (d : VideoDownloader) (cutoff : Z) (entry : DirEntry) (rest : list DirEntry)
    (info : FileInfo) (errs : list error) (w : World σ) :
  IsDir entry = true -> Info entry = Ok info -> cutoff <= ModTime info ->
  sweep d cutoff (entry :: rest) errs w = sweep d cutoff rest errs w.
Proof.
  intros Hdir Hinfo Hage. cbn [sweep]. rewrite Hdir, Hinfo. cbn [negb].
  now replace (ModTime info <? cutoff) with false by (symmetry; apply Z.ltb_ge; lia).
Qed.

End SweepFacts.

Section SweepExamples.
Import Retry Downloader.

(** C9 as stated fails for a run directory that still holds its files:
    the directory modified 2 hours ago is older than the maximum age of
    one hour, and the sweep removes nothing. *)
Lemma old_directory_with_files_is_kept :
  Sim.listing Sim.full_directories = ([Sim.run_old; Sim.run_recent], None)
  /\ ModTime {| Size := 4096; ModTime := 3 * Hour - 2 * Hour |}
     = Sim.now Sim.full_directories - 2 * Hour
  /\ exists w',
       CleanupDownloads (Sim.a_downloader 3) (1 * Hour) (Sim.boot Sim.full_directories) = (None, w')
       /\ removeall_calls (trace w') = [].
Proof.
  split; [reflexivity|]. split; [reflexivity|].
  eexists. split; vm_compute; reflexivity.
Qed.

End SweepExamples.

(** ** The download pipeline *)
Section DownloadClaims.
Import Retry Downloader.
Context {σ : Type} `{Clock σ} `{OS σ}.
Implicit Types (d : VideoDownloader) (ctx : Context) (w : World σ) (result : DownloadResult).

(** What each stage can do to the result it is given. *)
Lemma thumbnail_stage_cases d ctx (url downloadPath : string) result w :
  fst (thumbnail_stage d ctx url downloadPath result w) = result
  \/ fst (thumbnail_stage d ctx url downloadPath result w)
     = set_ThumbnailPath result (filepath_Join [downloadPath; "thumbnail.png"]).
Proof.
  unfold thumbnail_stage, bind, logf.
  destruct (RetryWithContext _ _ _ _) as [[e|] w1]; [now left|].
  unfold fileExists, bind, query, ret. cbn [fst snd].
  destruct (os_Stat _ _); [now right|now left].
Qed.

Lemma subtitle_stage_cases d ctx (url captionLang downloadPath : string) result w :
  fst (subtitle_stage d ctx url captionLang downloadPath result w) = result
  \/ exists subtitlePath,
       subtitlePath <> ""
       /\ fst (fst (subtitle_fetch d ctx url captionLang downloadPath w)) = None
       /\ (fst (subtitle_stage d ctx url captionLang downloadPath result w)
           = set_Subtitle result subtitlePath
           \/ fst (subtitle_stage d ctx url captionLang downloadPath result w)
              = set_VideoWithSubPath (set_Subtitle result subtitlePath)
                  (filepath_Join [downloadPath; "video_final.mp4"])).
Proof.
  unfold subtitle_stage, bind.
  destruct (subtitle_fetch d ctx url captionLang downloadPath w) as [[[e|] sp] w1]; [now left|].
  destruct (String.eqb_spec sp "") as [->|Hsp]; [now left|]. cbn [negb].
  right. exists sp. split; [exact Hsp|]. split; [reflexivity|].
  unfold logf. destruct (RetryWithContext _ _ _ _) as [[e|] w2]; [now left|now right].
Qed.

Lemma audio_stage_cases d ctx (url downloadPath : string) result w :
  fst (audio_stage d ctx url downloadPath result w) = result
  \/ fst (audio_stage d ctx url downloadPath result w)
     = set_AudioPath result (filepath_Join [downloadPath; "audio.mp3"]).
Proof.
  unfold audio_stage, bind, logf.
  destruct (RetryWithContext _ _ _ _) as [[e|] w1]; [now left|now right].
Qed.

Lemma thumbnail_fallback_cases d ctx (downloadPath : string) result w :
  fst (thumbnail_fallback d ctx downloadPath result w) = result
  \/ fst (thumbnail_fallback d ctx downloadPath result w)
     = set_ThumbnailPath result (filepath_Join [downloadPath; "thumbnail.png"]).
Proof.
  unfold thumbnail_fallback. destruct (_ && _); [|now left].
  unfold bind, logf. destruct (extractThumbnail _ _ _ _ _) as [[e|] w1]; [now left|].
  unfold fileExists, bind, query, ret. cbn [fst snd].
  destruct (os_Stat _ _); [now right|now left].
Qed.

(** Download_artifacts sets the path of the primary video and no later
    stage touches it or the error field. *)
Lemma Download_artifacts_video d ctx (url captionLang downloadPath : string) result w :
  VideoPath (fst (Download_artifacts d ctx url captionLang downloadPath result w))
  = filepath_Join [downloadPath; "video_base.mp4"]
  /\ Error (fst (Download_artifacts d ctx url captionLang downloadPath result w)) = Error result.
Proof.
  unfold Download_artifacts, bind, query. cbn [fst snd].
  set (r1 := match os_Stat _ (sys w) with Ok info => _ | Err _ => _ end).
  assert (H1 : VideoPath r1 = filepath_Join [downloadPath; "video_base.mp4"] /\ Error r1 = Error result).
  { subst r1. destruct (os_Stat _ _); now split. }
  clearbody r1.
  pose proof (subtitle_stage_cases d ctx url captionLang downloadPath r1 w) as H2.
  destruct (subtitle_stage d ctx url captionLang downloadPath r1 w) as [r2 w2]. cbn [fst] in H2.
  assert (H2' : VideoPath r2 = VideoPath r1 /\ Error r2 = Error r1).
  { destruct H2 as [->|(sp & _ & _ & [->| ->])]; now split. }
  pose proof (audio_stage_cases d ctx url downloadPath r2 w2) as H3.
  destruct (audio_stage d ctx url downloadPath r2 w2) as [r3 w3]. cbn [fst] in H3.
  assert (H3' : VideoPath r3 = VideoPath r2 /\ Error r3 = Error r2).
  { destruct H3 as [->| ->]; now split. }
  destruct (getVideoDuration d (VideoPath r3) w3) as [duration w4].
  pose proof (thumbnail_fallback_cases d ctx downloadPath (set_Duration r3 duration) w4) as H4.
  destruct (thumbnail_fallback d ctx downloadPath (set_Duration r3 duration) w4) as [r5 w5].
  cbn [fst] in H4 |- *.
  assert (H4' : VideoPath r5 = VideoPath r3 /\ Error r5 = Error r3).
  { destruct H4 as [->| ->]; now split. }
  destruct H1, H2', H3', H4'. split; congruence.
Qed.



End DownloadClaims.

Section DownloadExamples.
Import Retry Downloader.


(** C3 as stated fails when a retry is left: the transfer through aria2c
    fails, the direct transfer fails, RetryWithContext runs
    downloadPrimaryVideo again, the transfer succeeds and Download
    returns a result. *)
Lemma failed_pair_of_transfers_is_retried :
  exists r w',
    Download (Sim.a_downloader 1) context_Background "https://youtu.be/dQw4w9WgXcQ" "en"
      (Sim.boot (Sim.first_pair_fails 5))
    = ((Some r, None), w')
    /\ VideoPath r = "/tmp/downloads/5/video_base.mp4"
    /\ video_transfers (trace w')
       = [(true, Some (errors_New "exit status 1"));
          (false, Some (errors_New "exit status 1"));
          (true, None)].
Proof. eexists _, _. split; [vm_compute; reflexivity|]. split; vm_compute; reflexivity. Qed.

End DownloadExamples.

(** ** The embedding stage leaves no mark unless it is reached *)
Section QuietTraces.
Import Retry Downloader.

Lemma extends_quietly_refl (t : list Event) : extends_quietly t t.
Proof. exists []. split; [now rewrite app_nil_r|constructor]. Qed.

Lemma extends_quietly_trans (t u v : list Event) :
  extends_quietly t u -> extends_quietly u v -> extends_quietly t v.
Proof.
  intros (n1 & -> & Hq1) (n2 & -> & Hq2). exists (n1 ++ n2).
  split; [now rewrite app_assoc|]. apply Forall_app. now split.
Qed.

Lemma extends_quietly_event (t : list Event) (ev : Event) :
  is_embed_event ev = false -> extends_quietly t (t ++ [ev]).
Proof. intros Hev. exists [ev]. split; [reflexivity|]. now repeat constructor. Qed.

Section Retrying.
Context {S : Type} `{Runtime S} (tr : S -> list Event).
Hypothesis tr_emit : forall ev s, tr (emit ev s) = tr s ++ [ev].
Hypothesis tr_elapse : forall d s, tr (time_elapse d s) = tr s.

Lemma log_if_quiet (options : RetryOptions) (level : LogLevel) (format : string)
    (args : list fmt_arg) (s : S) :
  (format =? "Embedding subtitle into video")%string = false ->
  extends_quietly (tr s) (tr (log_if options level format args s)).
Proof.
  intros Hformat. unfold log_if. destruct (Logger options); [|apply extends_quietly_refl].
  rewrite tr_emit. now apply extends_quietly_event.
Qed.

Lemma select_wait_trace (ctx : Context) (wait : Z) (s : S) :
  tr (snd (select_wait ctx wait s)) = tr s.
Proof.
  unfold select_wait. destruct (ctx_done_at ctx) as [c|]; [|apply tr_elapse].
  destruct (c <? _); [apply tr_elapse|]. destruct (_ && _); apply tr_elapse.
Qed.

(** The loop writes its own log entries and runs the operation: when the
    operation is quiet, so is the loop. *)
Lemma retry_loop_quiet (ctx : Context) (fn : RetryFunc (S := S)) (options : RetryOptions) :
  (forall s, extends_quietly (tr s) (tr (snd (fn s)))) ->
  forall (remaining : nat) attempt wait err s,
    extends_quietly (tr s) (tr (snd (retry_loop ctx fn options remaining attempt wait err s))).
Proof.
  intros Hfn. induction remaining as [|remaining IH]; intros attempt wait err s.
  - apply extends_quietly_refl.
  - rewrite retry_loop_step. specialize (Hfn s). destruct (fn s) as [[e|] s1]; cbn [snd] in *.
    2:{ exact Hfn. }
    eapply extends_quietly_trans; [exact Hfn|].
    destruct (attempt =? MaxRetries options); [now apply log_if_quiet|].
    destruct (ctx_Done ctx (time_Now s1)); [now apply log_if_quiet|].
    pose proof (select_wait_trace ctx wait
                  (log_if options LogLevelWarn
                     "Retry attempt %d/%d after error: %v (waiting %v before next attempt)"
                     [ArgInt (attempt + 1); ArgInt (MaxRetries options); ArgErr e; ArgDur wait] s1))
      as Hsel.
    destruct (select_wait ctx wait _) as [cancelled s2]. cbn [snd] in Hsel.
    eapply extends_quietly_trans.
    { exact (log_if_quiet options LogLevelWarn
               "Retry attempt %d/%d after error: %v (waiting %v before next attempt)"
               [ArgInt (attempt + 1); ArgInt (MaxRetries options); ArgErr e; ArgDur wait] s1
               eq_refl). }
    rewrite <- Hsel. destruct cancelled.
    + now apply log_if_quiet.
    + specialize (IH (attempt + 1) (next_wait options wait) (Some e) s2).
      destruct (retry_loop ctx fn options remaining _ _ _ s2) as [[r rounds] s3]. exact IH.
Qed.

Lemma RetryWithContext_quiet (ctx : Context) (fn : RetryFunc (S := S))
    (options : option RetryOptions) (s : S) :
  (forall s, extends_quietly (tr s) (tr (snd (fn s)))) ->
  extends_quietly (tr s) (tr (snd (RetryWithContext ctx fn options s))).
Proof.
  intros Hfn. unfold RetryWithContext, retry_run.
  set (o := match options with Some o => o | None => DefaultRetryOptions end).
  pose proof (retry_loop_quiet ctx fn o Hfn (Z.to_nat (MaxRetries o + 1)) 0 (InitialWait o) None s)
    as Hloop.
  destruct (retry_loop ctx fn o _ 0 _ None s) as [[r rounds] s']. exact Hloop.
Qed.

End Retrying.

End QuietTraces.

Section QuietStages.
Import Retry Downloader.
Context {σ : Type} `{Clock σ} `{OS σ}.
Implicit Types (d : VideoDownloader) (ctx : Context) (w : World σ) (result : DownloadResult).

Local Abbreviation M := (Downloader.M (σ := σ)).
Local Abbreviation quietly := (Downloader.quietly (σ := σ)).

Lemma quietly_ret {A : Type} (a : A) : quietly (ret a).
Proof. intros w. apply extends_quietly_refl. Qed.

Lemma quietly_bind {A B : Type} (m : M A) (k : A -> M B) :
  quietly m -> (forall a, quietly (k a)) -> quietly (bind m k).
Proof.
  intros Hm Hk w. unfold bind. specialize (Hm w). destruct (m w) as [a w1].
  eapply extends_quietly_trans; [exact Hm|apply Hk].
Qed.

(** The same, when the continuation is only quiet for the values the
    first computation can return. *)
Lemma quietly_bind_post {A B : Type} (P : A -> Prop) (m : M A) (k : A -> M B) :
  (forall w, P (fst (m w))) -> quietly m -> (forall a, P a -> quietly (k a)) -> quietly (bind m k).
Proof.
  intros HP Hm Hk w. unfold bind. specialize (Hm w). specialize (HP w). destruct (m w) as [a w1].
  eapply extends_quietly_trans; [exact Hm|now apply Hk].
Qed.

Lemma quietly_logf (level : LogLevel) (format : string) (args : list fmt_arg) :
  (format =? "Embedding subtitle into video")%string = false -> quietly (logf level format args).
Proof. intros Hformat w. now apply extends_quietly_event. Qed.

Lemma quietly_query {A : Type} (q : σ -> A) : quietly (query q).
Proof. intros w. apply extends_quietly_refl. Qed.

Lemma quietly_perform {A : Type} (op : σ -> A * σ) : quietly (perform op).
Proof. intros w. unfold perform. destruct (op (sys w)). apply extends_quietly_refl. Qed.

Lemma quietly_time : quietly (fun w => (time_Now w, w)).
Proof. intros w. apply extends_quietly_refl. Qed.

Lemma quietly_CombinedOutput (c : option Context) (path : string) (args : list string) :
  embed_args args = false -> quietly (CombinedOutput c path args).
Proof.
  intros Hargs w. unfold CombinedOutput, bind, perform.
  destruct (exec_CombinedOutput c path args (sys w)) as [[output err] s1].
  now apply extends_quietly_event.
Qed.

Lemma quietly_RetryWithContext ctx (fn : M (option error)) (options : option RetryOptions) :
  quietly fn -> quietly (RetryWithContext ctx fn options).
Proof.
  intros Hfn w. apply (RetryWithContext_quiet (S := World σ) trace); try reflexivity. exact Hfn.
Qed.

(** Goals about [quietly] are taken apart along the structure of the
    computation. *)
Ltac quiet_basic :=
  match goal with
  | |- Downloader.quietly (bind _ _) => apply quietly_bind; [|intros ?]
  | |- Downloader.quietly (ret _) => apply quietly_ret
  | |- Downloader.quietly (logf _ _ _) => apply quietly_logf; reflexivity
  | |- Downloader.quietly (query _) => apply quietly_query
  | |- Downloader.quietly (perform _) => apply quietly_perform
  | |- Downloader.quietly (CombinedOutput _ _ _) => apply quietly_CombinedOutput; reflexivity
  | |- Downloader.quietly (RetryWithContext _ _ _) => apply quietly_RetryWithContext
  | |- Downloader.quietly (match ?x with _ => _ end) => destruct x
  end.

Lemma quietly_fileExists (path : string) : quietly (fileExists path).
Proof. unfold fileExists. repeat quiet_basic. Qed.

Lemma cookies_loop_quiet (url : string) (domains : list (string * string)) (args : list string) :
  quietly (cookies_loop url domains args).
Proof.
  induction domains as [|[domain cookieName] rest IH]; cbn [cookies_loop]; [apply quietly_ret|].
  destruct (strings_Contains url domain); [|exact IH]. unfold getCookiePath. repeat quiet_basic.
Qed.

Lemma cookies_loop_args (url : string) (domains : list (string * string)) (args : list string) w :
  cookie_args args -> cookie_args (fst (cookies_loop url domains args w)).
Proof.
  intros (a & b & rest0 & ->). revert w.
  induction domains as [|[domain cookieName] rest IH]; intros w; cbn [cookies_loop].
  - now exists a, b, rest0.
  - destruct (strings_Contains url domain); [|apply IH].
    unfold getCookiePath, bind, query, logf, ret. cbn [fst snd].
    destruct (os_Stat _ _); cbn [fst]; eexists a, b, _; cbn; reflexivity.
Qed.

Lemma getCookiesArgs_quiet d (url : string) : quietly (getCookiesArgs d url).
Proof.
  unfold getCookiesArgs. repeat quiet_basic; apply cookies_loop_quiet.
Qed.

Lemma getCookiesArgs_args d (url : string) w : cookie_args (fst (getCookiesArgs d url w)).
Proof.
  unfold getCookiesArgs, bind, query. cbn [fst snd].
  destruct (_ =? _)%string; unfold bind, logf, ret; cbn [fst snd];
    apply cookies_loop_args; eexists _, _, _; reflexivity.
Qed.

(** A stage that starts with getCookiesArgs and appends its own
    arguments. *)
Ltac with_cookies :=
  apply (quietly_bind_post cookie_args);
  [ intros ?; apply getCookiesArgs_args
  | apply getCookiesArgs_quiet
  | intros ? (? & ? & ? & ->) ].

Ltac quiet_step :=
  match goal with
  | |- Downloader.quietly (bind (getCookiesArgs _ _) _) => with_cookies
  | |- Downloader.quietly (getCookiesArgs _ _) => apply getCookiesArgs_quiet
  | |- Downloader.quietly (fileExists _) => apply quietly_fileExists
  | _ => quiet_basic
  end.

Ltac quiet := repeat quiet_step.

Lemma remove_others_quiet (files : list string) (largestThumbnail newPath : string) :
  quietly (remove_others files largestThumbnail newPath).
Proof.
  induction files as [|file rest IH]; cbn [remove_others]; [apply quietly_ret|].
  apply quietly_bind; [|intros _; exact IH]. quiet.
Qed.

Lemma downloadThumbnail_quiet d ctx (url downloadPath : string) :
  quietly (downloadThumbnail d ctx url downloadPath).
Proof.
  unfold downloadThumbnail. destruct (_ =? _)%string; [apply quietly_ret|].
  quiet; apply remove_others_quiet.
Qed.

Lemma extractThumbnail_quiet d ctx (videoPath downloadPath : string) :
  quietly (extractThumbnail d ctx videoPath downloadPath).
Proof. unfold extractThumbnail. quiet. Qed.

Lemma downloadPrimaryVideo_quiet d ctx (url downloadPath : string) :
  quietly (downloadPrimaryVideo d ctx url downloadPath).
Proof.
  unfold downloadPrimaryVideo. destruct (_ || _); [apply quietly_ret|]. quiet.
Qed.

Lemma first_existing_quiet (patterns : list string) : quietly (first_existing patterns).
Proof.
  induction patterns as [|pattern rest IH]; cbn [first_existing]; [apply quietly_ret|].
  apply quietly_bind; [apply quietly_fileExists|]. intros [|]; [quiet|exact IH].
Qed.

Lemma downloadSubtitle_quiet d ctx (url lang downloadPath : string) :
  quietly (downloadSubtitle d ctx url lang downloadPath).
Proof.
  unfold downloadSubtitle. destruct (_ =? _)%string; [apply quietly_ret|].
  apply quietly_bind; [unfold listAvailableSubtitles; quiet|]. intros [availableSubs err].
  quiet; apply first_existing_quiet.
Qed.

Lemma extractAudio_quiet d ctx (url downloadPath : string) :
  quietly (extractAudio d ctx url downloadPath).
Proof.
  unfold extractAudio. destruct (_ =? _)%string; [apply quietly_ret|]. quiet.
Qed.

Lemma getVideoDuration_quiet d (videoPath : string) : quietly (getVideoDuration d videoPath).
Proof. unfold getVideoDuration. quiet. Qed.

Lemma thumbnail_stage_quiet d ctx (url downloadPath : string) result :
  quietly (thumbnail_stage d ctx url downloadPath result).
Proof.
  unfold thumbnail_stage. apply quietly_bind; [quiet|]. intros _.
  apply quietly_bind; [apply quietly_RetryWithContext, downloadThumbnail_quiet|].
  intros [e|]; [quiet|]. apply quietly_bind; [apply quietly_fileExists|]. intros [|]; quiet.
Qed.

Lemma primary_stage_quiet d ctx (url downloadPath : string) :
  quietly (primary_stage d ctx url downloadPath).
Proof.
  unfold primary_stage. apply quietly_bind; [quiet|]. intros _.
  apply quietly_RetryWithContext, downloadPrimaryVideo_quiet.
Qed.

Lemma Download_critical_quiet d ctx (url captionLang : string) :
  quietly (Download_critical d ctx url captionLang).
Proof.
  unfold Download_critical. apply quietly_bind; [apply quietly_time|]. intros now.
  apply quietly_bind; [apply quietly_perform|]. intros [e|]; [apply quietly_ret|].
  apply quietly_bind; [apply thumbnail_stage_quiet|]. intros result.
  apply quietly_bind; [apply primary_stage_quiet|]. intros [e|]; apply quietly_ret.
Qed.

Lemma subtitle_fetch_quiet d ctx (url captionLang downloadPath : string) :
  quietly (subtitle_fetch d ctx url captionLang downloadPath).
Proof.
  unfold subtitle_fetch. apply quietly_bind; [quiet|]. intros _ w.
  pose proof (RetryWithContext_quiet (S := string * World σ) (fun s => trace (snd s))
                (fun _ _ => eq_refl) (fun _ _ => eq_refl) ctx
                (fun s =>
                   let '((subtitlePath, err), w) :=
                     downloadSubtitle d ctx url captionLang downloadPath (snd s) in
                   (err, (subtitlePath, w)))
                (Some (retryOpts d)) ("", w)) as Hretry.
  cbn [snd] in Hretry.
  destruct (RetryWithContext _ _ _ _) as [err s]. cbn [snd] in *. apply Hretry.
  intros s0. pose proof (downloadSubtitle_quiet d ctx url captionLang downloadPath (snd s0)) as Hsub.
  destruct (downloadSubtitle d ctx url captionLang downloadPath (snd s0)) as [[sp e] w1].
  exact Hsub.
Qed.

Lemma audio_stage_quiet d ctx (url downloadPath : string) result :
  quietly (audio_stage d ctx url downloadPath result).
Proof.
  unfold audio_stage. apply quietly_bind; [quiet|]. intros _.
  apply quietly_bind; [apply quietly_RetryWithContext, extractAudio_quiet|].
  intros [e|]; quiet.
Qed.

Lemma thumbnail_fallback_quiet d ctx (downloadPath : string) result :
  quietly (thumbnail_fallback d ctx downloadPath result).
Proof.
  unfold thumbnail_fallback. destruct (_ && _); [|apply quietly_ret].
  apply quietly_bind; [quiet|]. intros _.
  apply quietly_bind; [apply extractThumbnail_quiet|].
  intros [e|]; [quiet|]. apply quietly_bind; [apply quietly_fileExists|]. intros [|]; quiet.
Qed.

End QuietStages.

(** ** The transfers of a run that ends without a video *)
Section SuccessfulCalls.
Import Retry.
Context {S : Type} `{Runtime S} (tr : S -> list Event).
Hypothesis tr_emit : forall ev s, tr (emit ev s) = tr s ++ [ev].
Hypothesis tr_elapse : forall d s, tr (time_elapse d s) = tr s.

Lemma log_if_grows (options : RetryOptions) (level : LogLevel) (format : string)
    (args : list fmt_arg) (s : S) :
  tr s `prefix_of` tr (log_if options level format args s).
Proof.
  unfold log_if. destruct (Logger options); [|reflexivity]. rewrite tr_emit. now apply prefix_app_r.
Qed.

(** The loop only adds to the trace, when the operation does; and when
    it returns nil although an error was at hand or a round was still
    to run, one of its calls of the operation returned nil. *)
Lemma retry_loop_nil (ctx : Context) (fn : RetryFunc (S := S)) (options : RetryOptions) :
  (forall s, tr s `prefix_of` tr (snd (fn s))) ->
  forall (remaining : nat) attempt wait err s,
    tr s `prefix_of` tr (snd (retry_loop ctx fn options remaining attempt wait err s))
    /\ (fst (fst (retry_loop ctx fn options remaining attempt wait err s)) = None ->
        (err <> None \/ (0 < remaining)%nat) ->
        exists s0,
          fst (fn s0) = None
          /\ tr s `prefix_of` tr s0
          /\ tr (snd (fn s0))
             `prefix_of` tr (snd (retry_loop ctx fn options remaining attempt wait err s))).
Proof.
  intros Hfn. induction remaining as [|remaining IH]; intros attempt wait err s.
  - cbn. split; [reflexivity|]. intros -> [Herr|Hpos]; [now contradiction Herr|lia].
  - rewrite retry_loop_step. pose proof (Hfn s) as Hcall.
    destruct (fn s) as [[e|] s1] eqn:Efn; cbn [fst snd] in *.
    2:{ split; [exact Hcall|]. intros _ _. exists s. rewrite Efn. cbn [fst snd].
        split; [reflexivity|]. split; reflexivity. }
    destruct (attempt =? MaxRetries options).
    { cbn [fst snd]. split; [|discriminate]. etrans; [exact Hcall|apply log_if_grows]. }
    destruct (ctx_Done ctx (time_Now s1)).
    { cbn [fst snd]. split; [|discriminate]. etrans; [exact Hcall|apply log_if_grows]. }
    pose proof (select_wait_trace tr tr_elapse ctx wait
                  (log_if options LogLevelWarn
                     "Retry attempt %d/%d after error: %v (waiting %v before next attempt)"
                     [ArgInt (attempt + 1); ArgInt (MaxRetries options); ArgErr e; ArgDur wait] s1))
      as Hsel.
    assert (Hlog : tr s `prefix_of` tr (log_if options LogLevelWarn
                     "Retry attempt %d/%d after error: %v (waiting %v before next attempt)"
                     [ArgInt (attempt + 1); ArgInt (MaxRetries options); ArgErr e; ArgDur wait] s1))
      by (etrans; [exact Hcall|apply log_if_grows]).
    destruct (select_wait ctx wait _) as [cancelled s2]. cbn [snd] in Hsel. rewrite <- Hsel in Hlog.
    destruct cancelled.
    { cbn [fst snd]. split; [|discriminate]. etrans; [exact Hlog|apply log_if_grows]. }
    destruct (IH (attempt + 1) (next_wait options wait) (Some e) s2) as [Hgrow Hnil].
    destruct (retry_loop ctx fn options remaining _ _ _ s2) as [[r rounds] s3].
    cbn [fst snd] in *. split; [etrans; [exact Hlog|exact Hgrow]|].
    intros Hr _. destruct (Hnil Hr ltac:(left; discriminate)) as (s0 & Hs0 & Hpre & Hpost).
    exists s0. split; [exact Hs0|]. split; [etrans; [exact Hlog|exact Hpre]|exact Hpost].
Qed.

Lemma RetryWithContext_nil (ctx : Context) (fn : RetryFunc (S := S)) (options : RetryOptions)
    (s : S) :
  (forall s, tr s `prefix_of` tr (snd (fn s))) ->
  tr s `prefix_of` tr (snd (RetryWithContext ctx fn (Some options) s))
  /\ (0 <= MaxRetries options ->
      fst (RetryWithContext ctx fn (Some options) s) = None ->
      exists s0,
        fst (fn s0) = None
        /\ tr s `prefix_of` tr s0
        /\ tr (snd (fn s0)) `prefix_of` tr (snd (RetryWithContext ctx fn (Some options) s))).
Proof.
  intros Hfn. unfold RetryWithContext, retry_run.
  destruct (retry_loop_nil ctx fn options Hfn (Z.to_nat (MaxRetries options + 1)) 0
              (InitialWait options) None s) as [Hgrow Hnil].
  destruct (retry_loop ctx fn options _ 0 _ None s) as [[r rounds] s'].
  cbn [fst snd] in *. split; [exact Hgrow|].
  intros Hn Hr. apply (Hnil Hr). right. lia.
Qed.

End SuccessfulCalls.

Section TransferTraces.
Import Retry Downloader.
Context {σ : Type} `{Clock σ} `{OS σ}.
Implicit Types (d : VideoDownloader) (ctx : Context) (w : World σ) (result : DownloadResult).

Local Abbreviation M := (Downloader.M (σ := σ)).

Lemma video_transfers_app (t u : list Event) :
  video_transfers (t ++ u) = video_transfers t ++ video_transfers u.
Proof. apply omap_app. Qed.

Lemma video_transfers_exec (path : string) (args extra : list string) (err : option error) :
  is_video_transfer extra = true ->
  video_transfers [EvExec path (args ++ extra) err]
  = [(existsb (String.eqb "--external-downloader") (args ++ extra), err)].
Proof.
  intros Hextra. unfold video_transfers. cbn [omap list_omap].
  unfold is_video_transfer in *. now rewrite existsb_app, Hextra, orb_true_r.
Qed.

Lemma quietly_grows {A : Type} (m : M A) w :
  quietly m -> trace w `prefix_of` trace (snd (m w)).
Proof. intros Hm. destruct (Hm w) as (new & -> & _). now apply prefix_app_r. Qed.

Lemma RetryWithContext_nil_World ctx (fn : M (option error)) (options : RetryOptions) w :
  (forall w0, trace w0 `prefix_of` trace (snd (fn w0))) ->
  trace w `prefix_of` trace (snd (RetryWithContext ctx fn (Some options) w))
  /\ (0 <= MaxRetries options ->
      fst (RetryWithContext ctx fn (Some options) w) = None ->
      exists w0,
        fst (fn w0) = None
        /\ trace w `prefix_of` trace w0
        /\ trace (snd (fn w0)) `prefix_of` trace (snd (RetryWithContext ctx fn (Some options) w))).
Proof.
  intros Hfn. apply (RetryWithContext_nil (S := World σ) trace); try reflexivity. exact Hfn.
Qed.

(** An execution of downloadPrimaryVideo that returns nil has made a
    transfer of the primary video that succeeded. *)
Lemma downloadPrimaryVideo_nil d ctx (url downloadPath : string) w (w' : World σ) :
  downloadPrimaryVideo d ctx url downloadPath w = (None, w') ->
  exists new,
    trace w' = trace w ++ new
    /\ Exists (fun transfer => snd transfer = None) (video_transfers new).
Proof.
  unfold downloadPrimaryVideo. destruct (_ || _); [discriminate|].
  unfold bind at 1. pose proof (quietly_grows (getCookiesArgs d url) w (getCookiesArgs_quiet d url))
    as [new0 Hnew0].
  destruct (getCookiesArgs d url w) as [args w1]. cbn [snd] in Hnew0.
  unfold bind at 1, CombinedOutput at 1, bind at 1, perform at 1.
  destruct (exec_CombinedOutput _ _ _ (sys w1)) as [[output [e|]] s1].
  2:{ unfold ret, record. cbn [trace sys]. intros [= <-]. eexists. cbn [trace].
      rewrite Hnew0, <- app_assoc.
      split; [reflexivity|]. rewrite video_transfers_app. apply Exists_app. right.
      rewrite video_transfers_exec by reflexivity. now constructor. }
  unfold bind at 1, logf at 1. unfold bind at 1.
  match goal with |- context [getCookiesArgs d url ?w0] =>
    pose proof (quietly_grows (getCookiesArgs d url) w0 (getCookiesArgs_quiet d url)) as [new1 Hnew1];
    destruct (getCookiesArgs d url w0) as [directArgs w2]
  end.
  unfold record in Hnew1. cbn [snd trace sys] in Hnew1.
  unfold bind at 1, CombinedOutput at 1, bind at 1, perform at 1.
  destruct (exec_CombinedOutput _ _ _ (sys w2)) as [[directOutput [e'|]] s2].
  { unfold bind, logf, ret. discriminate. }
  unfold ret, record. cbn [trace sys]. intros [= <-]. eexists. cbn [trace].
  rewrite Hnew1, Hnew0, <- !app_assoc.
  split; [reflexivity|]. rewrite !video_transfers_app. apply Exists_app. right.
  apply Exists_app. right. apply Exists_app. right. apply Exists_app. right.
  rewrite video_transfers_exec by reflexivity. now constructor.
Qed.

(** The primary video stage returns nil, with [MaxRetries >= 0], only
    after a transfer that succeeded. *)
Lemma primary_stage_nil d ctx (url downloadPath : string) w :
  0 <= MaxRetries (retryOpts d) ->
  fst (primary_stage d ctx url downloadPath w) = None ->
  exists new,
    trace (snd (primary_stage d ctx url downloadPath w)) = trace w ++ new
    /\ Exists (fun transfer => snd transfer = None) (video_transfers new).
Proof.
  intros Hn. unfold primary_stage, bind, logf.
  set (w0 := record _ w).
  destruct (RetryWithContext_nil_World ctx (downloadPrimaryVideo d ctx url downloadPath)
              (retryOpts d) w0
              (fun s => quietly_grows _ s (downloadPrimaryVideo_quiet d ctx url downloadPath)))
    as [_ Hnil].
  intros Hr. destruct (Hnil Hn Hr) as (s0 & Hs0 & [pre Hpre] & [post Hpost]).
  destruct (downloadPrimaryVideo d ctx url downloadPath s0) as [r0 s1] eqn:Hcall.
  cbn [fst snd] in Hs0, Hpost. subst r0.
  destruct (downloadPrimaryVideo_nil d ctx url downloadPath s0 s1 Hcall) as (new & Hnew & Hex).
  rewrite Hpost, Hnew, Hpre. subst w0. unfold record; cbn [trace sys]. eexists.
  rewrite <- !app_assoc. split; [reflexivity|].
  rewrite !video_transfers_app. apply Exists_app. right. apply Exists_app. right.
  apply Exists_app. now left.
Qed.

Lemma embedSubtitle_grows d ctx (videoPath subtitlePath downloadPath : string) w :
  trace w `prefix_of` trace (snd (embedSubtitle d ctx videoPath subtitlePath downloadPath w)).
Proof.
  unfold embedSubtitle. destruct (_ =? _)%string; [reflexivity|].
  unfold bind, CombinedOutput, bind, perform, logf, ret.
  destruct (exec_CombinedOutput _ _ _ (sys w)) as [[output [e|]] s1]; unfold record; cbn [snd trace sys];
    rewrite <- app_assoc; now apply prefix_app_r.
Qed.

Lemma subtitle_stage_grows d ctx (url captionLang downloadPath : string) result w :
  trace w `prefix_of` trace (snd (subtitle_stage d ctx url captionLang downloadPath result w)).
Proof.
  unfold subtitle_stage. unfold bind at 1.
  pose proof (quietly_grows _ w (subtitle_fetch_quiet d ctx url captionLang downloadPath)) as Hfetch.
  destruct (subtitle_fetch d ctx url captionLang downloadPath w) as [[[e|] sp] w1]; cbn [snd] in Hfetch.
  { unfold bind, logf, ret. unfold record; cbn [snd trace sys]. etrans; [exact Hfetch|now apply prefix_app_r]. }
  destruct (negb _); [|exact Hfetch].
  unfold bind at 1, logf at 1. unfold bind at 1.
  set (w2 := record _ w1).
  destruct (RetryWithContext_nil_World ctx
              (embedSubtitle d ctx (VideoPath (set_Subtitle result sp)) sp downloadPath)
              (retryOpts d) w2
              (fun s => embedSubtitle_grows d ctx _ sp downloadPath s)) as [Hgrow _].
  destruct (RetryWithContext _ _ _ w2) as [[e|] w3]; cbn [snd] in Hgrow.
  - unfold bind, logf, ret. unfold record; cbn [snd trace sys].
    etrans; [exact Hfetch|]. etrans; [|now apply prefix_app_r].
    etrans; [|exact Hgrow]. subst w2. now apply prefix_app_r.
  - unfold ret. cbn [snd]. etrans; [exact Hfetch|]. etrans; [|exact Hgrow].
    subst w2. now apply prefix_app_r.
Qed.

Lemma Download_artifacts_grows d ctx (url captionLang downloadPath : string) result w :
  trace w `prefix_of` trace (snd (Download_artifacts d ctx url captionLang downloadPath result w)).
Proof.
  unfold Download_artifacts. unfold bind at 1, query at 1. unfold bind at 1.
  match goal with |- context [subtitle_stage d ctx url captionLang downloadPath ?r w] =>
    pose proof (subtitle_stage_grows d ctx url captionLang downloadPath r w) as H1;
    destruct (subtitle_stage d ctx url captionLang downloadPath r w) as [r1 w1]
  end.
  cbn [snd] in H1. unfold bind at 1.
  pose proof (quietly_grows _ w1 (audio_stage_quiet d ctx url downloadPath r1)) as H2.
  destruct (audio_stage d ctx url downloadPath r1 w1) as [r2 w2]. cbn [snd] in H2.
  unfold bind at 1.
  pose proof (quietly_grows _ w2 (getVideoDuration_quiet d (VideoPath r2))) as H3.
  destruct (getVideoDuration d (VideoPath r2) w2) as [duration w3]. cbn [snd] in H3.
  pose proof (quietly_grows _ w3 (thumbnail_fallback_quiet d ctx downloadPath (set_Duration r2 duration)))
    as H4.
  etrans; [exact H1|]. etrans; [exact H2|]. etrans; [exact H3|exact H4].
Qed.

(** A run of Download only adds to the trace. *)
Lemma Download_grows d ctx (url captionLang : string) w :
  exists new, trace (snd (Download d ctx url captionLang w)) = trace w ++ new.
Proof.
  unfold Download, bind.
  pose proof (quietly_grows _ w (Download_critical_quiet d ctx url captionLang)) as H1.
  destruct (Download_critical d ctx url captionLang w) as [[[downloadPath result]|e] w1];
    cbn [snd] in H1; [|exact H1].
  pose proof (Download_artifacts_grows d ctx url captionLang downloadPath result w1) as H2.
  destruct (Download_artifacts d ctx url captionLang downloadPath result w1) as [r w2].
  cbn [snd] in *. unfold ret. cbn [snd]. change (trace w `prefix_of` trace w2). etrans; [exact H1|exact H2].
Qed.

(** C3, amended.  With [MaxRetries >= 0], a run of Download in which
    every transfer of the primary video fails, through aria2c and
    direct, in each of the executions of downloadPrimaryVideo that
    RetryWithContext makes, returns an error and a nil result.  The
    transfers are those of the trace of the run: what Download has
    added to the trace it was started with. *)
Theorem Download_fails_when_every_transfer_fails d ctx (url captionLang : string) w
    (new : list Event) :
  0 <= MaxRetries (retryOpts d) ->
  trace (snd (Download d ctx url captionLang w)) = trace w ++ new ->
  Forall (fun transfer => snd transfer <> None) (video_transfers new) ->
  exists e, fst (Download d ctx url captionLang w) = (None, Some e).
Proof.
  intros Hn Hnew Hfail.
  destruct (Download d ctx url captionLang w) as [[r e] w'] eqn:Hrun. cbn [fst snd] in *.
  revert Hrun. unfold Download, Download_critical. unfold bind at 1. unfold bind at 1.
  cbn [fst snd]. unfold bind at 1, perform at 1.
  destruct (os_MkdirAll _ (sys w)) as [[e0|] s1].
  { unfold ret. intros [= <- <- <-]. eexists. reflexivity. }
  unfold bind at 1.
  match goal with |- context [thumbnail_stage d ctx url ?p ?r0 ?w0] =>
    pose proof (quietly_grows _ w0 (thumbnail_stage_quiet d ctx url p r0)) as [n1 Hn1];
    destruct (thumbnail_stage d ctx url p r0 w0) as [result0 w1]
  end.
  cbn [snd trace] in Hn1. unfold bind at 1.
  match goal with |- context [primary_stage d ctx url ?p w1] =>
    pose proof (primary_stage_nil d ctx url p w1 Hn) as Hprim;
    destruct (primary_stage d ctx url p w1) as [[e1|] w2]
  end.
  { unfold ret. intros [= <- <- <-]. eexists. reflexivity. }
  cbn [fst snd] in Hprim. destruct (Hprim eq_refl) as (n2 & Hn2 & Hex).
  unfold ret at 1. cbv beta iota. unfold bind at 1.
  match goal with |- context [Download_artifacts d ctx url captionLang ?p ?r0 w2] =>
    pose proof (Download_artifacts_grows d ctx url captionLang p r0 w2) as [n3 Hn3];
    destruct (Download_artifacts d ctx url captionLang p r0 w2) as [r3 w3]
  end.
  cbn [snd] in Hn3. unfold ret. intros [= <- <- <-]. exfalso.
  rewrite Hn3, Hn2, Hn1, <- !app_assoc in Hnew. apply app_inv_head in Hnew. subst new.
  rewrite !video_transfers_app in Hfail.
  apply Forall_app in Hfail. destruct Hfail as [_ Hfail].
  apply Forall_app in Hfail. destruct Hfail as [Hfail _].
  apply Exists_exists in Hex. destruct Hex as (transfer & Hin & Hnil).
  rewrite Forall_forall in Hfail. exact (Hfail transfer Hin Hnil).
Qed.

End TransferTraces.

Section SubtitleClaims.
Import Retry Downloader.
Context {σ : Type} `{Clock σ} `{OS σ}.
Implicit Types (d : VideoDownloader) (ctx : Context) (w : World σ) (result : DownloadResult).

Lemma Download_critical_result d ctx (url captionLang downloadPath : string) result w :
  fst (Download_critical d ctx url captionLang w) = Ok (downloadPath, result) ->
  HasSubtitle result = false /\ VideoWithSubPath result = "" /\ SubtitlePath result = "".
Proof.
  unfold Download_critical, bind, perform. cbn [fst snd].
  destruct (os_MkdirAll _ (sys w)) as [[e|] s1]; [discriminate|].
  match goal with |- context [thumbnail_stage d ctx url ?p ?r ?w0] =>
    pose proof (thumbnail_stage_cases d ctx url p r w0) as Hcases;
    destruct (thumbnail_stage d ctx url p r w0) as [result0 w0']
  end.
  cbn [fst] in Hcases. destruct (primary_stage _ _ _ _ _) as [[e|] w1]; [discriminate|].
  cbn. intros Heq. inversion Heq; subst. now destruct Hcases as [->| ->].
Qed.

Lemma subtitle_stage_fetch_failure d ctx (url captionLang downloadPath : string) result w :
  fst (fst (subtitle_fetch d ctx url captionLang downloadPath w)) <> None ->
  fst (subtitle_stage d ctx url captionLang downloadPath result w) = result
  /\ extends_quietly (trace w)
       (trace (snd (subtitle_stage d ctx url captionLang downloadPath result w))).
Proof.
  intros Hfetch. unfold subtitle_stage, bind.
  pose proof (subtitle_fetch_quiet d ctx url captionLang downloadPath w) as Hquiet.
  destruct (subtitle_fetch d ctx url captionLang downloadPath w) as [[[e|] sp] w1];
    [|now contradiction Hfetch].
  cbn [fst snd] in *. split; [reflexivity|].
  eapply extends_quietly_trans; [exact Hquiet|]. now apply extends_quietly_event.
Qed.

Lemma video_path_not_empty (downloadPath : string) :
  filepath_Join [downloadPath; "video_base.mp4"] <> "".
Proof.
  rewrite filepath_Join_dir. destruct downloadPath as [|c rest]; cbn; discriminate.
Qed.

(** C4.  When the primary video stage has succeeded and the subtitle
    stage returns an error after its retries, Download returns a result
    with a nil error in which HasSubtitle is false, the subtitle path and
    the path of the video with subtitles are empty, and VideoPath is the
    non-empty path of the primary video; the embedding stage has left no
    mark in the trace of the run: neither its log entry nor an ffmpeg
    command that burns subtitles in. *)
Theorem subtitle_failure_keeps_primary_video d ctx (url captionLang : string) w
    (downloadPath : string) result :
  fst (Download_critical d ctx url captionLang w) = Ok (downloadPath, result) ->
  fst (fst (subtitle_fetch d ctx url captionLang downloadPath
              (snd (Download_critical d ctx url captionLang w)))) <> None ->
  exists r w' new,
    Download d ctx url captionLang w = ((Some r, None), w')
    /\ HasSubtitle r = false
    /\ VideoWithSubPath r = ""
    /\ SubtitlePath r = ""
    /\ VideoPath r = filepath_Join [downloadPath; "video_base.mp4"]
    /\ VideoPath r <> ""
    /\ trace w' = trace w ++ new
    /\ quiet new.
Proof.
  intros Hcritical Hfetch.
  destruct (Download_critical_result d ctx url captionLang downloadPath result w Hcritical)
    as (Hhas & Hsub & Hpath).
  pose proof (Download_critical_quiet d ctx url captionLang w) as Hq1.
  unfold Download, bind.
  destruct (Download_critical d ctx url captionLang w) as [critical w1].
  cbn [fst snd] in Hcritical, Hfetch, Hq1. subst critical.
  pose proof (Download_artifacts_video d ctx url captionLang downloadPath result w1) as [Hvideo _].
  unfold Download_artifacts, bind, query in *. cbn [fst snd] in *.
  set (r1 := match os_Stat _ (sys w1) with Ok info => _ | Err _ => _ end) in *.
  assert (H1 : HasSubtitle r1 = false /\ VideoWithSubPath r1 = "" /\ SubtitlePath r1 = "").
  { subst r1. destruct (os_Stat _ _); cbn; auto. }
  clearbody r1.
  destruct (subtitle_stage_fetch_failure d ctx url captionLang downloadPath r1 w1 Hfetch)
    as [Hr2 Hq2].
  destruct (subtitle_stage d ctx url captionLang downloadPath r1 w1) as [r2 w2].
  cbn [fst snd] in Hr2, Hq2. subst r2.
  pose proof (audio_stage_cases d ctx url downloadPath r1 w2) as H3.
  pose proof (audio_stage_quiet d ctx url downloadPath r1 w2) as Hq3.
  destruct (audio_stage d ctx url downloadPath r1 w2) as [r3 w3]. cbn [fst snd] in H3, Hq3.
  assert (H3' : HasSubtitle r3 = false /\ VideoWithSubPath r3 = "" /\ SubtitlePath r3 = "").
  { destruct H3 as [->| ->]; cbn; tauto. }
  pose proof (getVideoDuration_quiet d (VideoPath r3) w3) as Hq4.
  destruct (getVideoDuration d (VideoPath r3) w3) as [duration w4]. cbn [snd] in Hq4.
  pose proof (thumbnail_fallback_cases d ctx downloadPath (set_Duration r3 duration) w4) as H5.
  pose proof (thumbnail_fallback_quiet d ctx downloadPath (set_Duration r3 duration) w4) as Hq5.
  destruct (thumbnail_fallback d ctx downloadPath (set_Duration r3 duration) w4) as [r5 w5].
  cbn [fst snd] in H5, Hq5, Hvideo |- *.
  assert (H5' : HasSubtitle r5 = false /\ VideoWithSubPath r5 = "" /\ SubtitlePath r5 = "").
  { destruct H5 as [->| ->]; cbn; tauto. }
  destruct (extends_quietly_trans _ _ _ Hq1
              (extends_quietly_trans _ _ _ Hq2
                 (extends_quietly_trans _ _ _ Hq3 (extends_quietly_trans _ _ _ Hq4 Hq5))))
    as (new & Htrace & Hquiet).
  exists r5, w5, new. split; [reflexivity|].
  destruct H5' as (? & ? & ?). repeat split; try assumption.
  rewrite Hvideo. apply video_path_not_empty.
Qed.

End SubtitleClaims.

Section SubtitleExamples.
Import Retry Downloader.

(** When the subtitle is found, the embedding stage runs and leaves both
    of its marks in the trace. *)
Example embedding_runs_after_a_subtitle :
  exists r w',
    Download (Sim.a_downloader 1) context_Background "https://youtu.be/dQw4w9WgXcQ" "en"
      (Sim.boot Sim.with_subtitle)
    = ((Some r, None), w')
    /\ HasSubtitle r = true
    /\ SubtitlePath r = "/tmp/downloads/5/subtitle.en.srt"
    /\ VideoWithSubPath r = "/tmp/downloads/5/video_final.mp4"
    /\ filter (fun ev => is_embed_event ev = true) (trace w')
       = [EvLog LogLevelInfo "Embedding subtitle into video" [];
          EvExec "/usr/bin/ffmpeg"
            ["-i"; "/tmp/downloads/5/video_base.mp4";
             "-vf"; "subtitles=/tmp/downloads/5/subtitle.en.srt";
             "-c:a"; "copy"; "/tmp/downloads/5/video_final.mp4"] None].
Proof. eexists _, _. repeat split; vm_compute; reflexivity. Qed.

Lemma subtitle_failure_keeps_primary_video_witness :
  exists r w' new,
    Download (Sim.a_downloader 1) context_Background "https://youtu.be/dQw4w9WgXcQ" "en"
      (Sim.boot (Sim.idle 5))
    = ((Some r, None), w')
    /\ HasSubtitle r = false
    /\ VideoWithSubPath r = ""
    /\ SubtitlePath r = ""
    /\ VideoPath r = filepath_Join ["/tmp/downloads/5"; "video_base.mp4"]
    /\ VideoPath r <> ""
    /\ trace w' = trace (Sim.boot (Sim.idle 5)) ++ new
    /\ quiet new.
Proof.
  apply (subtitle_failure_keeps_primary_video (Sim.a_downloader 1) context_Background
           "https://youtu.be/dQw4w9WgXcQ" "en" (Sim.boot (Sim.idle 5)) "/tmp/downloads/5"
           DownloadResult_zero).
  - vm_compute. reflexivity.
  - vm_compute. discriminate.
Defined.

End SubtitleExamples.

(** ** More on the retry executor *)
Section RetryRounds.
Import Retry.
Context {S : Type} `{Runtime S}.
Implicit Types (ctx : Context) (fn : RetryFunc (S := S)) (options : RetryOptions) (s : S).

(** The rounds of the loop: no more than the iterations left, numbered
    from the index the loop was entered with, every round but the last a
    failed call followed by a wait, and a nil result exactly when the
    last call succeeded. *)
Lemma retry_loop_rounds ctx fn options :
  forall (remaining : nat) attempt wait err s r rounds s',
    retry_loop ctx fn options remaining attempt wait err s = (r, rounds, s') ->
    (length rounds <= remaining)%nat
    /\ (forall (i : nat) a, rounds !! i = Some a -> att_index a = attempt + Z.of_nat i)
    /\ ((0 < remaining)%nat ->
        exists init last,
          rounds = init ++ [last]
          /\ Forall (fun a => att_err a <> None /\ att_wait a <> None) init
          /\ (r = None <-> att_err last = None)).
Proof.
  induction remaining as [|remaining IH]; intros attempt wait err s r rounds s' Hrun.
  - cbn in Hrun. inversion Hrun; subst. split; [cbn; lia|]. split; [intros i a [=]|lia].
  - rewrite retry_loop_step in Hrun. destruct (fn s) as [[e|] s1].
    2:{ inversion Hrun; subst. split; [cbn; lia|]. split.
        - intros [|i] a [=]; subst. cbn. lia.
        - intros _. exists [], {| att_index := attempt; att_err := None; att_wait := None |}.
          repeat split; constructor. }
    destruct (attempt =? MaxRetries options).
    { inversion Hrun; subst. split; [cbn; lia|]. split.
      - intros [|i] a [=]; subst. cbn. lia.
      - intros _. exists [], {| att_index := attempt; att_err := Some e; att_wait := None |}.
        split; [reflexivity|]. split; [constructor|]. cbn. split; discriminate. }
    destruct (ctx_Done ctx (time_Now s1)).
    { inversion Hrun; subst. split; [cbn; lia|]. split.
      - intros [|i] a [=]; subst. cbn. lia.
      - intros _. exists [], {| att_index := attempt; att_err := Some e; att_wait := None |}.
        split; [reflexivity|]. split; [constructor|]. cbn. split; discriminate. }
    destruct (select_wait ctx wait _) as [[|] s2].
    { inversion Hrun; subst. split; [cbn; lia|]. split.
      - intros [|i] a [=]; subst. cbn. lia.
      - intros _. exists [], {| att_index := attempt; att_err := Some e; att_wait := Some wait |}.
        split; [reflexivity|]. split; [constructor|]. cbn. split; discriminate. }
    destruct (retry_loop ctx fn options remaining _ _ _ s2) as [[r' rounds'] s3] eqn:Hrec.
    inversion Hrun; subst; clear Hrun.
    destruct (IH _ _ _ _ _ _ _ Hrec) as (Hlen & Hidx & Hlast).
    split; [cbn; lia|]. split.
    + intros [|i] a Ha.
      * inversion Ha; subst. cbn. lia.
      * cbn in Ha. rewrite (Hidx i a Ha). lia.
    + intros _. destruct remaining as [|remaining].
      * cbn in Hrec. inversion Hrec; subst.
        exists [], {| att_index := attempt; att_err := Some e; att_wait := Some wait |}.
        split; [reflexivity|]. split; [constructor|]. cbn. split; discriminate.
      * destruct (Hlast ltac:(lia)) as (init & last & -> & Hinit & Hiff).
        exists ({| att_index := attempt; att_err := Some e; att_wait := Some wait |} :: init), last.
        split; [reflexivity|]. split; [|exact Hiff].
        constructor; [cbn; split; discriminate|exact Hinit].
Qed.

End RetryRounds.

Section RetryWaits.
Import Retry.




End RetryWaits.

Section RetryWithResult.
Import Retry RetryResult.
Context {S T : Type} `{Runtime S}.
Implicit Types (ctx : Context) (fn : ResultFunc (S := S) (T := T)) (options : RetryOptions) (s : S).

Lemma result_loop_step ctx fn options (remaining : nat) attempt wait (result : T) err s :
  result_loop ctx fn options (Datatypes.S remaining) attempt wait result err s =
  let '((result, err), s) := fn s in
  match err with
  | None => ((result, None), [{| att_index := attempt; att_err := None; att_wait := None |}], s)
  | Some e =>
      if attempt =? MaxRetries options then
        ((result, Some (fmt_Errorf "max retries reached (%d): %w"
                          [ArgInt (MaxRetries options); ArgErr e])),
         [{| att_index := attempt; att_err := Some e; att_wait := None |}],
         log_if options LogLevelError "Max retries reached (%d): %v"
           [ArgInt (MaxRetries options); ArgErr e] s)
      else if ctx_Done ctx (time_Now s) then
        ((result, Some (fmt_Errorf "context cancelled during retry: %w" [ArgErr (ctx_err ctx)])),
         [{| att_index := attempt; att_err := Some e; att_wait := None |}],
         log_if options LogLevelError "Context cancelled during retry: %v" [ArgErr (ctx_err ctx)] s)
      else
        let '(cancelled, s) :=
          select_wait ctx wait
            (log_if options LogLevelWarn
               "Retry attempt %d/%d after error: %v (waiting %v before next attempt)"
               [ArgInt (attempt + 1); ArgInt (MaxRetries options); ArgErr e; ArgDur wait] s) in
        if cancelled then
          ((result, Some (fmt_Errorf "context cancelled during retry wait: %w"
                            [ArgErr (ctx_err ctx)])),
           [{| att_index := attempt; att_err := Some e; att_wait := Some wait |}],
           log_if options LogLevelError "Context cancelled during retry wait: %v"
             [ArgErr (ctx_err ctx)] s)
        else
          let '(r, rounds, s) :=
            result_loop ctx fn options remaining (attempt + 1) (next_wait options wait)
              result (Some e) s in
          (r, {| att_index := attempt; att_err := Some e; att_wait := Some wait |} :: rounds, s)
  end.
Proof. reflexivity. Qed.

(** The loop with a result does what the loop without does on the
    errors of the operation, and hands back the value of its last
    call. *)
Lemma result_loop_agrees ctx fn options :
  forall (remaining : nat) attempt wait (result : T) err s r e rounds s',
    result_loop ctx fn options remaining attempt wait result err s = ((r, e), rounds, s') ->
    retry_loop ctx (error_of fn) options remaining attempt wait err s = (e, rounds, s')
    /\ (rounds = [] -> r = result /\ e = err)
    /\ (rounds <> [] -> exists s0 e0 s1, fn s0 = ((r, e0), s1) /\ (e = None -> e0 = None /\ s1 = s')).
Proof.
  induction remaining as [|remaining IH]; intros attempt wait result err s r e rounds s' Hrun.
  - cbn in Hrun. inversion Hrun; subst. split; [reflexivity|]. split; [auto|congruence].
  - rewrite result_loop_step in Hrun. rewrite retry_loop_step. unfold error_of at 1.
    destruct (fn s) as [[result1 [e1|]] s1] eqn:Hfn.
    2:{ inversion Hrun; subst. split; [reflexivity|]. split; [discriminate|].
        intros _. exists s, None, s'. auto. }
    destruct (attempt =? MaxRetries options).
    { inversion Hrun; subst. split; [reflexivity|]. split; [discriminate|].
      intros _. exists s, (Some e1), s1. split; [exact Hfn|discriminate]. }
    destruct (ctx_Done ctx (time_Now s1)).
    { inversion Hrun; subst. split; [reflexivity|]. split; [discriminate|].
      intros _. exists s, (Some e1), s1. split; [exact Hfn|discriminate]. }
    destruct (select_wait ctx wait _) as [[|] s2].
    { inversion Hrun; subst. split; [reflexivity|]. split; [discriminate|].
      intros _. exists s, (Some e1), s1. split; [exact Hfn|discriminate]. }
    destruct (result_loop ctx fn options remaining _ _ _ _ s2) as [[[r' e'] rounds'] s3] eqn:Hrec.
    inversion Hrun; subst; clear Hrun.
    destruct (IH _ _ _ _ _ _ _ _ _ Hrec) as (Hsame & Hnone & Hsome).
    rewrite Hsame. split; [reflexivity|]. split; [discriminate|]. intros _.
    destruct rounds' as [|a rounds'].
    + destruct (Hnone eq_refl) as [-> ->]. exists s, (Some e1), s1. split; [exact Hfn|discriminate].
    + apply Hsome. discriminate.
Qed.

(** X4.  RetryWithContextAndResult makes the same calls, waits and log
    entries as RetryWithContext does on the errors of the operation, and
    returns the same error.  With a negative [MaxRetries] its value is
    the zero value (and the error nil); otherwise the value is the one an
    actual call returned, and when the error is nil it is the value of
    the successful call that ended the run. *)
Theorem result_run_agrees_with_retry_run ctx fn options (zero : T) s :
  let out := result_run ctx fn (Some options) zero s in
  let r := fst (fst (fst out)) in
  let e := snd (fst (fst out)) in
  retry_run ctx (error_of fn) (Some options) s = (e, snd (fst out), snd out)
  /\ (MaxRetries options < 0 -> r = zero /\ e = None /\ snd out = s)
  /\ (0 <= MaxRetries options ->
      exists s0 e0 s1, fn s0 = ((r, e0), s1) /\ (e = None -> e0 = None /\ s1 = snd out)).
Proof.
  unfold result_run, retry_run.
  destruct (result_loop ctx fn options _ 0 (InitialWait options) zero None s)
    as [[[r e] rounds] s'] eqn:Hrun.
  cbn [fst snd]. destruct (result_loop_agrees _ _ _ _ _ _ _ _ _ _ _ _ _ Hrun) as (Hsame & Hnone & Hsome).
  split; [exact Hsame|]. split.
  - intros Hneg. replace (Z.to_nat (MaxRetries options + 1)) with 0%nat in Hrun by lia.
    cbn in Hrun. now inversion Hrun.
  - intros Hn. apply Hsome. intros ->.
    replace (Z.to_nat (MaxRetries options + 1))
      with (Datatypes.S (Z.to_nat (MaxRetries options))) in Hrun by lia.
    rewrite result_loop_step in Hrun. destruct (fn s) as [[r1 [e1|]] s1]; [|discriminate].
    destruct (0 =? MaxRetries options); [discriminate|].
    destruct (ctx_Done ctx (time_Now s1)); [discriminate|].
    destruct (select_wait ctx (InitialWait options) _) as [[|] s2]; [discriminate|].
    destruct (result_loop ctx fn options _ _ _ _ _ s2) as [[[r' e'] rounds'] s3]. discriminate.
Qed.

End RetryWithResult.

(** ** The round that uses up the budget *)
Section LastRound.
Import Retry.
Context {S : Type} `{Runtime S}.
Implicit Types (ctx : Context) (fn : RetryFunc (S := S)) (options : RetryOptions) (s : S).

(** A run that used all the rounds it had, the last of which failed,
    ends on the max-retries error of that round, whatever the context
    is. *)
Lemma retry_loop_last_round ctx fn options :
  forall (remaining : nat) attempt wait err s r rounds s',
    retry_loop ctx fn options remaining attempt wait err s = (r, rounds, s') ->
    attempt + Z.of_nat remaining = MaxRetries options + 1 ->
    length rounds = remaining ->
    forall a e, last rounds = Some a -> att_err a = Some e ->
    r = Some (fmt_Errorf "max retries reached (%d): %w" [ArgInt (MaxRetries options); ArgErr e]).
Proof.
  induction remaining as [|remaining IH]; intros attempt wait err s r rounds s' Hrun Hn Hlen a e Ha He.
  - cbn in Hrun. inversion Hrun; subst. discriminate Ha.
  - rewrite retry_loop_step in Hrun. destruct (fn s) as [[e1|] s1].
    2:{ inversion Hrun; subst. cbn in Ha. inversion Ha; subst. discriminate He. }
    destruct (Z.eqb_spec attempt (MaxRetries options)) as [Heq|Hne].
    { inversion Hrun; subst. cbn in Ha. inversion Ha; subst. cbn in He. now inversion He. }
    assert (Hpos : (0 < remaining)%nat) by lia.
    destruct (ctx_Done ctx (time_Now s1)).
    { inversion Hrun; subst. cbn in Hlen. lia. }
    destruct (select_wait ctx wait _) as [[|] s2].
    { inversion Hrun; subst. cbn in Hlen. lia. }
    destruct (retry_loop ctx fn options remaining _ _ _ s2) as [[r' rounds'] s3] eqn:Hrec.
    inversion Hrun; subst; clear Hrun. cbn in Hlen.
    destruct rounds' as [|a' rounds']; [cbn in Hlen; lia|].
    apply (IH _ _ _ _ _ _ _ Hrec ltac:(lia) ltac:(lia) a e); [exact Ha|exact He].
Qed.

End LastRound.

(** ** The calls RetryWithContext makes, as the operation sees them *)
Section ObservedCalls.
Import Retry RetryObserved.
Context {S : Type} `{Runtime S}.
Implicit Types (ctx : Context) (fn : RetryFunc (S := S)) (options : RetryOptions) (s : S)
  (log : list Call).

Lemma log_if_captured options level format args log s :
  log_if options level format args (log, s) = (log, log_if options level format args s).
Proof. unfold log_if. now destruct (Logger options). Qed.

Lemma select_wait_captured ctx (wait : Z) log s :
  select_wait ctx wait (log, s)
  = (fst (select_wait ctx wait s), (log, snd (select_wait ctx wait s))).
Proof.
  unfold select_wait. cbn [time_Now time_elapse select_pick_done Runtime_captured fst snd].
  destruct (ctx_done_at ctx) as [c|]; [|reflexivity].
  destruct (c <? _); [reflexivity|]. now destruct (_ && _).
Qed.

(** A wait that was not cut short by the context lasted [max 0 wait] on
    a clock that advances by the time slept. *)
Lemma select_wait_elapsed ctx (wait : Z) s :
  (forall x s0, time_Now (time_elapse x s0) = time_Now s0 + x) ->
  fst (select_wait ctx wait s) = false ->
  time_Now (snd (select_wait ctx wait s)) = time_Now s + Z.max 0 wait.
Proof.
  intros Hclock. unfold select_wait. destruct (ctx_done_at ctx) as [c|].
  - destruct (c <? _); [discriminate|]. destruct (_ && _); [discriminate|].
    intros _. cbn [snd]. rewrite Hclock. lia.
  - intros _. cbn [snd]. rewrite Hclock. lia.
Qed.

(** The loop run on the observed operation does what it does on the
    operation itself, and the log the operation keeps has one entry for
    each round, with the error of that round; on a clock that advances
    by the time slept, the time between two calls is the wait of the
    round between them. *)
Lemma observed_loop ctx fn options :
  forall (remaining : nat) attempt wait err log s,
    exists entries,
      retry_loop ctx (observed fn) options remaining attempt wait err (log, s)
      = (fst (fst (retry_loop ctx fn options remaining attempt wait err s)),
         snd (fst (retry_loop ctx fn options remaining attempt wait err s)),
         (log ++ entries, snd (retry_loop ctx fn options remaining attempt wait err s)))
      /\ call_err <$> entries
         = att_err <$> (snd (fst (retry_loop ctx fn options remaining attempt wait err s)))
      /\ (forall c, head entries = Some c ->
            c = {| call_start := time_Now s; call_err := fst (fn s);
                   call_end := time_Now (snd (fn s)) |})
      /\ ((forall x s0, time_Now (time_elapse x s0) = time_Now s0 + x) ->
          gaps entries
          = Z.max 0 <$>
              (take (length entries - 1)
                 (waits_of (snd (fst (retry_loop ctx fn options remaining attempt wait err s)))))).
Proof.
  induction remaining as [|remaining IH]; intros attempt wait err log s.
  - exists []. cbn. rewrite app_nil_r. repeat split; auto. intros c [=].
  - rewrite !retry_loop_step. unfold observed at 1. cbn [fst snd].
    destruct (fn s) as [[e|] s1] eqn:Hfn; cbn [fst snd].
    2:{ eexists [_]. split; [reflexivity|]. split; [reflexivity|].
        split; [intros c [= <-]; reflexivity|]. intros _. reflexivity. }
    destruct (attempt =? MaxRetries options).
    { rewrite log_if_captured. eexists [_]. split; [reflexivity|]. split; [reflexivity|].
      split; [intros c [= <-]; reflexivity|]. intros _. reflexivity. }
    cbn [time_Now Runtime_captured snd].
    destruct (ctx_Done ctx (time_Now s1)).
    { rewrite log_if_captured. eexists [_]. split; [reflexivity|]. split; [reflexivity|].
      split; [intros c [= <-]; reflexivity|]. intros _. reflexivity. }
    rewrite log_if_captured, select_wait_captured.
    pose proof (select_wait_elapsed ctx wait
                  (log_if options LogLevelWarn
                     "Retry attempt %d/%d after error: %v (waiting %v before next attempt)"
                     [ArgInt (attempt + 1); ArgInt (MaxRetries options); ArgErr e; ArgDur wait]
                     s1)) as Helapsed.
    destruct (select_wait ctx wait _) as [[|] s2]; cbn [fst snd] in Helapsed |- *.
    { rewrite log_if_captured. eexists [_]. split; [reflexivity|]. split; [reflexivity|].
      split; [intros c [= <-]; reflexivity|]. intros _. reflexivity. }
    destruct (IH (attempt + 1) (next_wait options wait) (Some e)
                (log ++ [{| call_start := time_Now s; call_err := Some e;
                            call_end := time_Now s1 |}]) s2)
      as (entries & Hrun & Herrs & Hhead & Hgaps).
    rewrite Hrun.
    destruct (retry_loop ctx fn options remaining (attempt + 1) (next_wait options wait)
                (Some e) s2) as [[r rounds] s3]; cbn [fst snd] in *.
    exists ({| call_start := time_Now s; call_err := Some e; call_end := time_Now s1 |}
            :: entries).
    split; [now rewrite <- app_assoc|]. split; [cbn; now rewrite Herrs|].
    split; [intros c [= <-]; reflexivity|]. intros Hclock.
    destruct entries as [|c entries]; [reflexivity|].
    specialize (Hgaps Hclock).
    replace (length (c :: entries) - 1)%nat with (length entries) in Hgaps by (cbn; lia).
    replace (length (_ :: c :: entries) - 1)%nat with (Datatypes.S (length entries))
      by (cbn; lia).
    cbn [gaps call_start call_end]. rewrite (Hhead c eq_refl) at 1. cbn [call_start].
    change (waits_of ({| att_index := attempt; att_err := Some e; att_wait := Some wait |}
                      :: rounds)) with (wait :: waits_of rounds).
    cbn [take fmap list_fmap]. f_equal.
    + rewrite (Helapsed Hclock eq_refl), log_if_time. lia.
    + exact Hgaps.
Qed.

(** The whole run on the observed operation. *)
Lemma observed_run ctx fn options s :
  exists entries,
    RetryWithContext ctx (observed fn) (Some options) ([], s)
    = (fst (RetryWithContext ctx fn (Some options) s),
       (entries, snd (RetryWithContext ctx fn (Some options) s)))
    /\ call_err <$> entries = att_err <$> (snd (fst (retry_run ctx fn (Some options) s)))
    /\ (forall c, head entries = Some c ->
          c = {| call_start := time_Now s; call_err := fst (fn s);
                 call_end := time_Now (snd (fn s)) |})
    /\ ((forall x s0, time_Now (time_elapse x s0) = time_Now s0 + x) ->
        gaps entries
        = Z.max 0 <$>
            (take (length entries - 1) (waits_of (snd (fst (retry_run ctx fn (Some options) s)))))).
Proof.
  unfold RetryWithContext, retry_run.
  destruct (observed_loop ctx fn options (Z.to_nat (MaxRetries options + 1)) 0
              (InitialWait options) None [] s) as (entries & Hrun & Hrest).
  exists entries. rewrite Hrun.
  destruct (retry_loop ctx fn options _ 0 (InitialWait options) None s) as [[r rounds] s'].
  cbn [fst snd app] in *. split; [reflexivity|exact Hrest].
Qed.

End ObservedCalls.

Section ObservedClaims.
Import Retry RetryObserved.
Context {S : Type} `{Runtime S}.
Implicit Types (ctx : Context) (fn : RetryFunc (S := S)) (options : RetryOptions) (s : S).

(** C2.  With [MaxRetries = n >= 0], a context that is never cancelled
    and an operation that fails every time it is called, RetryWithContext
    calls the operation exactly [n + 1] times (the operation itself
    counts: its call log has [n + 1] entries) and returns the max-retries
    error that wraps the error the last call returned. *)
Theorem retry_exhausts_after_n_plus_1_calls ctx fn options s (n : Z) :
  MaxRetries options = n ->
  0 <= n ->
  ctx_done_at ctx = None ->
  (forall s, fst (fn s) <> None) ->
  exists calls e s',
    RetryWithContext ctx (observed fn) (Some options) ([], s)
    = (Some (fmt_Errorf "max retries reached (%d): %w" [ArgInt n; ArgErr e]), (calls, s'))
    /\ RetryWithContext ctx fn (Some options) s
       = (Some (fmt_Errorf "max retries reached (%d): %w" [ArgInt n; ArgErr e]), s')
    /\ Z.of_nat (length calls) = n + 1
    /\ (exists c, last calls = Some c /\ call_err c = Some e)
    /\ Forall (fun c => call_err c <> None) calls.
Proof.
  intros Hn Hpos Hctx Hfail.
  destruct (observed_run ctx fn options s) as (calls & Hrun & Herrs & _).
  revert Hrun Herrs. unfold RetryWithContext, retry_run.
  replace (Z.to_nat (MaxRetries options + 1)) with (Datatypes.S (Z.to_nat n)) by lia.
  destruct (retry_loop_exhausts ctx fn options Hctx Hfail (Z.to_nat n) 0 (InitialWait options) None s
              ltac:(lia)) as (rounds & e & s' & -> & Hlen & Hlast & Hall).
  cbn [fst snd]. intros Hrun Herrs. exists calls, e, s'. rewrite Hn in *.
  split; [exact Hrun|]. split; [reflexivity|].
  assert (Hlength : length calls = length rounds).
  { rewrite <- (length_fmap call_err calls), Herrs. apply length_fmap. }
  split; [lia|]. split.
  - assert (Hl : call_err <$> last calls = Some (Some e)).
    { rewrite <- fmap_last, Herrs, fmap_last, Hlast. reflexivity. }
    destruct (last calls) as [c|]; [|discriminate]. exists c. split; [reflexivity|].
    now inversion Hl.
  - change (Forall ((fun r : option error => r <> None) ∘ call_err) calls).
    apply Forall_fmap. rewrite Herrs. apply Forall_fmap. exact Hall.
Qed.

(** C6, amended.  First part: when at least one retry is in the budget,
    the first call fails, and the context is cancelled strictly before
    the first wait would complete, RetryWithContext returns an error
    that wraps ctx.Err(), the one of the check before the wait or the
    one of the wait itself, and the operation has been called once.
    Second part, for every context: when the call number
    [MaxRetries + 1] is made and fails, the max-retries error that wraps
    its error is returned; the context is not looked at. *)
Theorem cancel_before_first_wait_completes ctx fn options s :
  (forall (c : Z) (e : error) (s1 : S),
     1 <= MaxRetries options ->
     fn s = (Some e, s1) ->
     ctx_done_at ctx = Some c ->
     c < time_Now s1 + Z.max 0 (InitialWait options) ->
     exists msg s',
       RetryWithContext ctx (observed fn) (Some options) ([], s)
       = (Some (fmt_Errorf msg [ArgErr (ctx_err ctx)]),
          ([{| call_start := time_Now s; call_err := Some e; call_end := time_Now s1 |}], s'))
       /\ RetryWithContext ctx fn (Some options) s
          = (Some (fmt_Errorf msg [ArgErr (ctx_err ctx)]), s')
       /\ (msg = "context cancelled during retry: %w"
           \/ msg = "context cancelled during retry wait: %w"))
  /\ (forall (r : option error) (calls : list Call) (s' : S) (c : Call) (e : error),
        RetryWithContext ctx (observed fn) (Some options) ([], s) = (r, (calls, s')) ->
        Z.of_nat (length calls) = MaxRetries options + 1 ->
        last calls = Some c ->
        call_err c = Some e ->
        r = Some (fmt_Errorf "max retries reached (%d): %w"
                    [ArgInt (MaxRetries options); ArgErr e])
        /\ fst (RetryWithContext ctx fn (Some options) s) = r).
Proof.
  split.
  - intros c e s1 Hn Hfn Hctx Hc.
    destruct (observed_run ctx fn options s) as (calls & Hrun & Herrs & Hhead & _).
    revert Hrun Herrs. unfold RetryWithContext, retry_run.
    replace (Z.to_nat (MaxRetries options + 1))
      with (Datatypes.S (Z.to_nat (MaxRetries options))) by lia.
    rewrite (retry_loop_step ctx fn), Hfn.
    replace (0 =? MaxRetries options) with false by (symmetry; apply Z.eqb_neq; lia).
    assert (Hcalls : forall r : option error,
               call_err <$> calls = [r] ->
               calls = [{| call_start := time_Now s; call_err := Some e;
                           call_end := time_Now s1 |}]).
    { intros r Hr. destruct calls as [|c0 [|c1 calls]]; try discriminate Hr.
      rewrite (Hhead c0 eq_refl), Hfn. reflexivity. }
    destruct (ctx_Done ctx (time_Now s1)) eqn:Hdone.
    + cbn [fst snd]. intros Hrun Herrs. rewrite (Hcalls _ Herrs) in Hrun.
      eexists _, _. split; [exact Hrun|]. split; [reflexivity|]. now left.
    + unfold select_wait. rewrite Hctx, log_if_time.
      replace (c <? time_Now s1 + Z.max 0 (InitialWait options)) with true
        by (symmetry; apply Z.ltb_lt; lia).
      cbn [fst snd]. intros Hrun Herrs. rewrite (Hcalls _ Herrs) in Hrun.
      eexists _, _. split; [exact Hrun|]. split; [reflexivity|]. now right.
  - intros r calls s' c e Hobs Hlen Hlast Herr.
    destruct (observed_run ctx fn options s) as (calls' & Hrun & Herrs & _).
    rewrite Hobs in Hrun. injection Hrun as Hr Hcalls Hs'. subst calls'.
    split; [|now symmetry]. clear Hobs. rewrite Hr. clear Hr Hs'.
    assert (Hlength : length calls
                      = length (snd (fst (retry_run ctx fn (Some options) s)))).
    { rewrite <- (length_fmap call_err calls), Herrs. apply length_fmap. }
    assert (Hl : att_err <$> last (snd (fst (retry_run ctx fn (Some options) s)))
                 = Some (Some e)).
    { rewrite <- fmap_last, <- Herrs, fmap_last, Hlast. cbn. now rewrite Herr. }
    revert Hlength Hl. unfold RetryWithContext, retry_run.
    destruct (retry_loop ctx fn options _ 0 (InitialWait options) None s)
      as [[r' rounds] s''] eqn:Hloop.
    cbn [fst snd]. intros Hlength Hl.
    assert (Hn : (length rounds = Z.to_nat (MaxRetries options + 1))%nat) by lia.
    destruct (last rounds) as [a|] eqn:Ha; [|discriminate]. cbn in Hl. inversion Hl as [Hae].
    exact (retry_loop_last_round ctx fn options _ _ _ _ _ _ _ _ Hloop ltac:(lia) Hn a e Ha Hae).
Qed.

End ObservedClaims.

Section ObservedRounds.
Import Retry RetryObserved.
Context {S : Type} `{Runtime S}.
Implicit Types (ctx : Context) (fn : RetryFunc (S := S)) (options : RetryOptions) (s : S).

(** X1.  Whatever the operation and the context do, RetryWithContext
    calls the operation at most [MaxRetries + 1] times and, when
    [MaxRetries >= 0], at least once: the first call is made in the
    state the run starts in, even under a context that is already
    cancelled.  The calls are those the operation itself logs, and
    logging them changes neither the result nor the final state. *)
Theorem retry_number_of_calls ctx fn options s :
  let out := RetryWithContext ctx (observed fn) (Some options) ([], s) in
  let calls := fst (snd out) in
  (fst out, snd (snd out)) = RetryWithContext ctx fn (Some options) s
  /\ (length calls <= Z.to_nat (MaxRetries options + 1))%nat
  /\ (0 <= MaxRetries options ->
      exists rest,
        calls = {| call_start := time_Now s; call_err := fst (fn s);
                   call_end := time_Now (snd (fn s)) |} :: rest).
Proof.
  intros out calls. subst calls out.
  destruct (observed_run ctx fn options s) as (calls & -> & Herrs & Hhead & _).
  cbn [fst snd]. split; [now destruct (RetryWithContext ctx fn (Some options) s)|].
  assert (Hlength : length calls = length (snd (fst (retry_run ctx fn (Some options) s)))).
  { rewrite <- (length_fmap call_err calls), Herrs. apply length_fmap. }
  rewrite Hlength. clear Herrs. revert Hlength. unfold retry_run.
  destruct (retry_loop ctx fn options _ 0 (InitialWait options) None s) as [[r rounds] s'] eqn:Hrun.
  cbn [fst snd]. intros Hlength.
  destruct (retry_loop_rounds _ _ _ _ _ _ _ _ _ _ _ Hrun) as (Hlen & _ & Hlast).
  split; [exact Hlen|]. intros Hn.
  destruct (Hlast ltac:(lia)) as (init & last & -> & _).
  destruct calls as [|c calls]; [rewrite length_app in Hlength; cbn in Hlength; lia|].
  exists calls. now rewrite (Hhead c eq_refl).
Qed.

(** X2.  With [MaxRetries >= 0], the calls RetryWithContext makes are a
    sequence of failed calls followed by one last call, and the result
    is nil exactly when that last call succeeded.  So the first success
    ends the run, and no success is ever discarded. *)
Theorem retry_stops_at_first_success ctx fn options s :
  0 <= MaxRetries options ->
  exists init last,
    fst (snd (RetryWithContext ctx (observed fn) (Some options) ([], s))) = init ++ [last]
    /\ Forall (fun c => call_err c <> None) init
    /\ (fst (RetryWithContext ctx fn (Some options) s) = None <-> call_err last = None).
Proof.
  intros Hn.
  destruct (observed_run ctx fn options s) as (calls & -> & Herrs & _).
  cbn [fst snd]. revert Herrs. unfold RetryWithContext, retry_run.
  destruct (retry_loop ctx fn options _ 0 (InitialWait options) None s) as [[r rounds] s'] eqn:Hrun.
  cbn [fst snd]. intros Herrs.
  destruct (retry_loop_rounds _ _ _ _ _ _ _ _ _ _ _ Hrun) as (_ & _ & Hlast).
  destruct (Hlast ltac:(lia)) as (init & last & -> & Hinit & Hiff).
  rewrite fmap_app in Herrs. apply fmap_app_inv in Herrs as (cinit & clast & Hci & Hcl & ->).
  destruct clast as [|c [|c' clast]]; try discriminate Hcl.
  exists cinit, c. split; [reflexivity|]. split.
  - change (Forall ((fun r : option error => r <> None) ∘ call_err) cinit).
    apply Forall_fmap. rewrite <- Hci. apply Forall_fmap.
    eapply Forall_impl; [exact Hinit|]. intros a [Ha _]. exact Ha.
  - injection Hcl as Hc. rewrite <- Hc. exact Hiff.
Qed.

End ObservedRounds.

Section ScheduleInQ.
Import Retry.
Local Open Scope Q_scope.





End ScheduleInQ.

Section ScheduleLookups.
Import Retry.





End ScheduleLookups.

Section WaitsBetweenCalls.
Import Retry RetryObserved.
Context {S : Type} `{Runtime S}.
Implicit Types (ctx : Context) (fn : RetryFunc (S := S)) (options : RetryOptions) (s : S).



End WaitsBetweenCalls.

Section ObservedExamples.
Import Retry RetryObserved.


Lemma retry_exhausts_after_n_plus_1_calls_witness :
  exists calls e s',
    RetryWithContext context_Background (observed Sim.always_fails) (Some DefaultRetryOptions)
      ([], Sim.boot (Sim.idle 0))
    = (Some (fmt_Errorf "max retries reached (%d): %w" [ArgInt 3; ArgErr e]), (calls, s'))
    /\ RetryWithContext context_Background Sim.always_fails (Some DefaultRetryOptions)
         (Sim.boot (Sim.idle 0))
       = (Some (fmt_Errorf "max retries reached (%d): %w" [ArgInt 3; ArgErr e]), s')
    /\ Z.of_nat (length calls) = 3 + 1
    /\ (exists c, last calls = Some c /\ call_err c = Some e)
    /\ Forall (fun c => call_err c <> None) calls.
Proof.
  apply (retry_exhausts_after_n_plus_1_calls context_Background Sim.always_fails
           DefaultRetryOptions (Sim.boot (Sim.idle 0)) 3).
  - reflexivity.
  - lia.
  - reflexivity.
  - intros s. discriminate.
Defined.

(** The four calls of that run, as the operation logged them. *)
Example default_run_calls :
  fst (snd (RetryWithContext context_Background (observed Sim.always_fails)
              (Some DefaultRetryOptions) ([], Sim.boot (Sim.idle 0))))
  = [{| call_start := 0; call_err := Some (errors_New "exit status 1"); call_end := 0 |};
     {| call_start := 1 * Second; call_err := Some (errors_New "exit status 1");
        call_end := 1 * Second |};
     {| call_start := 3 * Second; call_err := Some (errors_New "exit status 1");
        call_end := 3 * Second |};
     {| call_start := 7 * Second; call_err := Some (errors_New "exit status 1");
        call_end := 7 * Second |}].
Proof. vm_compute. reflexivity. Qed.



(** Both parts of C6 at work.  A context cancelled half a second into
    the first wait of one second: a cancellation error after one call.
    A context cancelled at 4 s, while the second and last call of an
    operation that takes two seconds is running (from 3 s to 5 s): the
    max-retries error, although the context is done when it is
    returned. *)
Lemma cancel_before_first_wait_completes_witness :
  (exists msg s',
     RetryWithContext (Sim.cancelled_at 500000000) (observed Sim.always_fails)
       (Some DefaultRetryOptions) ([], Sim.boot (Sim.idle 0))
     = (Some (fmt_Errorf msg [ArgErr context_Canceled]),
        ([{| call_start := 0; call_err := Some (errors_New "exit status 1"); call_end := 0 |}],
         s'))
     /\ RetryWithContext (Sim.cancelled_at 500000000) Sim.always_fails
          (Some DefaultRetryOptions) (Sim.boot (Sim.idle 0))
        = (Some (fmt_Errorf msg [ArgErr context_Canceled]), s')
     /\ (msg = "context cancelled during retry: %w"
         \/ msg = "context cancelled during retry wait: %w"))
  /\ (ctx_Done (Sim.cancelled_at (4 * Second))
        (time_Now (snd (RetryWithContext (Sim.cancelled_at (4 * Second)) Scenes.slow_fails
                          (Some (WithMaxRetries DefaultRetryOptions 1))
                          (Sim.boot (Sim.idle 0))))) = true
      /\ fst (RetryWithContext (Sim.cancelled_at (4 * Second)) (observed Scenes.slow_fails)
                (Some (WithMaxRetries DefaultRetryOptions 1)) ([], Sim.boot (Sim.idle 0)))
         = Some (fmt_Errorf "max retries reached (%d): %w"
                   [ArgInt (MaxRetries (WithMaxRetries DefaultRetryOptions 1));
                    ArgErr (errors_New "exit status 1")])
      /\ fst (RetryWithContext (Sim.cancelled_at (4 * Second)) Scenes.slow_fails
                (Some (WithMaxRetries DefaultRetryOptions 1)) (Sim.boot (Sim.idle 0)))
         = fst (RetryWithContext (Sim.cancelled_at (4 * Second)) (observed Scenes.slow_fails)
                  (Some (WithMaxRetries DefaultRetryOptions 1)) ([], Sim.boot (Sim.idle 0)))).
Proof.
  split.
  - refine (proj1 (cancel_before_first_wait_completes (Sim.cancelled_at 500000000)
                     Sim.always_fails DefaultRetryOptions (Sim.boot (Sim.idle 0)))
              500000000 (errors_New "exit status 1") (Sim.boot (Sim.idle 0)) _ _ _ _).
    + vm_compute. discriminate.
    + reflexivity.
    + reflexivity.
    + vm_compute. reflexivity.
  - split; [vm_compute; reflexivity|].
    eapply (proj2 (cancel_before_first_wait_completes (Sim.cancelled_at (4 * Second))
                     Scenes.slow_fails (WithMaxRetries DefaultRetryOptions 1)
                     (Sim.boot (Sim.idle 0)))).
    + vm_compute. reflexivity.
    + vm_compute. reflexivity.
    + vm_compute. reflexivity.
    + reflexivity.
Defined.

Lemma retry_stops_at_first_success_witness :
  exists init last,
    fst (snd (RetryWithContext context_Background (observed Sim.always_fails)
                (Some DefaultRetryOptions) ([], Sim.boot (Sim.idle 0)))) = init ++ [last]
    /\ Forall (fun c => call_err c <> None) init
    /\ (fst (RetryWithContext context_Background Sim.always_fails (Some DefaultRetryOptions)
               (Sim.boot (Sim.idle 0))) = None <-> call_err last = None).
Proof.
  apply (retry_stops_at_first_success context_Background Sim.always_fails DefaultRetryOptions
           (Sim.boot (Sim.idle 0))).
  vm_compute. discriminate.
Defined.

End ObservedExamples.

(** ** More on rate admission *)
Section RateLimiterWindows.
Import RateLimiter RateLimiterSweep.
Context {σ : Type} `{Clock σ} `{Redis σ}.
Implicit Types (rl : RateLimiter) (ctx : Context) (w : World σ) (m : gmap string counter).

Lemma set_counters_id rl : set_counters rl (counters rl) = rl.
Proof. now destruct rl. Qed.

Lemma Time_Sub_elapsed (now t window : Z) :
  window < now - t -> window < maxInt64 -> (window <? Time_Sub now t) = true.
Proof. intros Hd Hw. apply Z.ltb_lt. unfold Time_Sub, minInt64, maxInt64 in *. lia. Qed.

Lemma Time_Sub_mono (now now' t : Z) : now <= now' -> Time_Sub now t <= Time_Sub now' t.
Proof. intros Hle. unfold Time_Sub. lia. Qed.

(** In-process mode: Allow is allowMemory on the effective identifier. *)
Lemma Allow_in_process rl ctx (id : string) w :
  enabled rl = true -> redisClient rl = None ->
  Allow rl ctx id w =
  let '(ok, rl', w') := allowMemory rl (if userLimit rl then id else "global") w in
  ((ok, None), rl', w').
Proof. intros Hen Hredis. unfold Allow. rewrite Hen, Hredis. now destruct (userLimit rl). Qed.

(** Calls inside a running window that has counted [c] requests: the
    next [requestsMax - c] are admitted, the others denied. *)
Lemma Allow_each_running rl0 ctx (id : string) (t0 : Z) :
  enabled rl0 = true -> redisClient rl0 = None ->
  requestsMax rl0 <= maxInt64 ->
  minInt64 <= timeWindow rl0 <= maxInt64 ->
  forall (ws : list (World σ)) m (c : Z),
    m !! (if userLimit rl0 then id else "global") = Some {| count := c; timestamp := t0 |} ->
    1 <= c ->
    (forall w, In w ws -> time_Now w - t0 <= timeWindow rl0) ->
    fst (Allow_each (set_counters rl0 m) ctx id ws)
    = replicate (Nat.min (length ws) (Z.to_nat (requestsMax rl0 - c))) (true, None)
      ++ replicate (length ws - Z.to_nat (requestsMax rl0 - c)) (false, None).
Proof.
  intros Hen Hredis Hmax Hwin. induction ws as [|w ws IH]; intros m c Hm Hc Hws; [reflexivity|].
  cbn [Allow_each]. rewrite Allow_in_process by assumption.
  unfold allowMemory. cbn [counters set_counters userLimit timeWindow requestsMax].
  rewrite Hm. cbn [timestamp count].
  rewrite Time_Sub_within by (try assumption; apply Hws; now left).
  destruct (Z.leb_spec (requestsMax rl0) c) as [Hfull|Hroom].
  - specialize (IH m c Hm Hc ltac:(intros w' Hw'; apply Hws; now right)).
    destruct (Allow_each (set_counters rl0 m) ctx id ws) as [rs rl'] eqn:Hrest.
    cbn [fst] in IH |- *. rewrite IH.
    replace (Z.to_nat (requestsMax rl0 - c)) with 0%nat by lia.
    rewrite !Nat.min_0_r, !Nat.sub_0_r. reflexivity.
  - assert (Hwrap : wrap64 (c + 1) = c + 1).
    { unfold wrap64, maxInt64, minInt64 in *. rewrite Z.mod_small; lia. }
    rewrite Hwrap.
    specialize (IH (<[(if userLimit rl0 then id else "global") :=
                       {| count := c + 1; timestamp := t0 |}]> m) (c + 1)
                  ltac:(apply lookup_insert_eq) ltac:(lia)
                  ltac:(intros w' Hw'; apply Hws; now right)).
    change (set_counters (set_counters rl0 m) ?x) with (set_counters rl0 x).
    destruct (Allow_each (set_counters rl0 _) ctx id ws) as [rs rl'] eqn:Hrest.
    cbn [fst] in IH |- *. rewrite IH.
    replace (Z.to_nat (requestsMax rl0 - c))
      with (Datatypes.S (Z.to_nat (requestsMax rl0 - (c + 1)))) by lia.
    reflexivity.
Qed.

(** X5.  In-process mode, for every limit and window: of the calls made
    for one identifier within one window of the first, the first
    [max 1 requestsMax] are admitted and all the others are denied, each
    with a nil error.  In particular a limit of zero (or below) still
    admits the first request of every window. *)
Theorem admissions_in_one_window rl0 ctx (id : string) (w1 : World σ) (rest : list (World σ)) :
  enabled rl0 = true ->
  redisClient rl0 = None ->
  requestsMax rl0 <= maxInt64 ->
  minInt64 <= timeWindow rl0 <= maxInt64 ->
  match counters rl0 !! (if userLimit rl0 then id else "global") with
  | None => True
  | Some c => timeWindow rl0 < Time_Sub (time_Now w1) (timestamp c)
  end ->
  (forall w, In w rest -> time_Now w - time_Now w1 <= timeWindow rl0) ->
  let admitted := Z.to_nat (Z.max 1 (requestsMax rl0)) in
  fst (Allow_each rl0 ctx id (w1 :: rest))
  = replicate (Nat.min (Datatypes.S (length rest)) admitted) (true, None)
    ++ replicate (Datatypes.S (length rest) - admitted) (false, None).
Proof.
  intros Hen Hredis Hmax Hwin Hfresh Hrest admitted.
  cbn [Allow_each]. rewrite Allow_in_process by assumption.
  set (key := if userLimit rl0 then id else "global") in *.
  assert (Hfirst : allowMemory rl0 key w1
                   = (true, set_counters rl0
                              (<[key := {| count := 1; timestamp := time_Now w1 |}]> (counters rl0)),
                      w1)).
  { unfold allowMemory. destruct (counters rl0 !! key) as [c|]; [|reflexivity].
    now replace (timeWindow rl0 <? Time_Sub (time_Now w1) (timestamp c)) with true
      by (symmetry; now apply Z.ltb_lt). }
  rewrite Hfirst.
  pose proof (Allow_each_running rl0 ctx id (time_Now w1) Hen Hredis Hmax Hwin rest
                (<[key := {| count := 1; timestamp := time_Now w1 |}]> (counters rl0)) 1
                ltac:(apply lookup_insert_eq) ltac:(lia) Hrest) as Hrun.
  destruct (Allow_each (set_counters rl0 _) ctx id rest) as [rs rl'].
  cbn [fst] in Hrun |- *. rewrite Hrun. subst admitted.
  replace (Z.to_nat (Z.max 1 (requestsMax rl0)))
    with (Datatypes.S (Z.to_nat (requestsMax rl0 - 1))) by lia.
  reflexivity.
Qed.

(** X6.  In-process mode, an identifier whose window is used up: a call
    inside the window is denied and changes nothing in the limiter (the
    window is not extended); a call made more than a window after the
    first request of that window is admitted and starts a new window
    with a count of one. *)
Theorem window_restarts_after_it_elapsed rl ctx (id : string) (c : counter)
    (w_in w_out : World σ) :
  enabled rl = true ->
  redisClient rl = None ->
  minInt64 <= timeWindow rl < maxInt64 ->
  counters rl !! (if userLimit rl then id else "global") = Some c ->
  requestsMax rl <= count c ->
  time_Now w_in - timestamp c <= timeWindow rl ->
  timeWindow rl < time_Now w_out - timestamp c ->
  fst (Allow rl ctx id w_in) = ((false, None), rl)
  /\ exists rl',
       Allow rl ctx id w_out = ((true, None), rl', w_out)
       /\ counters rl' !! (if userLimit rl then id else "global")
          = Some {| count := 1; timestamp := time_Now w_out |}.
Proof.
  intros Hen Hredis Hwin Hc Hfull Hin Hout. rewrite !Allow_in_process by assumption.
  unfold allowMemory. rewrite Hc. split.
  - rewrite Time_Sub_within by (try assumption; lia).
    now replace (requestsMax rl <=? count c) with true by (symmetry; apply Z.leb_le; lia).
  - rewrite Time_Sub_elapsed by (try assumption; lia).
    eexists. split; [reflexivity|]. cbn. apply lookup_insert_eq.
Qed.

Lemma allowMemory_answer rl1 rl2 (key : string) w :
  timeWindow rl1 = timeWindow rl2 -> requestsMax rl1 = requestsMax rl2 ->
  counters rl1 !! key = counters rl2 !! key ->
  fst (fst (allowMemory rl1 key w)) = fst (fst (allowMemory rl2 key w))
  /\ snd (allowMemory rl1 key w) = snd (allowMemory rl2 key w)
  /\ counters (snd (fst (allowMemory rl1 key w))) !! key
     = counters (snd (fst (allowMemory rl2 key w))) !! key.
Proof.
  intros Hw Hn Hk. unfold allowMemory. rewrite Hk, Hw, Hn.
  destruct (counters rl2 !! key) as [c|] eqn:Hc.
  - destruct (_ <? _); [cbn; now rewrite !lookup_insert_eq|].
    destruct (_ <=? _); cbn; [now rewrite Hk, Hc|now rewrite !lookup_insert_eq].
  - cbn. now rewrite !lookup_insert_eq.
Qed.

Lemma allowMemory_other rl (key other : string) w :
  key <> other ->
  counters (snd (fst (allowMemory rl key w))) !! other = counters rl !! other
  /\ timeWindow (snd (fst (allowMemory rl key w))) = timeWindow rl
  /\ requestsMax (snd (fst (allowMemory rl key w))) = requestsMax rl
  /\ userLimit (snd (fst (allowMemory rl key w))) = userLimit rl
  /\ enabled (snd (fst (allowMemory rl key w))) = enabled rl
  /\ redisClient (snd (fst (allowMemory rl key w))) = redisClient rl.
Proof.
  intros Hne. unfold allowMemory. destruct (counters rl !! key) as [c|].
  - destruct (_ <? _); [cbn; rewrite lookup_insert_ne by assumption; tauto|].
    destruct (_ <=? _); cbn; [tauto|rewrite lookup_insert_ne by assumption; tauto].
  - cbn. rewrite lookup_insert_ne by assumption. tauto.
Qed.

(** X8.  In-process mode.  CleanupExpiredCounters keeps exactly the
    counters whose window has not elapsed, and it cannot be observed
    through Allow: a call made at the instant of the clean-up or later
    gets the same answer, writes the same log and leaves the same counter
    for its identifier as it would have without the clean-up. *)
Theorem cleanup_is_not_observable rl ctx (id : string) (w_c w : World σ) :
  enabled rl = true ->
  redisClient rl = None ->
  time_Now w_c <= time_Now w ->
  let cleaned := CleanupExpiredCounters rl w_c in
  let key := if userLimit rl then id else "global" in
  (forall (i : string) (c : counter),
     counters cleaned !! i = Some c
     <-> counters rl !! i = Some c /\ expired rl (time_Now w_c) c = false)
  /\ fst (fst (Allow cleaned ctx id w)) = fst (fst (Allow rl ctx id w))
  /\ snd (Allow cleaned ctx id w) = snd (Allow rl ctx id w)
  /\ counters (snd (fst (Allow cleaned ctx id w))) !! key
     = counters (snd (fst (Allow rl ctx id w))) !! key.
Proof.
  intros Hen Hredis Hlater cleaned key.
  assert (Hkeep : forall (i : string) (c : counter),
             counters cleaned !! i = Some c
             <-> counters rl !! i = Some c /\ expired rl (time_Now w_c) c = false).
  { intros i c. subst cleaned. unfold CleanupExpiredCounters. cbn [counters set_counters].
    now rewrite map_lookup_filter_Some. }
  split; [exact Hkeep|].
  rewrite !Allow_in_process by assumption.
  change (userLimit cleaned) with (userLimit rl). fold key.
  unfold allowMemory. change (timeWindow cleaned) with (timeWindow rl).
  change (requestsMax cleaned) with (requestsMax rl).
  destruct (counters rl !! key) as [c|] eqn:Hc.
  - destruct (expired rl (time_Now w_c) c) eqn:Hexp.
    + assert (Hgone : counters cleaned !! key = None).
      { destruct (counters cleaned !! key) as [c'|] eqn:Hc'; [|reflexivity].
        apply Hkeep in Hc' as [Hc' Hexp']. congruence. }
      rewrite Hgone.
      assert (Hreset : (timeWindow rl <? Time_Sub (time_Now w) (timestamp c)) = true).
      { unfold expired in Hexp. apply Z.ltb_lt in Hexp. apply Z.ltb_lt.
        pose proof (Time_Sub_mono _ _ (timestamp c) Hlater). lia. }
      rewrite Hreset. cbn [fst snd counters set_counters]. rewrite !lookup_insert_eq. auto.
    + assert (Hkept : counters cleaned !! key = Some c) by (apply Hkeep; auto).
      rewrite Hkept. destruct (_ <? _).
      { cbn [fst snd counters set_counters]. rewrite !lookup_insert_eq. auto. }
      destruct (_ <=? _); cbn [fst snd counters set_counters].
      * rewrite Hkept, Hc. auto.
      * rewrite !lookup_insert_eq. auto.
  - assert (Hgone : counters cleaned !! key = None).
    { destruct (counters cleaned !! key) as [c'|] eqn:Hc'; [|reflexivity].
      apply Hkeep in Hc' as [Hc' _]. congruence. }
    rewrite Hgone. cbn [fst snd counters set_counters]. rewrite !lookup_insert_eq. auto.
Qed.

Lemma wrap64_small (z : Z) : minInt64 <= z <= maxInt64 -> wrap64 z = z.
Proof. intros Hz. unfold wrap64, maxInt64, minInt64 in *. rewrite Z.mod_small; lia. Qed.

(** X9.  The counters stay within their bounds: after every call of
    Allow and every clean-up of a limiter in which each counter held at
    least one request and at most [max 1 requestsMax], each counter
    still does.  (A new limiter has no counter.) *)
Theorem counts_stay_bounded rl ctx (id : string) (w : World σ) :
  requestsMax rl <= maxInt64 ->
  counts_bounded rl ->
  counts_bounded (snd (fst (Allow rl ctx id w)))
  /\ counts_bounded (CleanupExpiredCounters rl w).
Proof.
  intros Hmax Hinv. split.
  - unfold Allow. destruct (enabled rl); cbn [negb]; [|exact Hinv].
    set (key := if negb (userLimit rl) then "global" else id). clearbody key.
    destruct (redisClient rl).
    { destruct (allowRedis rl ctx key w) as [ans w1]. exact Hinv. }
    unfold allowMemory. destruct (counters rl !! key) as [c|] eqn:Hc.
    + destruct (_ <? _).
      * intros i c'. cbn. destruct (decide (key = i)) as [->|Hne].
        -- rewrite lookup_insert_eq. intros [= <-]. cbn. lia.
        -- rewrite lookup_insert_ne by assumption. apply Hinv.
      * destruct (Z.leb_spec (requestsMax rl) (count c)); [exact Hinv|].
        intros i c'. cbn. destruct (decide (key = i)) as [->|Hne].
        -- rewrite lookup_insert_eq. intros [= <-]. cbn.
           pose proof (Hinv _ _ Hc). rewrite wrap64_small; unfold minInt64, maxInt64 in *; lia.
        -- rewrite lookup_insert_ne by assumption. apply Hinv.
    + intros i c'. cbn. destruct (decide (key = i)) as [->|Hne].
      * rewrite lookup_insert_eq. intros [= <-]. cbn. lia.
      * rewrite lookup_insert_ne by assumption. apply Hinv.
  - intros i c. unfold CleanupExpiredCounters. cbn [counters set_counters requestsMax].
    rewrite map_lookup_filter_Some. intros [Hc _]. exact (Hinv _ _ Hc).
Qed.

(** X11.  Without a Redis client, Allow issues no Redis command and
    leaves the system state as it is; a disabled limiter admits every
    call and changes nothing at all. *)
Theorem in_process_mode_stays_in_process rl ctx (id : string) (w : World σ) :
  (redisClient rl = None ->
   sys (snd (Allow rl ctx id w)) = sys w
   /\ redis_commands (trace (snd (Allow rl ctx id w))) = redis_commands (trace w)
   /\ snd (fst (fst (Allow rl ctx id w))) = None)
  /\ (enabled rl = false -> Allow rl ctx id w = ((true, None), rl, w)).
Proof.
  split.
  - intros Hredis. unfold Allow. destruct (enabled rl); cbn [negb]; [|auto].
    rewrite Hredis. unfold allowMemory.
    destruct (counters rl !! _) as [c|]; [|auto].
    destruct (_ <? _); [auto|]. destruct (_ <=? _); [|auto].
    cbn. unfold redis_commands. rewrite omap_app. cbn. now rewrite app_nil_r.
  - intros Hen. unfold Allow. now rewrite Hen.
Qed.

End RateLimiterWindows.

Section RateLimiterCommands.
Import RateLimiter RateLimiterSweep.
Context {σ : Type} `{Clock σ} `{Redis σ}.
Implicit Types (rl : RateLimiter) (ctx : Context).

(** X7.  In-process mode with per-user limiting: a call for one
    identifier leaves the counter of every other identifier as it was,
    and the next call for another identifier gets the same answer,
    writes the same log and leaves the same counter for that identifier
    as if the first call had not been made. *)
Theorem identifiers_do_not_interfere rl ctx (id other : string) (w w' : World σ) :
  enabled rl = true ->
  redisClient rl = None ->
  userLimit rl = true ->
  id <> other ->
  let rl1 := snd (fst (Allow rl ctx id w)) in
  counters rl1 !! other = counters rl !! other
  /\ fst (fst (Allow rl1 ctx other w')) = fst (fst (Allow rl ctx other w'))
  /\ snd (Allow rl1 ctx other w') = snd (Allow rl ctx other w')
  /\ counters (snd (fst (Allow rl1 ctx other w'))) !! other
     = counters (snd (fst (Allow rl ctx other w'))) !! other.
Proof.
  intros Hen Hredis Huser Hne. cbn zeta. rewrite (Allow_in_process rl ctx id w Hen Hredis).
  rewrite Huser.
  pose proof (allowMemory_other rl id other w Hne) as (Hother & Hw & Hn & Hu & He & Hr).
  destruct (allowMemory rl id w) as [[ok rl1] w1]. cbn [fst snd] in *.
  split; [exact Hother|].
  rewrite (Allow_in_process rl1 ctx other w') by congruence.
  rewrite (Allow_in_process rl ctx other w' Hen Hredis). rewrite Hu, Huser.
  pose proof (allowMemory_answer rl1 rl other w' Hw Hn Hother) as (Hans & Hworld & Hcounter).
  destruct (allowMemory rl1 other w') as [[ok1 rl2] w2],
           (allowMemory rl other w') as [[ok2 rl3] w3].
  cbn [fst snd] in *. subst. auto.
Qed.

Ltac trace_calls :=
  cbn; unfold redis_calls; rewrite !omap_app; rewrite <- ?app_assoc; cbn; reflexivity.

(** X10.  Distributed mode.  A call of Allow issues its Redis commands
    in the order ZRemRangeByScore, ZCard, ZAdd, Expire, all on the key
    "rate_limit:" followed by the effective identifier, and stops at the
    first of the first three that fails, returning true with the error
    of that command.  A denied call has issued the first two only, both
    without error: it never adds a marker.  A call that reaches Expire
    returns true with a nil error whatever Expire returns.  The
    in-process counters are not touched. *)
Theorem redis_commands_of_a_call rl ctx (id : string) (w : World σ) (client : RedisClient) :
  enabled rl = true ->
  redisClient rl = Some client ->
  let key := "rate_limit:" +:+ (if userLimit rl then id else "global") in
  exists ok err w' cmds,
    Allow rl ctx id w = ((ok, err), rl, w')
    /\ redis_calls (trace w') = redis_calls (trace w) ++ cmds
    /\ ((exists e, cmds = [("ZRemRangeByScore", key, Some e)] /\ ok = true /\ err = Some e)
        \/ (exists e,
              cmds = [("ZRemRangeByScore", key, None); ("ZCard", key, Some e)]
              /\ ok = true /\ err = Some e)
        \/ (cmds = [("ZRemRangeByScore", key, None); ("ZCard", key, None)]
            /\ ok = false /\ err = None)
        \/ (exists e,
              cmds = [("ZRemRangeByScore", key, None); ("ZCard", key, None);
                      ("ZAdd", key, Some e)]
              /\ ok = true /\ err = Some e)
        \/ (exists e4,
              cmds = [("ZRemRangeByScore", key, None); ("ZCard", key, None);
                      ("ZAdd", key, None); ("Expire", key, e4)]
              /\ ok = true /\ err = None)).
Proof.
  intros Hen Hredis key. unfold Allow. rewrite Hen, Hredis. cbn [negb].
  replace (if negb (userLimit rl) then "global" else id)
    with (if userLimit rl then id else "global") by now destruct (userLimit rl).
  set (eff := if userLimit rl then id else "global") in *.
  unfold allowRedis, ZRemRangeByScore, ZCard, ZAdd, Expire. fold key.
  destruct (redis_ZRemRangeByScore ctx _ _ _ (sys w)) as [[e1|] s1].
  { eexists _, _, _, _. split; [reflexivity|]. split; [trace_calls|].
    left. exists e1. auto. }
  cbn [sys trace record].
  destruct (redis_ZCard ctx _ s1) as [[n [e2|]] s2].
  { eexists _, _, _, _. split; [reflexivity|]. split; [trace_calls|].
    right; left. exists e2. auto. }
  cbn [sys trace record].
  destruct (requestsMax rl <=? n).
  { eexists _, _, _, _. split; [reflexivity|]. split; [trace_calls|].
    right; right; left. auto. }
  destruct (redis_ZAdd ctx _ _ _ s2) as [[e3|] s3].
  { eexists _, _, _, _. split; [reflexivity|]. split; [trace_calls|].
    right; right; right; left. exists e3. auto. }
  cbn [sys trace record].
  destruct (redis_Expire ctx _ _ s3) as [[e4|] s4].
  - eexists _, _, _, _. split; [reflexivity|]. split; [trace_calls|].
    right; right; right; right. exists (Some e4). auto.
  - eexists _, _, _, _. split; [reflexivity|]. split; [trace_calls|].
    right; right; right; right. exists None. auto.
Qed.

End RateLimiterCommands.

(** ** More on the download pipeline *)
Section DownloadResults.
Import Retry Downloader.
Context {σ : Type} `{Clock σ} `{OS σ}.
Implicit Types (d : VideoDownloader) (ctx : Context) (w : World σ) (result : DownloadResult).

(** The run directory is the download root joined with the clock
    reading, and the result that leaves the critical part holds at most
    a thumbnail. *)
Lemma Download_critical_path d ctx (url captionLang downloadPath : string) result w :
  fst (Download_critical d ctx url captionLang w) = Ok (downloadPath, result) ->
  downloadPath = filepath_Join [downloadDir d; Sprintf_d (time_Now w)]
  /\ (result = DownloadResult_zero
      \/ result = set_ThumbnailPath DownloadResult_zero
                    (filepath_Join [downloadPath; "thumbnail.png"])).
Proof.
  unfold Download_critical, bind, perform. cbn [fst snd].
  destruct (os_MkdirAll _ (sys w)) as [[e|] s1]; [discriminate|].
  match goal with |- context [thumbnail_stage d ctx url ?p ?r ?w0] =>
    pose proof (thumbnail_stage_cases d ctx url p r w0) as Hcases;
    destruct (thumbnail_stage d ctx url p r w0) as [result0 w0']
  end.
  cbn [fst] in Hcases. destruct (primary_stage _ _ _ _ _) as [[e|] w1]; [discriminate|].
  cbn. intros Heq. inversion Heq; subst. split; [reflexivity|]. exact Hcases.
Qed.

(** X12.  Download returns either an error and no result, or a result
    and no error, never both and never neither.  In a result, the paths
    lie in the run directory under their fixed names: VideoPath is
    always set; the path of the video with subtitles is set only
    together with HasSubtitle; HasSubtitle holds exactly when
    SubtitlePath is not empty; the audio and thumbnail paths are either
    empty or the fixed ones; the Error field is nil. *)
Theorem Download_result_is_consistent d ctx (url captionLang : string) w :
  let downloadPath := filepath_Join [downloadDir d; Sprintf_d (time_Now w)] in
  let res := fst (fst (Download d ctx url captionLang w)) in
  let err := snd (fst (Download d ctx url captionLang w)) in
  (res = None /\ err <> None)
  \/ exists r,
       res = Some r /\ err = None
       /\ Error r = None
       /\ VideoPath r = filepath_Join [downloadPath; "video_base.mp4"]
       /\ (HasSubtitle r = true <-> SubtitlePath r <> "")
       /\ (VideoWithSubPath r = ""
           \/ VideoWithSubPath r = filepath_Join [downloadPath; "video_final.mp4"]
              /\ HasSubtitle r = true)
       /\ (AudioPath r = "" \/ AudioPath r = filepath_Join [downloadPath; "audio.mp3"])
       /\ (ThumbnailPath r = ""
           \/ ThumbnailPath r = filepath_Join [downloadPath; "thumbnail.png"]).
Proof.
  intros downloadPath res err. subst res err. unfold Download, bind.
  pose proof (fun p r => Download_critical_path d ctx url captionLang p r w) as Hpath.
  destruct (Download_critical d ctx url captionLang w) as [[[p result0]|e] w1];
    [|left; split; [reflexivity|discriminate]].
  right. destruct (Hpath p result0 eq_refl) as [-> Hr0]. fold downloadPath in Hr0 |- *.
  unfold Download_artifacts, bind, query. cbn [fst snd].
  set (r1 := match os_Stat _ (sys w1) with Ok info => _ | Err _ => _ end).
  assert (Hr1 : exists size thumb,
             r1 = set_FileSize (set_VideoPath (set_ThumbnailPath DownloadResult_zero thumb)
                                  (filepath_Join [downloadPath; "video_base.mp4"])) size
             /\ (thumb = "" \/ thumb = filepath_Join [downloadPath; "thumbnail.png"])).
  { subst r1. destruct (os_Stat _ _) as [info|e]; destruct Hr0 as [->| ->];
      eexists _, _; split; try reflexivity; auto. }
  clearbody r1. destruct Hr1 as (size & thumb & -> & Hthumb).
  match goal with |- context [subtitle_stage d ctx url captionLang downloadPath ?r w1] =>
    pose proof (subtitle_stage_cases d ctx url captionLang downloadPath r w1) as Hr2;
    destruct (subtitle_stage d ctx url captionLang downloadPath r w1) as [r2 w2]
  end.
  cbn [fst] in Hr2.
  pose proof (audio_stage_cases d ctx url downloadPath r2 w2) as Hr3.
  destruct (audio_stage d ctx url downloadPath r2 w2) as [r3 w3]. cbn [fst] in Hr3.
  destruct (getVideoDuration d (VideoPath r3) w3) as [duration w4].
  pose proof (thumbnail_fallback_cases d ctx downloadPath (set_Duration r3 duration) w4) as Hr5.
  destruct (thumbnail_fallback d ctx downloadPath (set_Duration r3 duration) w4) as [r5 w5].
  cbn [fst snd] in Hr5 |- *. exists r5. split; [reflexivity|]. split; [reflexivity|].
  destruct Hr2 as [->|(sp & Hsp & _ & [->| ->])]; destruct Hr3 as [->| ->];
    destruct Hr5 as [->| ->]; cbn;
    repeat split; auto; try discriminate; try congruence; try (intros _; exact Hsp).
Qed.

End DownloadResults.

(** ** Run directories *)
Section RunDirectories.
Import Retry Downloader.
Context {σ : Type} `{Clock σ} `{OS σ}.
Implicit Types (d : VideoDownloader) (ctx : Context) (w : World σ) (result : DownloadResult).

(** %d prints different integers differently. *)
Lemma Sprintf_d_inj (a b : Z) : Sprintf_d a = Sprintf_d b -> a = b.
Proof.
  unfold Sprintf_d. intros Heq.
  assert (Hnil : forall z, Z.to_int z <> Decimal.Pos Decimal.Nil
                           /\ Z.to_int z <> Decimal.Neg Decimal.Nil).
  { intros [|p|p]; cbn; split; try discriminate;
      intros Hp; inversion Hp as [Hp']; now apply DecimalPos.Unsigned.to_uint_nonnil in Hp'. }
  apply (f_equal NilZero.int_of_string) in Heq.
  rewrite !NilZero.isi in Heq by apply Hnil.
  inversion Heq as [Hint]. apply (f_equal Z.of_int) in Hint.
  now rewrite !DecimalZ.of_to in Hint.
Qed.

Lemma append_cancel_r (a b c : string) : a +:+ c = b +:+ c -> a = b.
Proof.
  revert b. induction a as [|x a IH]; intros [|y b]; simpl; intros Heq; try reflexivity.
  - exfalso. apply (f_equal String.length) in Heq. simpl in Heq.
    rewrite !append_length in Heq. simpl in Heq. lia.
  - exfalso. apply (f_equal String.length) in Heq. simpl in Heq.
    rewrite !append_length in Heq. simpl in Heq. lia.
  - inversion Heq. f_equal. auto.
Qed.

Lemma filepath_Join_inj_l (a b name : string) :
  name <> "" -> filepath_Join [a; name] = filepath_Join [b; name] -> a = b.
Proof.
  intros Hname. rewrite !filepath_Join_dir.
  destruct (String.eqb_spec name "") as [|_]; [contradiction|].
  destruct (String.eqb_spec a "") as [->|Ha], (String.eqb_spec b "") as [->|Hb]; try trivial.
  - intros Heq. apply (f_equal String.length) in Heq. rewrite !append_length in Heq. cbn in Heq. lia.
  - intros Heq. apply (f_equal String.length) in Heq. rewrite !append_length in Heq. cbn in Heq. lia.
  - intros Heq. change (a +:+ "/" +:+ name) with (a +:+ ("/" +:+ name)) in Heq.
    now apply append_cancel_r in Heq.
Qed.

Lemma Download_video_path d ctx (url captionLang : string) w r :
  fst (fst (Download d ctx url captionLang w)) = Some r ->
  VideoPath r = filepath_Join [filepath_Join [downloadDir d; Sprintf_d (time_Now w)];
                               "video_base.mp4"].
Proof.
  unfold Download, bind.
  pose proof (fun p r0 => Download_critical_path d ctx url captionLang p r0 w) as Hpath.
  destruct (Download_critical d ctx url captionLang w) as [[[p result0]|e] w1]; [|discriminate].
  destruct (Hpath p result0 eq_refl) as [-> _].
  match goal with |- context [Download_artifacts d ctx url captionLang ?p result0 w1] =>
    pose proof (Download_artifacts_video d ctx url captionLang p result0 w1) as [Hvideo _];
    destruct (Download_artifacts d ctx url captionLang p result0 w1) as [r' w']
  end.
  cbn. intros Heq. inversion Heq; subst. exact Hvideo.
Qed.

(** X13.  Two successful runs of one downloader that read different
    clock values put their videos at different paths, whatever the URLs
    and contexts: the run directory is named after the clock reading in
    nanoseconds. *)
Theorem runs_at_different_instants_use_different_paths
    d ctx1 ctx2 (url1 url2 lang1 lang2 : string) w1 w2 r1 r2 :
  fst (fst (Download d ctx1 url1 lang1 w1)) = Some r1 ->
  fst (fst (Download d ctx2 url2 lang2 w2)) = Some r2 ->
  time_Now w1 <> time_Now w2 ->
  VideoPath r1 <> VideoPath r2.
Proof.
  intros Hr1 Hr2 Hnow Heq.
  rewrite (Download_video_path _ _ _ _ _ _ Hr1), (Download_video_path _ _ _ _ _ _ Hr2) in Heq.
  apply filepath_Join_inj_l in Heq; [|discriminate].
  apply filepath_Join_inj in Heq. now apply Sprintf_d_inj in Heq.
Qed.

End RunDirectories.

(** ** Arguments and transfers of the primary video *)
Section PrimaryVideo.
Import Retry Downloader.
Context {σ : Type} `{Clock σ} `{OS σ}.
Implicit Types (d : VideoDownloader) (ctx : Context) (w : World σ).

Lemma exec_results_app (t u : list Event) :
  exec_results (t ++ u) = exec_results t ++ exec_results u.
Proof. apply omap_app. Qed.

Lemma exec_results_log (level : LogLevel) (format : string) (args : list fmt_arg) w :
  exec_results (trace (record (EvLog level format args) w)) = exec_results (trace w).
Proof. rewrite trace_record, exec_results_app. cbn. apply app_nil_r. Qed.

(** The loop over the cookie table, for a table in any order: the
    arguments come back unchanged, or with the cookie file of a domain
    of the table that occurs in the URL and whose file exists; nothing
    is executed and the system is left as it was. *)
Lemma cookies_loop_shape (url : string) (domains : list (string * string)) (args : list string) w :
  let out := cookies_loop url domains args w in
  sys (snd out) = sys w
  /\ exec_results (trace (snd out)) = exec_results (trace w)
  /\ (fst out = args
      \/ exists domain cookieName info,
           In (domain, cookieName) domains
           /\ strings_Contains url domain = true
           /\ os_Stat (filepath_Join [os_Getwd (sys w); "app"; "config";
                                      cookieName +:+ "_cookies.txt"]) (sys w) = Ok info
           /\ fst out = args ++ ["--cookies";
                                 filepath_Join [os_Getwd (sys w); "app"; "config";
                                                cookieName +:+ "_cookies.txt"]])
  /\ ((forall domain cookieName,
         In (domain, cookieName) domains -> strings_Contains url domain = false) ->
      fst out = args).
Proof.
  induction domains as [|[domain cookieName] rest IH]; cbn [cookies_loop].
  - cbn. split; [reflexivity|]. split; [reflexivity|]. split; [now left|reflexivity].
  - destruct (strings_Contains url domain) eqn:Hin.
    + unfold getCookiePath, query, logf, ret, bind. cbn [fst snd sys record].
      destruct (os_Stat _ (sys w)) as [info|e] eqn:Hstat; cbn [fst snd sys record].
      * rewrite !exec_results_log. split; [reflexivity|]. split; [reflexivity|]. split.
        -- right. exists domain, cookieName, info. repeat split; auto. now left.
        -- intros Hnone. specialize (Hnone domain cookieName (or_introl eq_refl)). congruence.
      * rewrite !exec_results_log. split; [reflexivity|]. split; [reflexivity|].
        split; [now left|reflexivity].
    + destruct IH as (Hsys & Hexec & Hshape & Hnone).
      split; [exact Hsys|]. split; [exact Hexec|]. split.
      * destruct Hshape as [Hargs|(dm & cn & info & Hmem & Hc & Hstat & Hargs)]; [now left|].
        right. exists dm, cn, info. repeat split; auto. now right.
      * intros Hall. apply Hnone. intros dm cn Hmem. apply (Hall dm cn). now right.
Qed.

(** X14.  getCookiesArgs returns the four arguments of its literal, with
    the user agent of the environment or else the default one, followed
    by "--cookies" and a path only if a domain of its table occurs in
    the URL and the cookie file of that domain exists; for a URL with
    none of the domains the arguments are the four.  The call executes
    nothing and leaves the system as it was. *)
Theorem getCookiesArgs_shape d (url : string) w :
  let out := getCookiesArgs d url w in
  let userAgent := os_Getenv "USER_AGENT" (sys w) in
  let base := ["--geo-bypass-country"; "US"; "--user-agent";
               if (userAgent =? "")%string then default_user_agent else userAgent] in
  sys (snd out) = sys w
  /\ exec_results (trace (snd out)) = exec_results (trace w)
  /\ (fst out = base
      \/ exists domain cookieName info,
           In (domain, cookieName) domainCookies
           /\ strings_Contains url domain = true
           /\ os_Stat (filepath_Join [os_Getwd (sys w); "app"; "config";
                                      cookieName +:+ "_cookies.txt"]) (sys w) = Ok info
           /\ fst out = base ++ ["--cookies";
                                 filepath_Join [os_Getwd (sys w); "app"; "config";
                                                cookieName +:+ "_cookies.txt"]])
  /\ ((forall domain cookieName,
         In (domain, cookieName) domainCookies -> strings_Contains url domain = false) ->
      fst out = base).
Proof.
  intros out userAgent base. subst out. unfold getCookiesArgs, bind, query. cbn [fst snd].
  fold userAgent.
  destruct (userAgent =? "")%string; unfold logf, ret; cbn [fst snd];
    match goal with |- context [cookies_loop url domainCookies ?a ?w0] =>
      pose proof (cookies_loop_shape url domainCookies a w0) as Hloop
    end;
    cbn zeta in Hloop; cbn [sys record] in Hloop; rewrite exec_results_log in Hloop;
    exact Hloop.
Qed.

Lemma getCookiesArgs_executes_nothing d (url : string) w :
  exec_results (trace (snd (getCookiesArgs d url w))) = exec_results (trace w).
Proof.
  unfold getCookiesArgs, bind, query. cbn [fst snd].
  destruct (_ =? "")%string; unfold logf, ret; cbn [fst snd];
    match goal with |- context [cookies_loop url domainCookies ?a ?w0] =>
      pose proof (cookies_loop_shape url domainCookies a w0) as (_ & Hexec & _)
    end; rewrite Hexec; apply exec_results_log.
Qed.

Lemma CombinedOutput_exec (ctx : option Context) (path : string) (args : list string) w :
  exec_results (trace (snd (CombinedOutput ctx path args w)))
  = exec_results (trace w) ++ [snd (fst (CombinedOutput ctx path args w))].
Proof.
  unfold CombinedOutput, bind, perform.
  destruct (exec_CombinedOutput ctx path args (sys w)) as [[output err] s1]. cbn [fst snd].
  now rewrite trace_record, exec_results_app.
Qed.

(** X15.  downloadPrimaryVideo runs no command when the path of yt-dlp
    or of aria2c is missing, and returns an error without touching the
    world; otherwise it runs one command, and a second one exactly when
    the first has failed; it fails exactly when both have, with the
    error of the second wrapped. *)
Theorem primary_video_falls_back_once d ctx (url downloadPath : string) w :
  let out := downloadPrimaryVideo d ctx url downloadPath w in
  exists execs,
    exec_results (trace (snd out)) = exec_results (trace w) ++ execs
    /\ ((execs = []
         /\ (dependencyPath d "yt-dlp" = "" \/ dependencyPath d "aria2c" = "")
         /\ out = (Some (errors_New "yt-dlp or aria2c executable path not found"), w))
        \/ (dependencyPath d "yt-dlp" <> "" /\ dependencyPath d "aria2c" <> ""
            /\ ((execs = [None] /\ fst out = None)
                \/ (exists e, execs = [Some e; None] /\ fst out = None)
                \/ (exists e e',
                      execs = [Some e; Some e']
                      /\ fst out
                         = Some (fmt_Errorf
                                   "video download failed with both aria2c and direct methods: %w"
                                   [ArgErr e']))))).
Proof.
  intros out. subst out. unfold downloadPrimaryVideo.
  destruct (String.eqb_spec (dependencyPath d "yt-dlp") "") as [Hyt|Hyt].
  { exists []. rewrite app_nil_r. split; [reflexivity|]. left. cbn. auto. }
  destruct (String.eqb_spec (dependencyPath d "aria2c") "") as [Har|Har].
  { exists []. rewrite app_nil_r. split; [reflexivity|]. left. cbn. auto. }
  cbn [orb]. unfold bind, logf, ret.
  pose proof (getCookiesArgs_executes_nothing d url w) as Hargs.
  destruct (getCookiesArgs d url w) as [args w0]. cbn [snd] in Hargs. cbv beta iota.
  match goal with |- context [CombinedOutput ?c ?p ?a w0] =>
    pose proof (CombinedOutput_exec c p a w0) as Hfirst;
    destruct (CombinedOutput c p a w0) as [[output [e|]] w1]
  end; cbn [fst snd] in Hfirst; cbv beta iota; rewrite Hargs in Hfirst.
  - match goal with |- context [getCookiesArgs d url ?w2] =>
      pose proof (getCookiesArgs_executes_nothing d url w2) as Hargs';
      destruct (getCookiesArgs d url w2) as [directArgs w3]
    end.
    cbn [snd] in Hargs'. rewrite exec_results_log, Hfirst in Hargs'. cbv beta iota.
    match goal with |- context [CombinedOutput ?c ?p ?a w3] =>
      pose proof (CombinedOutput_exec c p a w3) as Hsecond;
      destruct (CombinedOutput c p a w3) as [[directOutput [e'|]] w4]
    end; cbn [fst snd] in Hsecond; cbv beta iota; rewrite Hargs' in Hsecond.
    + exists [Some e; Some e']. cbn [fst snd]. rewrite exec_results_log, Hsecond.
      split; [now rewrite <- app_assoc|]. right. split; [exact Hyt|]. split; [exact Har|].
      right. right. exists e, e'. split; reflexivity.
    + exists [Some e; None]. cbn [fst snd]. rewrite Hsecond.
      split; [now rewrite <- app_assoc|]. right. split; [exact Hyt|]. split; [exact Har|].
      right. left. exists e. split; reflexivity.
  - exists [None]. cbn [fst snd]. split; [exact Hfirst|].
    right. split; [exact Hyt|]. split; [exact Har|]. left. split; reflexivity.
Qed.

End PrimaryVideo.

(** ** What the retention sweep removes *)
Section SweepOrder.
Import Retry Downloader.
Context {σ : Type} `{Clock σ} `{OS σ}.
Implicit Types (d : VideoDownloader) (w : World σ).

Lemma removable_incl d (cutoffTime : Z) (entries entries' : list DirEntry) (path : string) :
  (forall entry, In entry entries -> In entry entries') ->
  removable (σ := σ) d cutoffTime entries path -> removable (σ := σ) d cutoffTime entries' path.
Proof.
  intros Hincl (en & info & s & Hin & Hrest). exists en, info, s. split; [now apply Hincl|exact Hrest].
Qed.

(** One turn of the loop of CleanupDownloads: the loop goes on with the
    other entries, whatever they are, from a state that the turn has
    reached by at most one call of RemoveAll, on the path of the entry
    of this turn, and with the errors collected so far kept. *)
Lemma sweep_step d (cutoffTime : Z) (entry : DirEntry) (errs : list error) w :
  exists errs' w' step more,
    (forall rest, sweep d cutoffTime (entry :: rest) errs w = sweep d cutoffTime rest errs' w')
    /\ trace w' = trace w ++ step
    /\ errs' = errs ++ more
    /\ (removeall_calls step = []
        \/ removeall_calls step = [filepath_Join [downloadDir d; Name entry]]
           /\ removable (σ := σ) d cutoffTime [entry] (filepath_Join [downloadDir d; Name entry])).
Proof.
  assert (Hskip : forall more,
            (forall rest, sweep d cutoffTime (entry :: rest) errs w
                          = sweep d cutoffTime rest (errs ++ more) w) ->
            exists errs' w' step more,
              (forall rest, sweep d cutoffTime (entry :: rest) errs w = sweep d cutoffTime rest errs' w')
              /\ trace w' = trace w ++ step
              /\ errs' = errs ++ more
              /\ (removeall_calls step = []
                  \/ removeall_calls step = [filepath_Join [downloadDir d; Name entry]]
                     /\ removable (σ := σ) d cutoffTime [entry]
                          (filepath_Join [downloadDir d; Name entry]))).
  { intros more Heq. exists (errs ++ more), w, [], more.
    split; [exact Heq|]. split; [now rewrite app_nil_r|]. split; [reflexivity|]. now left. }
  destruct (IsDir entry) eqn:Hdir.
  2:{ apply (Hskip []). intros rest. cbn [sweep]. rewrite Hdir. cbn [negb]. now rewrite app_nil_r. }
  destruct (Info entry) as [info|e] eqn:Hinfo.
  2:{ apply (Hskip [fmt_Errorf "failed to get info for %s: %w"
                      [ArgStr (filepath_Join [downloadDir d; Name entry]); ArgErr e]]).
      intros rest. cbn [sweep]. rewrite Hdir, Hinfo. reflexivity. }
  destruct (Z.ltb_spec (ModTime info) cutoffTime) as [Hold|Hrecent].
  2:{ apply (Hskip []). intros rest. rewrite app_nil_r.
      now apply (sweep_recent d cutoffTime entry rest info). }
  set (dirPath := filepath_Join [downloadDir d; Name entry]).
  destruct (isDirEmpty dirPath (sys w)) as [[|] [e|]] eqn:Hempty.
  - apply (Hskip [fmt_Errorf "failed to check if %s is empty: %w" [ArgStr dirPath; ArgErr e]]).
    intros rest. cbn [sweep]. rewrite Hdir, Hinfo. cbn [negb].
    replace (ModTime info <? cutoffTime) with true by (symmetry; apply Z.ltb_lt; lia).
    fold dirPath. unfold bind at 1, query at 1. now rewrite Hempty.
  - destruct (os_RemoveAll dirPath (sys w)) as [[e|] s1] eqn:Hrm.
    + exists (errs ++ [fmt_Errorf "failed to remove %s: %w" [ArgStr dirPath; ArgErr e]]),
        (record (EvLog LogLevelError "Failed to remove old download directory %s: %v"
                   [ArgStr dirPath; ArgErr e])
           (record (EvRemoveAll dirPath (Some e)) (mkWorld s1 (trace w)))),
        [EvRemoveAll dirPath (Some e);
         EvLog LogLevelError "Failed to remove old download directory %s: %v"
           [ArgStr dirPath; ArgErr e]],
        [fmt_Errorf "failed to remove %s: %w" [ArgStr dirPath; ArgErr e]].
      split.
      { intros rest. cbn [sweep]. rewrite Hdir, Hinfo. cbn [negb].
        replace (ModTime info <? cutoffTime) with true by (symmetry; apply Z.ltb_lt; lia).
        fold dirPath. unfold bind at 1, query at 1. rewrite Hempty.
        unfold RemoveAll, bind, perform, logf. now rewrite Hrm. }
      split; [cbn; rewrite <- !app_assoc; reflexivity|].
      split; [reflexivity|]. right. split; [reflexivity|].
      exists entry, info, (sys w). repeat split; auto. now left.
    + exists errs,
        (record (EvLog LogLevelDebug "Removed old download directory %s" [ArgStr dirPath])
           (record (EvRemoveAll dirPath None) (mkWorld s1 (trace w)))),
        [EvRemoveAll dirPath None;
         EvLog LogLevelDebug "Removed old download directory %s" [ArgStr dirPath]], [].
      split.
      { intros rest. cbn [sweep]. rewrite Hdir, Hinfo. cbn [negb].
        replace (ModTime info <? cutoffTime) with true by (symmetry; apply Z.ltb_lt; lia).
        fold dirPath. unfold bind at 1, query at 1. rewrite Hempty.
        unfold RemoveAll, bind, perform, logf. now rewrite Hrm. }
      split; [cbn; rewrite <- !app_assoc; reflexivity|].
      split; [now rewrite app_nil_r|]. right. split; [reflexivity|].
      exists entry, info, (sys w). repeat split; auto. now left.
  - apply (Hskip [fmt_Errorf "failed to check if %s is empty: %w" [ArgStr dirPath; ArgErr e]]).
    intros rest. cbn [sweep]. rewrite Hdir, Hinfo. cbn [negb].
    replace (ModTime info <? cutoffTime) with true by (symmetry; apply Z.ltb_lt; lia).
    fold dirPath. unfold bind at 1, query at 1. now rewrite Hempty.
  - apply (Hskip []).
    intros rest. cbn [sweep]. rewrite Hdir, Hinfo. cbn [negb].
    replace (ModTime info <? cutoffTime) with true by (symmetry; apply Z.ltb_lt; lia).
    fold dirPath. unfold bind at 1, query at 1. now rewrite Hempty, app_nil_r.
Qed.

(** The loop over a listing in two parts is the loop over the first
    part followed by the loop over the second. *)
Lemma sweep_app d (cutoffTime : Z) (pre post : list DirEntry) (errs : list error) w :
  sweep d cutoffTime (pre ++ post) errs w
  = sweep d cutoffTime post (fst (sweep d cutoffTime pre errs w)) (snd (sweep d cutoffTime pre errs w)).
Proof.
  revert errs w. induction pre as [|entry pre IH]; intros errs w; [reflexivity|].
  destruct (sweep_step d cutoffTime entry errs w) as (errs' & w' & step & more & Hgo & _).
  rewrite <- app_comm_cons, !Hgo. apply IH.
Qed.

(** The calls of RemoveAll of the loop follow the listing: each is for
    a removable entry, and they are a sublist of the paths of the
    entries, so no entry is removed twice; the errors collected before
    the loop are kept. *)
Lemma sweep_removes_in_order d (cutoffTime : Z) (entries : list DirEntry) (errs : list error) w :
  exists new more,
    trace (snd (sweep d cutoffTime entries errs w)) = trace w ++ new
    /\ fst (sweep d cutoffTime entries errs w) = errs ++ more
    /\ Forall (removable (σ := σ) d cutoffTime entries) (removeall_calls new)
    /\ sublist (removeall_calls new)
         ((fun entry => filepath_Join [downloadDir d; Name entry]) <$> entries).
Proof.
  revert errs w. induction entries as [|entry rest IH]; intros errs w.
  - exists [], []. cbn. rewrite !app_nil_r. repeat split; auto.
  - destruct (sweep_step d cutoffTime entry errs w) as (errs' & w' & step & more & Hgo & Htr & Herrs & Hcalls).
    rewrite Hgo. destruct (IH errs' w') as (new & more' & Htr' & Herrs' & Hall & Hsub).
    exists (step ++ new), (more ++ more').
    split; [rewrite Htr', Htr; now rewrite app_assoc|].
    split; [rewrite Herrs', Herrs; now rewrite app_assoc|].
    assert (Htail : Forall (removable (σ := σ) d cutoffTime (entry :: rest)) (removeall_calls new)).
    { eapply Forall_impl; [exact Hall|]. intros p. apply removable_incl. intros en Hen. now right. }
    rewrite removeall_calls_app, fmap_cons.
    destruct Hcalls as [->|[-> Hrem]]; cbn [app].
    + split; [exact Htail|]. now apply sublist_cons.
    + split.
      * constructor; [|exact Htail]. revert Hrem. apply removable_incl.
        intros en [->|[]]. now left.
      * now apply sublist_skip.
Qed.

(** An entry whose name no entry of a listing has is not removed by the
    loop over that listing. *)
Lemma sweep_spares_other_names d (cutoffTime : Z) (entries : list DirEntry) (entry : DirEntry)
    (calls : list string) :
  ~ In (Name entry) (Name <$> entries) ->
  Forall (removable (σ := σ) d cutoffTime entries) calls ->
  ~ In (filepath_Join [downloadDir d; Name entry]) calls.
Proof.
  intros Hname Hall Hin. rewrite Forall_forall in Hall.
  destruct (Hall _ (proj2 (list_elem_of_In _ _) Hin)) as (en & info & s & Hen & _ & _ & _ & Hpath & _).
  apply filepath_Join_inj in Hpath. apply Hname. rewrite Hpath.
  apply list_elem_of_In, list_elem_of_fmap. exists en. split; [reflexivity|now apply list_elem_of_In].
Qed.

(** C9, amended.  A sweep with a maximum age of one hour over a
    listing of entries with distinct names, at the turn of a run
    directory of the listing modified 10 minutes or 2 hours ago.  The
    10-minute directory is passed over.  The 2-hour directory is
    removed, by one call of RemoveAll, exactly when the emptiness check
    at its turn succeeds and reports it empty; when the check returns
    an error, nothing is done to the directory and the error is added
    to the errors collected; when the check reports a non-empty
    directory nothing is done at all.  In every case the loop goes on
    with the entries listed after the directory, from the state and
    with the errors of its turn, no turn before or after removes the
    directory, and the errors of the turn are among those counted and
    joined in the returned error. *)
Theorem sweep_ten_minutes_and_two_hours d w (pre post : list DirEntry) (entry : DirEntry)
    (info : FileInfo) :
  os_ReadDir (downloadDir d) (sys w) = (pre ++ entry :: post, None) ->
  NoDup (Name <$> pre ++ entry :: post) ->
  IsDir entry = true -> Info entry = Ok info ->
  let dirPath := filepath_Join [downloadDir d; Name entry] in
  let cutoffTime := time_Now w + wrap64 (- (1 * Hour)) in
  exists errs1 w1 errs2 w2 errs w' before step after more,
    sweep d cutoffTime pre [] w = (errs1, w1)
    /\ sweep d cutoffTime post errs2 w2 = (errs, w')
    /\ CleanupDownloads d (1 * Hour) w
       = (if 0 <? Z.of_nat (length errs)
          then Some (fmt_Errorf "encountered %d errors during cleanup: %v"
                       [ArgInt (Z.of_nat (length errs)); ArgErr (errors_Join errs)])
          else None, w')
    /\ trace w1 = trace w ++ before
    /\ trace w2 = trace w1 ++ step
    /\ trace w' = trace w2 ++ after
    /\ errs = errs2 ++ more
    /\ ~ In dirPath (removeall_calls before)
    /\ ~ In dirPath (removeall_calls after)
    /\ (ModTime info = time_Now w - 10 * Minute -> w2 = w1 /\ step = [] /\ errs2 = errs1)
    /\ (ModTime info = time_Now w - 2 * Hour ->
        match isDirEmpty dirPath (sys w1) with
        | (true, None) =>
            removeall_calls step = [dirPath]
            /\ sys w2 = snd (os_RemoveAll dirPath (sys w1))
            /\ match fst (os_RemoveAll dirPath (sys w1)) with
               | Some e => errs2 = errs1 ++ [fmt_Errorf "failed to remove %s: %w"
                                               [ArgStr dirPath; ArgErr e]]
               | None => errs2 = errs1
               end
        | (_, Some e) =>
            w2 = w1 /\ step = []
            /\ errs2 = errs1 ++ [fmt_Errorf "failed to check if %s is empty: %w"
                                   [ArgStr dirPath; ArgErr e]]
        | (false, None) => w2 = w1 /\ step = [] /\ errs2 = errs1
        end).
Proof.
  intros Hread Hnames Hdir Hinfo dirPath cutoffTime.
  rewrite fmap_app, fmap_cons in Hnames.
  apply NoDup_app in Hnames. destruct Hnames as (_ & Hpre & Hpost).
  apply NoDup_cons in Hpost. destruct Hpost as [Hpost _].
  assert (Hpre' : ~ In (Name entry) (Name <$> pre)).
  { intros Hin. apply list_elem_of_In in Hin. apply (Hpre _ Hin). now left. }
  assert (Hpost' : ~ In (Name entry) (Name <$> post)).
  { intros Hin. apply Hpost. now apply list_elem_of_In. }
  assert (Hcut : cutoffTime = time_Now w - 1 * Hour).
  { subst cutoffTime. replace (wrap64 (- (1 * Hour))) with (- (1 * Hour)) by reflexivity. lia. }
  destruct (sweep d cutoffTime pre [] w) as [errs1 w1] eqn:Hsweep1.
  destruct (sweep_removes_in_order d cutoffTime pre [] w) as (before & more1 & Htr1 & _ & Hall1 & _).
  rewrite Hsweep1 in Htr1. cbn [fst snd] in Htr1.
  assert (Hturn : exists errs2 w2 step,
            sweep d cutoffTime (entry :: post) errs1 w1 = sweep d cutoffTime post errs2 w2
            /\ trace w2 = trace w1 ++ step
            /\ (ModTime info = time_Now w - 10 * Minute -> w2 = w1 /\ step = [] /\ errs2 = errs1)
            /\ (ModTime info = time_Now w - 2 * Hour ->
                match isDirEmpty dirPath (sys w1) with
                | (true, None) =>
                    removeall_calls step = [dirPath]
                    /\ sys w2 = snd (os_RemoveAll dirPath (sys w1))
                    /\ match fst (os_RemoveAll dirPath (sys w1)) with
                       | Some e => errs2 = errs1 ++ [fmt_Errorf "failed to remove %s: %w"
                                                       [ArgStr dirPath; ArgErr e]]
                       | None => errs2 = errs1
                       end
                | (_, Some e) =>
                    w2 = w1 /\ step = []
                    /\ errs2 = errs1 ++ [fmt_Errorf "failed to check if %s is empty: %w"
                                           [ArgStr dirPath; ArgErr e]]
                | (false, None) => w2 = w1 /\ step = [] /\ errs2 = errs1
                end)).
  { destruct (Z.ltb_spec (ModTime info) cutoffTime) as [Hold|Hrecent].
    - cbn [sweep]. rewrite Hdir, Hinfo. cbn [negb].
      replace (ModTime info <? cutoffTime) with true by (symmetry; apply Z.ltb_lt; lia).
      fold dirPath. unfold bind at 1, query at 1.
      assert (Hnot : ModTime info <> time_Now w - 10 * Minute)
        by (rewrite Hcut in Hold; unfold Hour, Minute, Second in *; lia).
      destruct (isDirEmpty dirPath (sys w1)) as [[|] [e|]] eqn:Hcheck.
      + exists (errs1 ++ [fmt_Errorf "failed to check if %s is empty: %w"
                            [ArgStr dirPath; ArgErr e]]), w1, [].
        split; [reflexivity|]. split; [now rewrite app_nil_r|]. split; [intros; contradiction|]. auto.
      + unfold RemoveAll, bind, perform, logf.
        destruct (os_RemoveAll dirPath (sys w1)) as [[e|] s1] eqn:Hrm.
        * eexists _, _, _. split; [reflexivity|]. split.
          -- cbn. rewrite <- !app_assoc. reflexivity.
          -- split; [intros; contradiction|]. intros _. cbn. auto.
        * eexists _, _, _. split; [reflexivity|]. split.
          -- cbn. rewrite <- !app_assoc. reflexivity.
          -- split; [intros; contradiction|]. intros _. cbn. auto.
      + exists (errs1 ++ [fmt_Errorf "failed to check if %s is empty: %w"
                            [ArgStr dirPath; ArgErr e]]), w1, [].
        split; [reflexivity|]. split; [now rewrite app_nil_r|]. split; [intros; contradiction|]. auto.
      + exists errs1, w1, [].
        split; [reflexivity|]. split; [now rewrite app_nil_r|]. split; [intros; contradiction|]. auto.
    - exists errs1, w1, []. split; [now apply (sweep_recent d cutoffTime entry post info)|].
      split; [now rewrite app_nil_r|]. split; [auto|].
      intros Hage. exfalso. rewrite Hcut in Hrecent. unfold Hour, Minute, Second in *. lia. }
  destruct Hturn as (errs2 & w2 & step & Hgo & Htr2 & Hten & Htwo).
  destruct (sweep d cutoffTime post errs2 w2) as [errs w'] eqn:Hsweep2.
  destruct (sweep_removes_in_order d cutoffTime post errs2 w2) as (after & more & Htr3 & Herrs & Hall3 & _).
  rewrite Hsweep2 in Htr3, Herrs. cbn [fst snd] in Htr3, Herrs.
  exists errs1, w1, errs2, w2, errs, w', before, step, after, more.
  split; [reflexivity|]. split; [exact Hsweep2|]. split.
  { unfold CleanupDownloads, bind at 1, query at 1. rewrite Hread. cbn [fst snd].
    unfold bind at 1. fold cutoffTime. unfold bind at 1.
    rewrite sweep_app, Hsweep1. cbn [fst snd]. rewrite Hgo.
    destruct (0 <? Z.of_nat (length errs)); reflexivity. }
  split; [exact Htr1|]. split; [exact Htr2|]. split; [exact Htr3|]. split; [exact Herrs|].
  split; [now apply (sweep_spares_other_names d cutoffTime pre)|].
  split; [now apply (sweep_spares_other_names d cutoffTime post)|].
  split; [exact Hten|exact Htwo].
Qed.


End SweepOrder.

Section TransferAndSweepExamples.
Import Retry Downloader RateLimiter RateLimiterSweep.

Lemma Download_fails_when_every_transfer_fails_witness :
  video_transfers
    (trace (snd (Download (Sim.a_downloader 1) context_Background "https://youtu.be/dQw4w9WgXcQ"
                   "en" (Sim.boot (Scenes.outage 5)))))
  = [(true, Some (errors_New "exit status 1")); (false, Some (errors_New "exit status 1"));
     (true, Some (errors_New "exit status 1")); (false, Some (errors_New "exit status 1"))]
  /\ exists e,
       fst (Download (Sim.a_downloader 1) context_Background "https://youtu.be/dQw4w9WgXcQ" "en"
              (Sim.boot (Scenes.outage 5)))
       = (None, Some e).
Proof.
  split; [vm_compute; reflexivity|].
  apply (Download_fails_when_every_transfer_fails (Sim.a_downloader 1) context_Background
           "https://youtu.be/dQw4w9WgXcQ" "en" (Sim.boot (Scenes.outage 5))
           (trace (snd (Download (Sim.a_downloader 1) context_Background
                          "https://youtu.be/dQw4w9WgXcQ" "en" (Sim.boot (Scenes.outage 5)))))).
  - vm_compute. discriminate.
  - reflexivity.
  - vm_compute. repeat constructor; discriminate.
Defined.

(** The sweep of a download root whose first old directory cannot be
    opened: the error is counted, and the old empty directory listed
    after it is removed all the same. *)
Lemma sweep_ten_minutes_and_two_hours_witness :
  exists w',
    CleanupDownloads (Sim.a_downloader 3) (1 * Hour) (Sim.boot Scenes.blocked_directory)
    = (Some (fmt_Errorf "encountered %d errors during cleanup: %v"
               [ArgInt 1;
                ArgErr (errors_Join
                          [fmt_Errorf "failed to check if %s is empty: %w"
                             [ArgStr "/tmp/downloads/1700000000000000000";
                              ArgErr (errors_New "permission denied")]])]), w')
    /\ removeall_calls (trace w') = ["/tmp/downloads/1700000000000000001"].
Proof.
  assert (Hread : os_ReadDir (downloadDir (Sim.a_downloader 3))
                    (sys (Sim.boot Scenes.blocked_directory))
                  = ([] ++ Scenes.run_blocked :: [Sim.run_old; Sim.run_recent], None))
    by reflexivity.
  assert (Hnames : NoDup (Name <$> [] ++ Scenes.run_blocked :: [Sim.run_old; Sim.run_recent])).
  { apply (bool_decide_unpack _). vm_compute. exact I. }
  destruct (sweep_ten_minutes_and_two_hours (Sim.a_downloader 3)
              (Sim.boot Scenes.blocked_directory) [] [Sim.run_old; Sim.run_recent]
              Scenes.run_blocked {| Size := 4096; ModTime := 3 * Hour - 2 * Hour |}
              Hread Hnames eq_refl eq_refl)
    as (errs1 & w1 & errs2 & w2 & errs & w' & before & step & after & more
        & Hpre & Hpost & Hrun & _ & _ & _ & _ & _ & _ & _ & Htwo).
  injection Hpre as <- <-. specialize (Htwo eq_refl).
  vm_compute in Htwo. destruct Htwo as (-> & _ & ->).
  vm_compute in Hpost. injection Hpost as <- <-.
  eexists. split; [exact Hrun|]. vm_compute. reflexivity.
Defined.

End TransferAndSweepExamples.

(** ** The URL test of the message handler *)
Section ValidURL.
Import Handlers.

Lemma slice_to_prefix (pre text : string) :
  (String.length pre <= String.length text)%nat ->
  exists p, slice_to text (String.length pre) = Some p
            /\ (p =? pre)%string = String.prefix pre text.
Proof.
  revert text. induction pre as [|c pre IH]; intros text Hlen.
  - exists "". split; now destruct text.
  - destruct text as [|c' text]; [cbn in Hlen; lia|].
    destruct (IH text) as (p & Hp & Heq); [cbn in Hlen; lia|].
    exists (String c' p). cbn [String.length slice_to]. rewrite Hp. split; [reflexivity|].
    cbn [String.prefix String.eqb]. rewrite <- Heq.
    destruct (Ascii.eqb_spec c' c) as [->|Hne].
    + destruct (Ascii.ascii_dec c c); [reflexivity|contradiction].
    + destruct (Ascii.ascii_dec c c') as [->|_]; [contradiction|reflexivity].
Qed.

(** X18.  isValidURL never panics: its slice expressions are guarded by
    the length test.  It accepts exactly the texts of more than 8 bytes
    that start with http:// or https://, so that a scheme with nothing,
    or a single byte after http://, is refused. *)
Theorem isValidURL_never_panics (text : string) :
  isValidURL text
  = Some ((8 <? String.length text)%nat
          && (String.prefix "http://" text || String.prefix "https://" text)).
Proof.
  unfold isValidURL. destruct (Nat.ltb_spec 8 (String.length text)) as [Hlen|_]; [|reflexivity].
  destruct (slice_to_prefix "http://" text) as (p7 & Hp7 & <-); [cbn; lia|].
  destruct (slice_to_prefix "https://" text) as (p8 & Hp8 & <-); [cbn; lia|].
  change (String.length "http://") with 7%nat in Hp7.
  change (String.length "https://") with 8%nat in Hp8.
  rewrite Hp7, Hp8. cbn [andb]. now destruct (p7 =? "http://")%string.
Qed.

End ValidURL.

(** ** A negative retry budget *)
Section NegativeBudget.
Import Retry Downloader.

Lemma RetryWithContext_negative {S : Type} `{Runtime S} (ctx : Context) (fn : RetryFunc)
    (options : RetryOptions) (s : S) :
  MaxRetries options < 0 -> RetryWithContext ctx fn (Some options) s = (None, s).
Proof.
  intros Hneg. unfold RetryWithContext, retry_run.
  replace (Z.to_nat (MaxRetries options + 1)) with 0%nat by lia.
  reflexivity.
Qed.

Context {σ : Type} `{Clock σ} `{OS σ}.
Implicit Types (d : VideoDownloader) (ctx : Context) (w : World σ).

Lemma exec_commands_app (t u : list Event) :
  exec_commands (t ++ u) = exec_commands t ++ exec_commands u.
Proof. apply omap_app. Qed.

Lemma runs_only_refl (allowed : list string) (t : list Event) : runs_only allowed t t.
Proof. exists []. rewrite app_nil_r. split; [reflexivity|constructor]. Qed.

Lemma runs_only_trans (allowed : list string) (t u v : list Event) :
  runs_only allowed t u -> runs_only allowed u v -> runs_only allowed t v.
Proof.
  intros (n1 & -> & H1) (n2 & -> & H2). exists (n1 ++ n2). split; [now rewrite app_assoc|].
  rewrite exec_commands_app. now apply Forall_app.
Qed.

Lemma runs_only_log (allowed : list string) (level : LogLevel) (format : string)
    (args : list fmt_arg) w :
  runs_only allowed (trace w) (trace (record (EvLog level format args) w)).
Proof. exists [EvLog level format args]. rewrite trace_record. split; [reflexivity|constructor]. Qed.

Lemma runs_only_exec (allowed : list string) (ctx : option Context) (path : string)
    (args : list string) w :
  In path allowed ->
  runs_only allowed (trace w) (trace (snd (CombinedOutput ctx path args w))).
Proof.
  intros Hin. unfold CombinedOutput, bind, perform.
  destruct (exec_CombinedOutput ctx path args (sys w)) as [[output err] s1]. cbn [snd].
  exists [EvExec path args err]. rewrite trace_record. split; [reflexivity|].
  cbn. constructor; [exact Hin|constructor].
Qed.

Lemma getVideoDuration_runs_ffprobe d (videoPath : string) w :
  runs_only [dependencyPath d "ffprobe"; dependencyPath d "ffmpeg"]
    (trace w) (trace (snd (getVideoDuration d videoPath w))).
Proof.
  unfold getVideoDuration. destruct (_ =? "")%string.
  - unfold bind, logf, ret. cbn [snd]. apply runs_only_log.
  - unfold bind.
    match goal with |- context [CombinedOutput ?c ?p ?a w] =>
      pose proof (runs_only_exec [dependencyPath d "ffprobe"; dependencyPath d "ffmpeg"]
                    c p a w (or_introl eq_refl)) as Hrun;
      destruct (CombinedOutput c p a w) as [[output [e|]] w1]
    end; cbn [snd] in Hrun; cbv beta iota.
    + unfold bind, logf, ret. cbn [snd].
      eapply runs_only_trans; [exact Hrun|apply runs_only_log].
    + destruct (Sscanf_float _) as [duration|e]; unfold bind, logf, ret; cbn [snd].
      * exact Hrun.
      * eapply runs_only_trans; [exact Hrun|apply runs_only_log].
Qed.

Lemma thumbnail_fallback_runs_ffmpeg d ctx (downloadPath : string) (result : DownloadResult) w :
  runs_only [dependencyPath d "ffprobe"; dependencyPath d "ffmpeg"]
    (trace w) (trace (snd (thumbnail_fallback d ctx downloadPath result w))).
Proof.
  unfold thumbnail_fallback. destruct (_ && _); [|apply runs_only_refl].
  unfold bind at 1, logf at 1.
  set (w0 := record _ w).
  apply (runs_only_trans _ _ (trace w0)); [subst w0; apply runs_only_log|]. clearbody w0.
  unfold extractThumbnail. destruct (_ =? "")%string.
  - unfold bind, ret, logf. cbn [snd]. apply runs_only_log.
  - unfold bind.
    match goal with |- context [CombinedOutput ?c ?p ?a w0] =>
      pose proof (runs_only_exec [dependencyPath d "ffprobe"; dependencyPath d "ffmpeg"]
                    c p a w0 (or_intror (or_introl eq_refl))) as Hrun;
      destruct (CombinedOutput c p a w0) as [[output [e|]] w1]
    end; cbn [snd] in Hrun; cbv beta iota.
    + unfold bind, logf, ret. cbn [snd].
      eapply runs_only_trans; [exact Hrun|].
      eapply runs_only_trans; apply runs_only_log.
    + unfold bind, logf, ret, fileExists, query, bind, ret. cbn [fst snd].
      destruct (os_Stat _ (sys w1)); cbn [snd].
      * eapply runs_only_trans; [exact Hrun|apply runs_only_log].
      * exact Hrun.
Qed.

Section Stages.
Variables (d : VideoDownloader) (ctx : Context).
Hypothesis Hneg : MaxRetries (retryOpts d) < 0.
Let allowed : list string := [dependencyPath d "ffprobe"; dependencyPath d "ffmpeg"].

Lemma thumbnail_stage_negative (url downloadPath : string) (result : DownloadResult) w :
  runs_only allowed (trace w) (trace (snd (thumbnail_stage d ctx url downloadPath result w))).
Proof.
  unfold thumbnail_stage, bind, logf. rewrite (RetryWithContext_negative _ _ _ _ Hneg).
  unfold fileExists, query, bind, ret. cbn [fst snd sys record].
  destruct (os_Stat _ _); cbn [snd].
  - eapply runs_only_trans; apply runs_only_log.
  - apply runs_only_log.
Qed.

Lemma primary_stage_negative (url downloadPath : string) w :
  fst (primary_stage d ctx url downloadPath w) = None
  /\ runs_only allowed (trace w) (trace (snd (primary_stage d ctx url downloadPath w))).
Proof.
  unfold primary_stage, bind, logf. rewrite (RetryWithContext_negative _ _ _ _ Hneg).
  split; [reflexivity|apply runs_only_log].
Qed.

Lemma subtitle_stage_negative (url captionLang downloadPath : string) (result : DownloadResult) w :
  fst (subtitle_stage d ctx url captionLang downloadPath result w) = result
  /\ runs_only allowed (trace w)
       (trace (snd (subtitle_stage d ctx url captionLang downloadPath result w))).
Proof.
  unfold subtitle_stage, subtitle_fetch, bind, logf.
  rewrite (RetryWithContext_negative _ _ _ _ Hneg). cbn.
  split; [reflexivity|apply runs_only_log].
Qed.

Lemma audio_stage_negative (url downloadPath : string) (result : DownloadResult) w :
  fst (audio_stage d ctx url downloadPath result w)
  = set_AudioPath result (filepath_Join [downloadPath; "audio.mp3"])
  /\ runs_only allowed (trace w) (trace (snd (audio_stage d ctx url downloadPath result w))).
Proof.
  unfold audio_stage, bind, logf. rewrite (RetryWithContext_negative _ _ _ _ Hneg).
  split; [reflexivity|apply runs_only_log].
Qed.

End Stages.

(** X17.  With a negative MaxRetries no stage that runs under
    RetryWithContext is entered, and each of them counts as a success:
    once the run directory exists, Download returns a result and a nil
    error, with the paths of a video and of an audio file that it never
    asked for, without a subtitle; the only commands it may have run are
    ffprobe and ffmpeg (the duration and the thumbnail taken from the
    video). *)
Theorem Download_with_negative_budget d ctx (url captionLang : string) w :
  let downloadPath := filepath_Join [downloadDir d; Sprintf_d (time_Now w)] in
  MaxRetries (retryOpts d) < 0 ->
  fst (os_MkdirAll downloadPath (sys w)) = None ->
  exists r w',
    Download d ctx url captionLang w = ((Some r, None), w')
    /\ VideoPath r = filepath_Join [downloadPath; "video_base.mp4"]
    /\ AudioPath r = filepath_Join [downloadPath; "audio.mp3"]
    /\ HasSubtitle r = false
    /\ VideoWithSubPath r = ""
    /\ runs_only [dependencyPath d "ffprobe"; dependencyPath d "ffmpeg"]
         (trace w) (trace w').
Proof.
  intros downloadPath Hneg Hmk.
  unfold Download, Download_critical, bind, perform. cbn [fst snd]. fold downloadPath.
  destruct (os_MkdirAll downloadPath (sys w)) as [[e|] s1]; [discriminate|]. clear Hmk.
  set (allowed := [dependencyPath d "ffprobe"; dependencyPath d "ffmpeg"]).
  assert (Hw0 : runs_only allowed (trace w) (trace (mkWorld s1 (trace w))))
    by apply runs_only_refl.
  generalize dependent (mkWorld s1 (trace w)). intros w0 Hw0.
  pose proof (thumbnail_stage_negative d ctx Hneg url downloadPath DownloadResult_zero w0) as Hthumb.
  pose proof (thumbnail_stage_cases d ctx url downloadPath DownloadResult_zero w0) as Hres0.
  destruct (thumbnail_stage d ctx url downloadPath DownloadResult_zero w0) as [result0 w1].
  cbn [fst snd] in Hthumb, Hres0.
  destruct (primary_stage_negative d ctx Hneg url downloadPath w1) as [Hprim Hw2].
  destruct (primary_stage d ctx url downloadPath w1) as [err w2]. cbn [fst snd] in Hprim, Hw2.
  subst err. unfold ret. unfold Download_artifacts, bind, query. cbn [fst snd].
  set (r1 := match os_Stat _ (sys w2) with Ok info => _ | Err _ => _ end).
  assert (Hr1 : VideoPath r1 = filepath_Join [downloadPath; "video_base.mp4"]
                /\ AudioPath r1 = "" /\ HasSubtitle r1 = false /\ VideoWithSubPath r1 = "").
  { subst r1. destruct (os_Stat _ _); destruct Hres0 as [->| ->]; cbn; auto. }
  clearbody r1.
  destruct (subtitle_stage_negative d ctx Hneg url captionLang downloadPath r1 w2) as [Hsub Hw3].
  destruct (subtitle_stage d ctx url captionLang downloadPath r1 w2) as [r2 w3].
  cbn [fst snd] in Hsub, Hw3. subst r2.
  destruct (audio_stage_negative d ctx Hneg url downloadPath r1 w3) as [Haud Hw4].
  destruct (audio_stage d ctx url downloadPath r1 w3) as [r3 w4].
  cbn [fst snd] in Haud, Hw4. subst r3.
  match goal with |- context [getVideoDuration d ?p w4] =>
    pose proof (getVideoDuration_runs_ffprobe d p w4) as Hw5;
    destruct (getVideoDuration d p w4) as [duration w5]
  end.
  cbn [snd] in Hw5.
  match goal with |- context [thumbnail_fallback d ctx downloadPath ?r w5] =>
    pose proof (thumbnail_fallback_runs_ffmpeg d ctx downloadPath r w5) as Hw6;
    pose proof (thumbnail_fallback_cases d ctx downloadPath r w5) as Hres;
    destruct (thumbnail_fallback d ctx downloadPath r w5) as [r5 w6]
  end.
  cbn [fst snd] in Hw6, Hres |- *. exists r5, w6. split; [reflexivity|].
  destruct Hr1 as (Hvideo & Haudio & Hsubt & Hwith).
  assert (Hrun : runs_only allowed (trace w) (trace w6)).
  { apply (runs_only_trans _ _ _ _ Hw0), (runs_only_trans _ _ _ _ Hthumb),
      (runs_only_trans _ _ _ _ Hw2), (runs_only_trans _ _ _ _ Hw3),
      (runs_only_trans _ _ _ _ Hw4), (runs_only_trans _ _ _ _ Hw5), Hw6. }
  destruct Hres as [->| ->];
    cbn [VideoPath AudioPath HasSubtitle VideoWithSubPath set_Duration set_AudioPath
         set_ThumbnailPath];
    (split; [exact Hvideo|]; split; [reflexivity|]; split; [exact Hsubt|];
     split; [exact Hwith|exact Hrun]).
Qed.

End NegativeBudget.

(** ** The dependency checker *)
Section DependencyFacts.
Import Downloader Dependencies.
Context {σ : Type} `{Clock σ} `{OS σ} `{Host σ}.
Implicit Types (w : World σ) (dc : DependencyChecker).

Lemma CombinedOutput_command (ctx : option Context) (path : string) (args : list string) w :
  exec_commands (trace (snd (CombinedOutput ctx path args w)))
  = exec_commands (trace w) ++ [path].
Proof.
  unfold CombinedOutput, bind, perform.
  destruct (exec_CombinedOutput ctx path args (sys w)) as [[output err] s1]. cbn [fst snd].
  now rewrite trace_record, exec_commands_app.
Qed.

(** The ways out of checkDependency. *)
Lemma checkDependency_cases (args : list string) w ok (path : string) err w' :
  checkDependency args w = ((ok, path, err), w') ->
  (ok = false /\ path = "" /\ err <> None /\ (args = [] -> w' = w))
  \/ (ok = true /\ err = None /\ args <> []
      /\ last (exec_commands (trace w')) = Some path
      /\ last (exec_results (trace w')) = Some None).
Proof.
  unfold checkDependency. destruct args as [|binary version_args].
  { intros [= <- <- <- <-]. left. repeat split; auto; discriminate. }
  unfold bind. destruct (locate binary w) as [foundPath w1].
  destruct (if (foundPath =? "")%string then query (exec_LookPath binary) else ret (Ok foundPath))
    as [[found|e] w2].
  2:{ intros [= <- <- <- <-]. left. repeat split; try discriminate. }
  pose proof (CombinedOutput_command
                (Some {| ctx_done_at := Some (time_Now w2 + 5 * Second);
                         ctx_err := context_DeadlineExceeded |}) found version_args w2) as Hcmd.
  pose proof (CombinedOutput_exec
                (Some {| ctx_done_at := Some (time_Now w2 + 5 * Second);
                         ctx_err := context_DeadlineExceeded |}) found version_args w2) as Hres.
  destruct (CombinedOutput _ found version_args w2) as [[output [e|]] w3];
    cbn [fst snd] in Hcmd, Hres; intros [= <- <- <- <-].
  - left. repeat split; try discriminate.
  - right. rewrite Hcmd, Hres, !last_snoc. repeat split; discriminate.
Qed.

(** X19.  checkDependency answers true exactly when it returns a nil
    error; a false answer comes with an empty path; a true answer comes
    with the path of the last command it ran, the version command, which
    succeeded.  Without a command name nothing is run. *)
Theorem checkDependency_outcomes (args : list string) w :
  let out := checkDependency args w in
  let ok := fst (fst (fst out)) in
  let path := snd (fst (fst out)) in
  let err := snd (fst out) in
  (ok = true <-> err = None)
  /\ (ok = false -> path = "")
  /\ (ok = true ->
      last (exec_commands (trace (snd out))) = Some path
      /\ last (exec_results (trace (snd out))) = Some None)
  /\ (args = [] ->
      out = ((false, "", Some (errors_New "no command specified")), w)).
Proof.
  intros out ok path err. subst ok path err out.
  destruct (checkDependency args w) as [[[ok path] err] w'] eqn:Hcd. cbn [fst snd].
  assert (Hnil : args = [] -> (ok, path, err, w')
                              = (false, "", Some (errors_New "no command specified"), w)).
  { intros ->. cbn in Hcd. now inversion Hcd. }
  destruct (checkDependency_cases _ _ _ _ _ _ Hcd)
    as [(-> & -> & Herr & _)|(-> & -> & _ & Hcmd & Hres)].
  - split; [split; [discriminate|contradiction]|]. split; [reflexivity|].
    split; [discriminate|exact Hnil].
  - split; [split; reflexivity|]. split; [discriminate|]. split; [auto|exact Hnil].
Qed.

(** The loop of CheckDependencies over dependencies with distinct
    names. *)
Lemma check_loop_spec (deps : list (string * list string)) :
  NoDup (fmap fst deps) ->
  forall (results : gmap string bool) (paths : gmap string string) (missing : list string) w
         results' paths' missing' w',
    check_loop deps results paths missing w = ((results', paths', missing'), w') ->
    (forall dep, dep ∉ fmap fst deps ->
                 results' !! dep = results !! dep /\ paths' !! dep = paths !! dep)
    /\ (forall dep, dep ∈ fmap fst deps ->
          (results' !! dep = Some true /\ is_Some (paths' !! dep))
          \/ (results' !! dep = Some false /\ paths' !! dep = paths !! dep))
    /\ exists new,
         missing' = missing ++ new
         /\ forall dep, dep ∈ new <-> dep ∈ fmap fst deps /\ results' !! dep = Some false.
Proof.
  induction deps as [|[dep args] rest IH]; intros Hnodup results paths missing w
    results' paths' missing' w' Hrun.
  - cbn in Hrun. inversion Hrun; subst. split; [auto|]. split.
    + intros dep Hin. cbn in Hin. now apply elem_of_nil in Hin.
    + exists []. rewrite app_nil_r. split; [reflexivity|]. intros dep. cbn.
      rewrite !elem_of_nil. tauto.
  - cbn [fmap list_fmap fst] in Hnodup |- *. apply NoDup_cons in Hnodup as [Hdep Hnodup].
    cbn [check_loop] in Hrun. unfold bind in Hrun.
    destruct (checkDependency args w) as [[[ok path] err] w1] eqn:Hcd.
    apply checkDependency_cases in Hcd.
    apply (IH Hnodup) in Hrun as (Hout & Hin & new & -> & Hnew). clear IH.
    destruct (Hout dep Hdep) as [Hres Hpath]. rewrite lookup_insert_eq in Hres.
    split; [|split].
    + intros other Hother. apply not_elem_of_cons in Hother as [Hne Hother].
      destruct (Hout other Hother) as [Hr Hp]. rewrite Hr, Hp.
      rewrite lookup_insert_ne by congruence. split; [reflexivity|].
      destruct ok; [now rewrite lookup_insert_ne by congruence|reflexivity].
    + intros other Hother. apply elem_of_cons in Hother as [->|Hother].
      * destruct Hcd as [(-> & _)|(-> & _)].
        -- right. split; [exact Hres|exact Hpath].
        -- left. split; [exact Hres|]. rewrite Hpath, lookup_insert_eq. eauto.
      * assert (Hne : dep <> other) by (intros ->; contradiction).
        destruct (Hin other Hother) as [[Hr Hp]|[Hr Hp]]; [now left|]. right.
        split; [exact Hr|]. rewrite Hp.
        destruct ok; [now rewrite lookup_insert_ne by congruence|reflexivity].
    + destruct Hcd as [(-> & _ & Herr & _)|(-> & -> & _)].
      * exists (dep :: new). split.
        { destruct err; [|contradiction]. cbn. now rewrite <- app_assoc. }
        intros other. rewrite !elem_of_cons, Hnew. split.
        -- intros [->|[Hother Hr]]; [split; [now left|exact Hres]|split; [now right|exact Hr]].
        -- intros [[->|Hother] Hr]; [now left|right; now split].
      * exists new. split; [reflexivity|]. intros other. rewrite elem_of_cons, Hnew. split.
        -- intros [Hother Hr]. split; [now right|exact Hr].
        -- intros [[->|Hother] Hr]; [congruence|now split].
Qed.

(** X20.  CheckDependencies gives a result for each dependency of the
    checker and for nothing else, and it returns a nil error exactly
    when every result is true. *)
Theorem CheckDependencies_reports_missing dc w :
  NoDup (fmap fst (dependencies dc)) ->
  let out := CheckDependencies dc w in
  let results := fst (fst (fst out)) in
  let err := snd (fst (fst out)) in
  (forall dep, is_Some (results !! dep) <-> dep ∈ fmap fst (dependencies dc))
  /\ (err = None <-> forall dep, dep ∈ fmap fst (dependencies dc) -> results !! dep = Some true)
  /\ dependencies (snd (fst out)) = dependencies dc.
Proof.
  intros Hnodup out results err. subst results err out. unfold CheckDependencies, bind.
  destruct (termux_path w) as [[] w0].
  destruct (check_loop (dependencies dc) ∅ (DependencyPaths dc) [] w0)
    as [[[results paths] missing] w1] eqn:Hrun.
  apply (check_loop_spec _ Hnodup) in Hrun as (Hout & Hin & new & -> & Hnew).
  rewrite app_nil_l.
  assert (Hdom : forall dep, is_Some (results !! dep) <-> dep ∈ fmap fst (dependencies dc)).
  { intros dep. split.
    - intros Hsome. destruct (decide (dep ∈ fmap fst (dependencies dc))) as [|Hno]; [assumption|].
      destruct (Hout dep Hno) as [Hr _]. rewrite Hr, lookup_empty in Hsome. now destruct Hsome.
    - intros Hdep. destruct (Hin dep Hdep) as [[-> _]|[-> _]]; eauto. }
  destruct new as [|dep new];
    [|replace (0 <? Z.of_nat (length (dep :: new))) with true
        by (symmetry; apply Z.ltb_lt; cbn [length]; lia)];
    cbn [length Z.of_nat Z.ltb Z.compare]; unfold ret; cbn [fst snd].
  - split; [exact Hdom|]. split; [|reflexivity]. split; [|reflexivity].
    intros _ dep Hdep. destruct (Hin dep Hdep) as [[Hr _]|[Hr _]]; [exact Hr|].
    exfalso. apply (elem_of_nil dep), Hnew. now split.
  - split; [exact Hdom|]. split; [|reflexivity]. split; [discriminate|].
    intros Hall. exfalso.
    destruct (proj1 (Hnew dep) ltac:(now left)) as [Hdep Hr].
    rewrite (Hall dep Hdep) in Hr. discriminate.
Qed.

(** X21.  After CheckDependencies the checker holds a path for every
    dependency whose result is true; for every other name its table of
    paths is as it was before the call, so that a dependency that fails
    a later check keeps the path an earlier check has stored. *)
Theorem CheckDependencies_keeps_stale_paths dc w (dep : string) :
  NoDup (fmap fst (dependencies dc)) ->
  let out := CheckDependencies dc w in
  let results := fst (fst (fst out)) in
  let dc' := snd (fst out) in
  (results !! dep = Some true -> is_Some (GetDependencyPaths dc' !! dep))
  /\ (results !! dep <> Some true ->
      GetDependencyPaths dc' !! dep = GetDependencyPaths dc !! dep).
Proof.
  intros Hnodup out results dc'. subst results dc' out. unfold CheckDependencies, bind.
  destruct (termux_path w) as [[] w0].
  destruct (check_loop (dependencies dc) ∅ (DependencyPaths dc) [] w0)
    as [[[results paths] missing] w1] eqn:Hrun.
  apply (check_loop_spec _ Hnodup) in Hrun as (Hout & Hin & _).
  assert (Hgoal : (results !! dep = Some true -> is_Some (paths !! dep))
                  /\ (results !! dep <> Some true -> paths !! dep = DependencyPaths dc !! dep)).
  { destruct (decide (dep ∈ fmap fst (dependencies dc))) as [Hdep|Hno].
    - destruct (Hin dep Hdep) as [[Hr Hp]|[Hr Hp]]; rewrite Hr; split; try done.
    - destruct (Hout dep Hno) as [Hr Hp]. rewrite Hr, Hp, lookup_empty. split; done. }
  destruct (0 <? Z.of_nat (length missing)); exact Hgoal.
Qed.

End DependencyFacts.

(** ** Files the downloader picks *)
Section PickedFiles.
Import Retry Downloader.
Context {σ : Type} `{Clock σ} `{OS σ}.
Implicit Types (d : VideoDownloader) (ctx : Context) (w : World σ) (s : σ).

Lemma largest_file_spec s (files : list string) :
  forall (largestThumbnail : string) (largestSize : Z),
    let r := largest_file s files largestThumbnail largestSize in
    (r = largestThumbnail
     /\ forall f info, In f files -> os_Stat f s = Ok info -> Size info <= largestSize)
    \/ (In r files
        /\ exists info,
             os_Stat r s = Ok info /\ largestSize < Size info
             /\ forall f info', In f files -> os_Stat f s = Ok info' -> Size info' <= Size info).
Proof.
  induction files as [|file rest IH]; intros cur size; cbn [largest_file].
  - left. split; [reflexivity|]. intros f info [].
  - destruct (os_Stat file s) as [info|e] eqn:Hstat.
    + destruct (Z.ltb_spec size (Size info)) as [Hlt|Hge].
      * destruct (IH file (Size info)) as [[-> Hall]|(Hin & info' & Hr & Hlt' & Hall)].
        -- right. split; [now left|]. exists info. split; [exact Hstat|]. split; [exact Hlt|].
           intros f info' [<-|Hf] Hf'; [rewrite Hstat in Hf'; inversion Hf'; lia|eauto].
        -- right. split; [now right|]. exists info'. split; [exact Hr|]. split; [lia|].
           intros f info'' [<-|Hf] Hf'; [rewrite Hstat in Hf'; inversion Hf'; subst; lia|eauto].
      * destruct (IH cur size) as [[-> Hall]|(Hin & info' & Hr & Hlt' & Hall)].
        -- left. split; [reflexivity|].
           intros f info' [<-|Hf] Hf'; [rewrite Hstat in Hf'; inversion Hf'; subst; lia|eauto].
        -- right. split; [now right|]. exists info'. split; [exact Hr|]. split; [exact Hlt'|].
           intros f info'' [<-|Hf] Hf'; [rewrite Hstat in Hf'; inversion Hf'; subst; lia|eauto].
    + destruct (IH cur size) as [[-> Hall]|(Hin & info' & Hr & Hlt' & Hall)].
      * left. split; [reflexivity|].
        intros f info' [<-|Hf] Hf'; [rewrite Hstat in Hf'; discriminate|eauto].
      * right. split; [now right|]. exists info'. split; [exact Hr|]. split; [exact Hlt'|].
        intros f info'' [<-|Hf] Hf'; [rewrite Hstat in Hf'; discriminate|eauto].
Qed.

(** X22.  The thumbnail downloadThumbnail keeps is a largest one: the
    loop over the files found returns one of them that can be stat'ed,
    has a positive size, and is at least as large as every other file
    that can be stat'ed; it returns the empty name when no file of
    positive size can be stat'ed. *)
Theorem largest_file_is_largest s (files : list string) :
  let r := largest_file s files "" 0 in
  (r = "" /\ forall f info, In f files -> os_Stat f s = Ok info -> Size info <= 0)
  \/ (In r files
      /\ exists info,
           os_Stat r s = Ok info /\ 0 < Size info
           /\ forall f info', In f files -> os_Stat f s = Ok info' -> Size info' <= Size info).
Proof. exact (largest_file_spec s files "" 0). Qed.

Lemma first_existing_spec (patterns : list string) w :
  sys (snd (first_existing patterns w)) = sys w
  /\ match fst (first_existing patterns w) with
     | Some p => In p patterns /\ exists info, os_Stat p (sys w) = Ok info
     | None => forall p, In p patterns -> exists e, os_Stat p (sys w) = Err e
     end.
Proof.
  induction patterns as [|pattern rest IH]; cbn [first_existing].
  - cbn. split; [reflexivity|]. intros p [].
  - unfold fileExists, query, ret, logf, bind. cbn [fst snd].
    destruct (os_Stat pattern (sys w)) as [info|e] eqn:Hstat; cbn [fst snd sys record].
    + split; [reflexivity|]. split; [now left|eauto].
    + destruct IH as [Hsys Hres]. split; [exact Hsys|].
      destruct (fst (first_existing rest w)) as [p|].
      * destruct Hres as [Hin Hp]. split; [now right|exact Hp].
      * intros p [<-|Hin]; eauto.
Qed.

(** X23.  downloadSubtitle returns an empty path with every error.  A
    path it returns is one of the six fixed names in the run directory,
    for a file that exists when the call returns, or else, when none of
    the six exists, the first match of the pattern subtitle.* there. *)
Theorem downloadSubtitle_outcomes d ctx (url lang downloadPath : string) w :
  let out := downloadSubtitle d ctx url lang downloadPath w in
  let path := fst (fst out) in
  let err := snd (fst out) in
  let s' := sys (snd out) in
  let patterns :=
    [filepath_Join [downloadPath; "subtitle." +:+ lang +:+ ".srt"];
     filepath_Join [downloadPath; "subtitle." +:+ lang +:+ ".vtt"];
     filepath_Join [downloadPath; "subtitle.srt"];
     filepath_Join [downloadPath; "subtitle.vtt"];
     filepath_Join [downloadPath; "subtitle." +:+ lang +:+ ".auto.srt"];
     filepath_Join [downloadPath; "subtitle." +:+ lang +:+ ".auto.vtt"]] in
  (err <> None -> path = "")
  /\ (path <> "" ->
      (In path patterns /\ exists info, os_Stat path s' = Ok info)
      \/ ((forall p, In p patterns -> exists e, os_Stat p s' = Err e)
          /\ exists rest,
               filepath_Glob (filepath_Join [downloadPath; "subtitle.*"]) s'
               = (path :: rest, None))).
Proof.
  intros out path err s' patterns. subst path err s'.
  destruct out as [[path err] w'] eqn:Hout. subst out. cbn [fst snd].
  unfold downloadSubtitle in Hout.
  destruct (dependencyPath d "yt-dlp" =? "")%string.
  { inversion Hout; subst. split; [reflexivity|contradiction]. }
  unfold bind in Hout.
  destruct (listAvailableSubtitles d ctx url w) as [[availableSubs e0] w1].
  assert (Hlog : forall (m : M unit), (exists ev, m = fun w0 => (tt, record ev w0)) ->
                 exists w2, m w1 = (tt, w2) /\ sys w2 = sys w1).
  { intros m [ev ->]. eexists. split; reflexivity. }
  match type of Hout with context [match ?X with pair _ _ => _ end] =>
    match X with
    | ?m w1 => destruct (Hlog m) as (w2 & Hw2 & _);
               [destruct e0; eexists; reflexivity|rewrite Hw2 in Hout]
    end
  end.
  clear Hlog.
  destruct (getCookiesArgs d url w2) as [args w3].
  destruct (CombinedOutput _ _ _ w3) as [[output [e|]] w4].
  { inversion Hout; subst. split; [reflexivity|contradiction]. }
  destruct (_ || _).
  { inversion Hout; subst. split; [reflexivity|contradiction]. }
  cbn [app] in Hout. fold patterns in Hout.
  pose proof (first_existing_spec patterns w4) as [Hsys Hfound].
  destruct (first_existing patterns w4) as [[p|] w5]; cbn [fst snd] in Hsys, Hfound.
  { inversion Hout; subst. split; [congruence|]. intros _. left. now rewrite Hsys. }
  unfold query in Hout.
  destruct (filepath_Glob _ (sys w5)) as [files [e|]] eqn:Hglob.
  { inversion Hout; subst. split; [reflexivity|contradiction]. }
  destruct files as [|file0 files].
  { inversion Hout; subst. split; [reflexivity|contradiction]. }
  inversion Hout; subst. cbn [sys record]. split; [congruence|]. intros _. right.
  rewrite Hsys. split; [exact Hfound|]. exists files. now rewrite <- Hsys.
Qed.

End PickedFiles.

(** ** Instances on the scripted machines *)
Section MoreExamples.
Import Retry RetryResult RateLimiter RateLimiterSweep Downloader Dependencies.


Lemma admissions_in_one_window_witness :
  fst (Allow_each (Scenes.a_limiter 2) context_Background "alice"
         (Sim.boot (Sim.idle 0) :: Scenes.a_burst))
  = [(true, None); (true, None); (false, None); (false, None)].
Proof.
  apply (admissions_in_one_window (Scenes.a_limiter 2) context_Background "alice"
           (Sim.boot (Sim.idle 0)) Scenes.a_burst).
  - reflexivity.
  - reflexivity.
  - vm_compute. discriminate.
  - vm_compute. split; discriminate.
  - vm_compute. exact I.
  - intros w [<-|[<-|[<-|[]]]]; vm_compute; discriminate.
Defined.

Lemma window_restarts_after_it_elapsed_witness :
  fst (Allow Scenes.used_up context_Background "alice" (Sim.boot (Sim.idle (30 * Second))))
  = ((false, None), Scenes.used_up)
  /\ exists rl',
       Allow Scenes.used_up context_Background "alice" (Sim.boot (Sim.idle (61 * Second)))
       = ((true, None), rl', Sim.boot (Sim.idle (61 * Second)))
       /\ counters rl' !! (if userLimit Scenes.used_up then "alice" else "global")
          = Some {| count := 1; timestamp := time_Now (Sim.boot (Sim.idle (61 * Second))) |}.
Proof.
  apply (window_restarts_after_it_elapsed Scenes.used_up context_Background "alice"
           {| count := 1; timestamp := 0 |}).
  - reflexivity.
  - reflexivity.
  - vm_compute. split; [discriminate|reflexivity].
  - vm_compute. reflexivity.
  - vm_compute. discriminate.
  - vm_compute. discriminate.
  - vm_compute. reflexivity.
Defined.

Lemma identifiers_do_not_interfere_witness :
  let rl1 := snd (fst (Allow (Scenes.a_limiter 3) context_Background "alice"
                         (Sim.boot (Sim.idle 0)))) in
  counters rl1 !! "bob" = counters (Scenes.a_limiter 3) !! "bob"
  /\ fst (fst (Allow rl1 context_Background "bob" (Sim.boot (Sim.idle 1))))
     = fst (fst (Allow (Scenes.a_limiter 3) context_Background "bob" (Sim.boot (Sim.idle 1))))
  /\ snd (Allow rl1 context_Background "bob" (Sim.boot (Sim.idle 1)))
     = snd (Allow (Scenes.a_limiter 3) context_Background "bob" (Sim.boot (Sim.idle 1)))
  /\ counters (snd (fst (Allow rl1 context_Background "bob" (Sim.boot (Sim.idle 1))))) !! "bob"
     = counters (snd (fst (Allow (Scenes.a_limiter 3) context_Background "bob"
                             (Sim.boot (Sim.idle 1))))) !! "bob".
Proof.
  apply (identifiers_do_not_interfere (Scenes.a_limiter 3) context_Background "alice" "bob"
           (Sim.boot (Sim.idle 0)) (Sim.boot (Sim.idle 1))).
  - reflexivity.
  - reflexivity.
  - reflexivity.
  - discriminate.
Defined.

Lemma cleanup_is_not_observable_witness :
  let cleaned := CleanupExpiredCounters Scenes.used_up (Sim.boot (Sim.idle (61 * Second))) in
  let key := if userLimit Scenes.used_up then "alice" else "global" in
  (forall (i : string) (c : counter),
     counters cleaned !! i = Some c
     <-> counters Scenes.used_up !! i = Some c
         /\ expired Scenes.used_up (time_Now (Sim.boot (Sim.idle (61 * Second)))) c = false)
  /\ fst (fst (Allow cleaned context_Background "alice" (Sim.boot (Sim.idle (62 * Second)))))
     = fst (fst (Allow Scenes.used_up context_Background "alice"
                   (Sim.boot (Sim.idle (62 * Second)))))
  /\ snd (Allow cleaned context_Background "alice" (Sim.boot (Sim.idle (62 * Second))))
     = snd (Allow Scenes.used_up context_Background "alice" (Sim.boot (Sim.idle (62 * Second))))
  /\ counters (snd (fst (Allow cleaned context_Background "alice"
                           (Sim.boot (Sim.idle (62 * Second)))))) !! key
     = counters (snd (fst (Allow Scenes.used_up context_Background "alice"
                             (Sim.boot (Sim.idle (62 * Second)))))) !! key.
Proof.
  apply (cleanup_is_not_observable Scenes.used_up context_Background "alice"
           (Sim.boot (Sim.idle (61 * Second))) (Sim.boot (Sim.idle (62 * Second)))).
  - reflexivity.
  - reflexivity.
  - vm_compute. discriminate.
Defined.

Lemma counts_stay_bounded_witness :
  counts_bounded (snd (fst (Allow (Scenes.a_limiter 3) context_Background "alice"
                              (Sim.boot (Sim.idle 0)))))
  /\ counts_bounded (CleanupExpiredCounters (Scenes.a_limiter 3) (Sim.boot (Sim.idle 0))).
Proof.
  apply (counts_stay_bounded (Scenes.a_limiter 3) context_Background "alice"
           (Sim.boot (Sim.idle 0))).
  - vm_compute. discriminate.
  - intros i c Hc. cbn in Hc. rewrite lookup_empty in Hc. discriminate.
Defined.

Lemma redis_commands_of_a_call_witness :
  let key := "rate_limit:" +:+ (if userLimit Scenes.a_redis_limiter then "alice" else "global") in
  exists ok err w' cmds,
    Allow Scenes.a_redis_limiter context_Background "alice" (Sim.boot (Sim.expire_down 0))
    = ((ok, err), Scenes.a_redis_limiter, w')
    /\ redis_calls (trace w') = redis_calls (trace (Sim.boot (Sim.expire_down 0))) ++ cmds
    /\ ((exists e, cmds = [("ZRemRangeByScore", key, Some e)] /\ ok = true /\ err = Some e)
        \/ (exists e,
              cmds = [("ZRemRangeByScore", key, None); ("ZCard", key, Some e)]
              /\ ok = true /\ err = Some e)
        \/ (cmds = [("ZRemRangeByScore", key, None); ("ZCard", key, None)]
            /\ ok = false /\ err = None)
        \/ (exists e,
              cmds = [("ZRemRangeByScore", key, None); ("ZCard", key, None);
                      ("ZAdd", key, Some e)]
              /\ ok = true /\ err = Some e)
        \/ (exists e4,
              cmds = [("ZRemRangeByScore", key, None); ("ZCard", key, None);
                      ("ZAdd", key, None); ("Expire", key, e4)]
              /\ ok = true /\ err = None)).
Proof.
  apply (redis_commands_of_a_call Scenes.a_redis_limiter context_Background "alice"
           (Sim.boot (Sim.expire_down 0)) {| redis_addr := "localhost:6379" |}).
  - reflexivity.
  - reflexivity.
Defined.

Lemma runs_at_different_instants_use_different_paths_witness :
  exists r1 r2,
    fst (fst (Download (Sim.a_downloader 0) context_Background "https://youtu.be/a" "en"
                (Sim.boot (Sim.idle 5)))) = Some r1
    /\ fst (fst (Download (Sim.a_downloader 0) context_Background "https://youtu.be/b" "en"
                   (Sim.boot (Sim.idle 6)))) = Some r2
    /\ VideoPath r1 <> VideoPath r2.
Proof.
  eexists _, _. split; [vm_compute; reflexivity|]. split; [vm_compute; reflexivity|].
  apply (runs_at_different_instants_use_different_paths (Sim.a_downloader 0)
           context_Background context_Background "https://youtu.be/a" "https://youtu.be/b"
           "en" "en" (Sim.boot (Sim.idle 5)) (Sim.boot (Sim.idle 6))).
  - vm_compute. reflexivity.
  - vm_compute. reflexivity.
  - vm_compute. discriminate.
Defined.

Lemma Download_with_negative_budget_witness :
  exists r w',
    Download (Sim.a_downloader (-1)) context_Background "https://youtu.be/a" "en"
      (Sim.boot (Sim.idle 5)) = ((Some r, None), w')
    /\ VideoPath r
       = filepath_Join [filepath_Join [downloadDir (Sim.a_downloader (-1));
                                       Sprintf_d (time_Now (Sim.boot (Sim.idle 5)))];
                        "video_base.mp4"]
    /\ AudioPath r
       = filepath_Join [filepath_Join [downloadDir (Sim.a_downloader (-1));
                                       Sprintf_d (time_Now (Sim.boot (Sim.idle 5)))];
                        "audio.mp3"]
    /\ HasSubtitle r = false
    /\ VideoWithSubPath r = ""
    /\ runs_only [dependencyPath (Sim.a_downloader (-1)) "ffprobe";
                  dependencyPath (Sim.a_downloader (-1)) "ffmpeg"]
         (trace (Sim.boot (Sim.idle 5))) (trace w').
Proof.
  apply (Download_with_negative_budget (Sim.a_downloader (-1)) context_Background
           "https://youtu.be/a" "en" (Sim.boot (Sim.idle 5))).
  - vm_compute. reflexivity.
  - vm_compute. reflexivity.
Defined.

Lemma CheckDependencies_reports_missing_witness :
  let out := CheckDependencies NewDependencyChecker (Sim.boot (Sim.idle 0)) in
  let results := fst (fst (fst out)) in
  let err := snd (fst (fst out)) in
  (forall dep, is_Some (results !! dep) <-> dep ∈ fmap fst (dependencies NewDependencyChecker))
  /\ (err = None
      <-> forall dep, dep ∈ fmap fst (dependencies NewDependencyChecker) ->
                      results !! dep = Some true)
  /\ dependencies (snd (fst out)) = dependencies NewDependencyChecker.
Proof.
  apply (CheckDependencies_reports_missing NewDependencyChecker (Sim.boot (Sim.idle 0))).
  apply (bool_decide_unpack _). vm_compute. exact I.
Defined.

Lemma CheckDependencies_keeps_stale_paths_witness :
  let out := CheckDependencies NewDependencyChecker (Sim.boot (Sim.idle 0)) in
  let results := fst (fst (fst out)) in
  let dc' := snd (fst out) in
  (results !! "yt-dlp" = Some true -> is_Some (GetDependencyPaths dc' !! "yt-dlp"))
  /\ (results !! "yt-dlp" <> Some true ->
      GetDependencyPaths dc' !! "yt-dlp" = GetDependencyPaths NewDependencyChecker !! "yt-dlp").
Proof.
  apply (CheckDependencies_keeps_stale_paths NewDependencyChecker (Sim.boot (Sim.idle 0))
           "yt-dlp").
  apply (bool_decide_unpack _). vm_compute. exact I.
Defined.

End MoreExamples.
